(** * LogForgeryBlocker agent and proxy: a shallow embedding

    The development follows the Python sources module by module:

    - [Sha256]            hashlib.sha256(...).hexdigest(), used by agent/log.py
    - [LogModel]          agent/log.py (Log, Record, Snapshot)
    - [Backend]           agent/backend_connector.py and agent/collector.py
    - [Networking]        networking.py (framing and the six message kinds)
    - [ContentRequests]   agent/proxyconnection.py (requests and their handler)
    - [Agent]             agent/lfb_agent.py and the connections of
                          agent/proxyconnection.py (lead election, event loop)
    - [Validator]         agent/validator.py
    - [ContentServer]     proxy/filesystem/contentmanager.py

    Python [str] values are represented by their UTF-8 encoding (a Rocq
    [string] is a sequence of bytes), so that [s.encode()] is the identity
    and [+] on [str] is [String.append].  Python integers are unbounded and
    are represented by [Z].  Objects that are shared and mutated (content
    requests, connections) live in stores and are referred to by their
    index; functions that can raise return a [result].  Locks are not
    represented: each method body is one step. *)

From Stdlib Require Import ZArith NArith List String Ascii Bool Lia.
From stdpp Require Import gmap strings list.

(** ** Exceptions and fallible computations *)

Inductive exn :=
| ValueError (msg : string)
| OverflowError
| ConnectionError
| StopIteration
| IndexError
| FileNotFoundError
| DecodeError
| UnicodeDecodeError.

Inductive result (A : Type) :=
| Ok (a : A)
| Raise (e : exn).
Arguments Ok {A} a.
Arguments Raise {A} e.

#[global] Instance result_ret : MRet result := fun _ a => Ok a.
#[global] Instance result_bind : MBind result := fun _ _ k r =>
  match r with
  | Ok a => k a
  | Raise e => Raise e
  end.

(** ** SHA-256 (FIPS 180-4), as computed by [hashlib.sha256] *)

Module Sha256.
Local Open Scope N_scope.

Definition mask32 : N := 0xFFFFFFFF.
Definition add32 (x y : N) : N := N.land (x + y) mask32.
Definition rotr (n x : N) : N :=
  N.lor (N.shiftr x n) (N.land (N.shiftl x (32 - n)) mask32).
Definition not32 (x : N) : N := N.lxor x mask32.

Definition Ch (x y z : N) : N := N.lxor (N.land x y) (N.land (not32 x) z).
Definition Maj (x y z : N) : N :=
  N.lxor (N.lxor (N.land x y) (N.land x z)) (N.land y z).
Definition Sigma0 (x : N) : N := N.lxor (N.lxor (rotr 2 x) (rotr 13 x)) (rotr 22 x).
Definition Sigma1 (x : N) : N := N.lxor (N.lxor (rotr 6 x) (rotr 11 x)) (rotr 25 x).
Definition sigma0 (x : N) : N := N.lxor (N.lxor (rotr 7 x) (rotr 18 x)) (N.shiftr x 3).
Definition sigma1 (x : N) : N := N.lxor (N.lxor (rotr 17 x) (rotr 19 x)) (N.shiftr x 10).

(** The round constants are the first 32 bits of the fractional parts of
    the cube roots of the first 64 primes, and the initial state those of the
    square roots of the first 8 primes. *)
Definition is_prime (n : N) : bool :=
  (1 <? n) && forallb (fun d => negb (n mod (N.of_nat d) =? 0)) (seq 2 (N.to_nat n - 2)).

Definition first_primes (count : nat) : list N :=
  firstn count (List.filter is_prime (map N.of_nat (seq 0 320))).

(** Largest [r] below [2 ^ bits] with [r ^ 3 <= x], found bit by bit. *)
Fixpoint cube_root_bits (bits : nat) (x r : N) : N :=
  match bits with
  | O => r
  | S b =>
      let r' := r + N.shiftl 1 (N.of_nat b) in
      cube_root_bits b x (if r' * r' * r' <=? x then r' else r)
  end.

Definition frac_cube_root (p : N) : N :=
  N.land (cube_root_bits 36 (N.shiftl p 96) 0) mask32.

Definition frac_square_root (p : N) : N :=
  N.land (N.sqrt (N.shiftl p 64)) mask32.

Definition K : list N := Eval vm_compute in map frac_cube_root (first_primes 64).

Definition H0 : list N := Eval vm_compute in map frac_square_root (first_primes 8).

(** Big-endian digits of [x] in base 256, [n] of them. *)
Fixpoint be_bytes (n : nat) (x : N) : list N :=
  match n with
  | O => []
  | S n' => be_bytes n' (N.shiftr x 8) ++ [N.land x 0xFF]
  end.

Definition be_value (bs : list N) : N :=
  fold_left (fun acc b => N.lor (N.shiftl acc 8) b) bs 0.

Definition pad (msg : list N) : list N :=
  let len := N.of_nat (length msg) in
  let zeros := (119 - len mod 64) mod 64 in
  msg ++ [0x80] ++ repeat 0 (N.to_nat zeros) ++ be_bytes 8 (8 * len).

(** Cut a list in chunks of [n] elements; [fuel] bounds the number of chunks. *)
Fixpoint chunks {A} (fuel n : nat) (l : list A) : list (list A) :=
  match fuel with
  | O => []
  | S fuel' =>
      match l with
      | [] => []
      | _ => take n l :: chunks fuel' n (drop n l)
      end
  end.

Definition words_of_block (block : list N) : list N :=
  map be_value (chunks 16 4 block).

Definition schedule_next (ws : list N) : list N :=
  let t := length ws in
  let w i := nth (t - i) ws 0 in
  ws ++ [add32 (add32 (sigma1 (w 2%nat)) (w 7%nat))
               (add32 (sigma0 (w 15%nat)) (w 16%nat))].

Definition schedule (w16 : list N) : list N :=
  Nat.iter 48 schedule_next w16.

Definition round (st : list N) (kw : N * N) : list N :=
  match st with
  | [a; b; c; d; e; f; g; h] =>
      let t1 := add32 (add32 (add32 h (Sigma1 e)) (add32 (Ch e f g) kw.1)) kw.2 in
      let t2 := add32 (Sigma0 a) (Maj a b c) in
      [add32 t1 t2; a; b; c; add32 d t1; e; f; g]
  | _ => st
  end.

Definition compress (st : list N) (block : list N) : list N :=
  let ws := schedule (words_of_block block) in
  let st' := fold_left round (combine K ws) st in
  map (fun p => add32 p.1 p.2) (combine st st').

Definition digest_words (msg : list N) : list N :=
  let padded := pad msg in
  fold_left compress (chunks (length padded) 64 padded) H0.

Definition hex_digit (d : N) : ascii :=
  if d <? 10 then ascii_of_N (48 + d) else ascii_of_N (87 + d).

Definition hex_word (w : N) : list ascii :=
  map (fun i => hex_digit (N.land (N.shiftr w (4 * i)) 0xF)) [7; 6; 5; 4; 3; 2; 1; 0].

Definition hexdigest (msg : string) : string :=
  string_of_list_ascii
    (concat (map hex_word (digest_words (map N_of_ascii (list_ascii_of_string msg))))).

End Sha256.

(** Known answers ([hashlib.sha256(b).hexdigest()]). *)
Example sha256_empty :
  Sha256.hexdigest "" = "e3b0c44298fc1c149afbf4c8996fb92427ae41e4649b934ca495991b7852b855".
Proof. vm_compute. reflexivity. Qed.

Example sha256_abc :
  Sha256.hexdigest "abc" = "ba7816bf8f01cfea414140de5dae2223b00361a396177a9cb410ff61f20015ad".
Proof. vm_compute. reflexivity. Qed.

Example sha256_two_blocks :
  Sha256.hexdigest "aaaaaaaaaaaaaaaaaaaaaaaaaaaaaaaaaaaaaaaaaaaaaaaaaaaaaaaa"
  = "b35439a4ac6f0948b6d6f9e3c6af0f5f590ce20f1bde7090ef7970686ec6738a".
Proof. vm_compute. reflexivity. Qed.

(** ** agent/log.py: Log, Record, Snapshot *)

Module LogModel.
Local Open Scope Z_scope.

Record Log := mkLog {
  log_name : string;
  log_id : option string;
}.

(** [Record] of the source; timestamps are carried as microseconds. *)
Record LogRecord := mkRecord {
  rec_log : Log;
  data : string;
  timestamp : Z;
}.

Record Snapshot := mkSnapshot {
  log : Log;
  cum_hash : string;
  first_line : Z;
  line_count : Z;
}.

(** The dictionary built by [Snapshot.to_dict]. *)
Record SnapshotDict := mkDict {
  firstLine : Z;
  lastLine : Z;
  logId : option string;
  fingerprint : string;
}.

Definition hash_fun (data : string) : string := Sha256.hexdigest data.

(** [Snapshot.__init__] *)
Definition Snapshot_init (log : Log) (first_line : Z) : Snapshot :=
  {| log := log; cum_hash := hash_fun ""; first_line := first_line; line_count := 0 |}.

Definition add_record (s : Snapshot) (record : LogRecord) : Snapshot :=
  {| log := log s;
     cum_hash := hash_fun (cum_hash s +:+ data record);
     first_line := first_line s;
     line_count := line_count s + 1 |}.

Definition get_next_line (s : Snapshot) : Z := first_line s + line_count s.

Definition get_hash (s : Snapshot) : string := cum_hash s.

Definition to_dict (s : Snapshot) : SnapshotDict :=
  {| firstLine := first_line s;
     lastLine := get_next_line s - 1;
     logId := log_id (log s);
     fingerprint := get_hash s |}.

Definition reset (s : Snapshot) : Snapshot :=
  {| log := log s;
     cum_hash := hash_fun "";
     first_line := get_next_line s;
     line_count := 0 |}.

(** [upload_prep] returns the dictionary and leaves the snapshot reset; the
    whole body runs under the snapshot's lock, hence is one step here. *)
Definition upload_prep (s : Snapshot) : SnapshotDict * Snapshot :=
  let data := to_dict s in
  (data, reset s).

(** Sequences of calls on one snapshot. *)
Inductive SnapshotCall :=
| CallAddRecord (r : LogRecord)
| CallReset
| CallUploadPrep.

Definition call (s : Snapshot) (c : SnapshotCall) : Snapshot * list SnapshotDict :=
  match c with
  | CallAddRecord r => (add_record s r, [])
  | CallReset => (reset s, [])
  | CallUploadPrep => let '(d, s') := upload_prep s in (s', [d])
  end.

(** Runs the calls in order; the second component collects what the
    [upload_prep] calls returned, oldest first. *)
Fixpoint calls (s : Snapshot) (cs : list SnapshotCall) : Snapshot * list SnapshotDict :=
  match cs with
  | [] => (s, [])
  | c :: cs' =>
      let '(s1, out1) := call s c in
      let '(s2, out2) := calls s1 cs' in
      (s2, out1 ++ out2)
  end.

Definition add_record_seq (s : Snapshot) (rs : list LogRecord) : Snapshot :=
  fold_left add_record rs s.

(** The records added since the last reset or upload. *)
Fixpoint pending_from (acc : list LogRecord) (cs : list SnapshotCall) : list LogRecord :=
  match cs with
  | [] => acc
  | CallAddRecord r :: cs' => pending_from (acc ++ [r]) cs'
  | CallReset :: cs' => pending_from [] cs'
  | CallUploadPrep :: cs' => pending_from [] cs'
  end.

Definition pending (cs : list SnapshotCall) : list LogRecord := pending_from [] cs.

Definition is_add (c : SnapshotCall) : bool :=
  match c with CallAddRecord _ => true | _ => false end.

Definition count_added (cs : list SnapshotCall) : Z :=
  Z.of_nat (length (List.filter is_add cs)).

(** The fold of the specification: h0 = H(""), hi = H(h(i-1) ++ ri.data). *)
Definition fold_hash (rs : list LogRecord) : string :=
  fold_left (fun h r => hash_fun (h +:+ data r)) rs (hash_fun "").

(** The line numbers a dictionary stands for: firstLine .. lastLine. *)
Definition dict_lines (d : SnapshotDict) : list Z :=
  seqZ (firstLine d) (lastLine d - firstLine d + 1).

Definition snapshot_lines (s : Snapshot) : list Z :=
  seqZ (first_line s) (line_count s).

(** The guard of [post_snapshot]. *)
Definition postable (d : SnapshotDict) : bool := firstLine d <=? lastLine d.

(** Each dictionary starts right after the previous one ends. *)
Fixpoint contiguous_from (start : Z) (ds : list SnapshotDict) : Prop :=
  match ds with
  | [] => True%type
  | d :: ds' => firstLine d = start /\ firstLine d <= lastLine d
                /\ contiguous_from (lastLine d + 1) ds'
  end.

Arguments hash_fun : simpl never.
#[global] Opaque hash_fun.

(** *** Fingerprint of a snapshot *)

Lemma fold_hash_snoc rs r :
  fold_hash (rs ++ [r]) = hash_fun (fold_hash rs +:+ data r).
Proof. unfold fold_hash. by rewrite fold_left_app. Qed.

Lemma add_records_snoc s rs r :
  add_record_seq s (rs ++ [r]) = add_record (add_record_seq s rs) r.
Proof. unfold add_record_seq. by rewrite fold_left_app. Qed.

Lemma add_records_fresh s rs :
  cum_hash s = hash_fun "" ->
  cum_hash (add_record_seq s rs) = fold_hash rs.
Proof.
  intros Hs. induction rs as [|r rs IH] using rev_ind; [done|].
  rewrite add_records_snoc, fold_hash_snoc. simpl. by rewrite IH.
Qed.

Lemma add_records_line_count s rs :
  line_count (add_record_seq s rs) = line_count s + Z.of_nat (length rs).
Proof.
  revert s. induction rs as [|r rs IH]; intros s; simpl; [lia|].
  rewrite IH. simpl. lia.
Qed.

(** The state reached by any history is described by the records pending
    since the last reset or upload. *)
Lemma calls_pending s acc cs :
  cum_hash s = fold_hash acc ->
  line_count s = Z.of_nat (length acc) ->
  cum_hash (calls s cs).1 = fold_hash (pending_from acc cs)
  /\ line_count (calls s cs).1 = Z.of_nat (length (pending_from acc cs)).
Proof.
  revert s acc. induction cs as [|c cs IH]; intros s acc Hh Hn; [done|].
  simpl. destruct c as [r| |]; simpl.
  - destruct (calls (add_record s r) cs) as [s2 out2] eqn:E. simpl.
    specialize (IH (add_record s r) (acc ++ [r])). rewrite E in IH. apply IH.
    + simpl. by rewrite Hh, fold_hash_snoc.
    + simpl. rewrite Hn, length_app. simpl. lia.
  - destruct (calls (reset s) cs) as [s2 out2] eqn:E. simpl.
    specialize (IH (reset s) []). rewrite E in IH. by apply IH.
  - destruct (calls (reset s) cs) as [s2 out2] eqn:E. simpl.
    specialize (IH (reset s) []). rewrite E in IH. by apply IH.
Qed.

(** C1. Fingerprint linearity: after any history of calls on a snapshot the
    cumulative hash is the left fold of [hash_fun] (SHA-256, lowercase hex)
    over the records added since the last reset or upload, started from
    [hash_fun ""]; the hash is [hash_fun ""] whenever [line_count] is 0; and
    after [upload_prep] at any point, adding a continuation gives the fold
    of that continuation alone, the same as on a fresh snapshot. *)
Theorem fingerprint_linearity (lg : Log) (f : Z) (cs : list SnapshotCall)
    (rs : list LogRecord) :
  let s := (calls (Snapshot_init lg f) cs).1 in
  cum_hash s = fold_hash (pending cs)
  /\ cum_hash (add_record_seq (Snapshot_init lg f) rs) = fold_hash rs
  /\ (line_count s = 0 -> cum_hash s = hash_fun "")
  /\ cum_hash (add_record_seq (upload_prep s).2 rs) = fold_hash rs
  /\ cum_hash (add_record_seq (upload_prep s).2 rs)
     = cum_hash (add_record_seq (Snapshot_init lg f) rs).
Proof.
  intros s.
  destruct (calls_pending (Snapshot_init lg f) [] cs) as [Hh Hn]; [done..|].
  fold (pending cs) in Hh, Hn. fold s in Hh, Hn.
  split; [done|]. split; [by apply add_records_fresh|]. split.
  - intros H0. rewrite Hn in H0. rewrite Hh.
    destruct (pending cs); [done|simpl in H0; lia].
  - by rewrite !add_records_fresh.
Qed.

(** *** Line ranges across uploads *)

Definition no_reset (cs : list SnapshotCall) : bool :=
  forallb (fun c => match c with CallReset => false | _ => true end) cs.

Lemma postable_to_dict s : postable (to_dict s) = (0 <? line_count s).
Proof.
  unfold postable, to_dict, get_next_line. simpl.
  destruct (Z.leb_spec (first_line s) (first_line s + line_count s - 1)),
           (Z.ltb_spec 0 (line_count s)); done || lia.
Qed.

Lemma dict_lines_to_dict s :
  dict_lines (to_dict s) = seqZ (first_line s) (line_count s).
Proof.
  unfold dict_lines, to_dict, get_next_line. simpl. f_equal. lia.
Qed.

Lemma calls_cover s cs :
  no_reset cs = true ->
  0 <= line_count s ->
  let posted := List.filter postable (calls s cs).2 in
  let s' := (calls s cs).1 in
  concat (map dict_lines posted) ++ snapshot_lines s'
    = seqZ (first_line s) (line_count s + count_added cs)
  /\ contiguous_from (first_line s) posted
  /\ get_next_line s' = first_line s + line_count s + count_added cs.
Proof.
  revert s. induction cs as [|c cs IH]; intros s Hnr Hn; simpl.
  - unfold snapshot_lines, get_next_line, count_added. simpl.
    rewrite !Z.add_0_r. done.
  - simpl in Hnr. apply andb_true_iff in Hnr as [Hc Hnr].
    destruct c as [r| |]; [|done|]; simpl.
    + destruct (calls (add_record s r) cs) as [s2 out2] eqn:E. simpl.
      specialize (IH (add_record s r) Hnr). rewrite E in IH. simpl in IH.
      destruct IH as (IH1 & IH2 & IH3); [lia|].
      unfold count_added in *. simpl.
      rewrite IH1, IH3. split_and!; [f_equal; lia|done|lia].
    + destruct (calls (reset s) cs) as [s2 out2] eqn:E. simpl.
      specialize (IH (reset s) Hnr). rewrite E in IH. simpl in IH.
      destruct IH as (IH1 & IH2 & IH3); [lia|].
      unfold count_added in *. simpl.
      rewrite postable_to_dict.
      destruct (Z.ltb_spec 0 (line_count s)) as [Hlt|Hge].
      * simpl. rewrite <- app_assoc, IH1, IH3, dict_lines_to_dict.
        unfold get_next_line. rewrite Z.add_0_l, <- seqZ_app by lia.
        split_and!; try done; try lia.
        replace (first_line s + line_count s - 1 + 1)
          with (first_line s + line_count s) by lia. done.
      * assert (line_count s = 0) as H0 by lia.
        unfold get_next_line in *.
        rewrite IH1, IH3, H0 in *. rewrite !Z.add_0_r in *.
        split_and!; try done.
Qed.

Lemma calls_snoc s cs c :
  calls s (cs ++ [c])
  = (let '(s1, out1) := calls s cs in
     let '(s2, out2) := call s1 c in
     (s2, out1 ++ out2)).
Proof.
  revert s. induction cs as [|c0 cs IH]; intros s.
  - cbn [app calls]. destruct (call s c) as [s2 out2]. by rewrite app_nil_r.
  - cbn [app calls]. destruct (call s c0) as [s1 out1]. rewrite IH.
    destruct (calls s1 cs) as [s2 out2]. destruct (call s2 c) as [s3 out3].
    by rewrite app_assoc.
Qed.

Lemma calls_log s cs : log (calls s cs).1 = log s.
Proof.
  revert s. induction cs as [|c cs IH]; intros s; [reflexivity|].
  cbn [calls]. destruct (call s c) as [s1 out1] eqn:E1.
  specialize (IH s1). destruct (calls s1 cs) as [s2 out2]. cbn [fst] in *.
  rewrite IH. destruct c; cbn in E1; injection E1 as <- _; reflexivity.
Qed.

(** C2. No record is lost or counted twice across uploads: starting from
    [first_line = 0], after any interleaving of [add_record] and
    [upload_prep] calls, the dictionaries that pass the guard of
    [post_snapshot] ([firstLine <= lastLine]) are contiguous, each starting
    where the previous one ended, and their line ranges followed by the
    range of the snapshot in progress enumerate 0 .. k-1 exactly once, k
    being the number of records added.  With p the number of records
    added since the last [upload_prep]: the dictionaries returned so far
    hold lines 0 .. k-p-1 and the snapshot in progress lines k-p .. k-1;
    [upload_prep], called now, returns the view of exactly these p lines,
    with the fingerprint of their records, and in the same step leaves the
    snapshot empty at line k. *)
Theorem no_record_loss (lg : Log) (cs : list SnapshotCall) :
  no_reset cs = true ->
  let posted := List.filter postable (calls (Snapshot_init lg 0) cs).2 in
  let s := (calls (Snapshot_init lg 0) cs).1 in
  concat (map dict_lines posted) ++ snapshot_lines s = seqZ 0 (count_added cs)
  /\ contiguous_from 0 posted
  /\ NoDup (concat (map dict_lines posted) ++ snapshot_lines s)
  /\ get_next_line s = count_added cs
  /\ (let k := count_added cs in
      let p := Z.of_nat (length (pending cs)) in
      concat (map dict_lines posted) = seqZ 0 (k - p)
      /\ snapshot_lines s = seqZ (k - p) p
      /\ upload_prep s
         = ({| firstLine := k - p; lastLine := k - 1; logId := log_id lg;
               fingerprint := fold_hash (pending cs) |},
            {| log := lg; cum_hash := hash_fun ""; first_line := k; line_count := 0 |})
      /\ calls (Snapshot_init lg 0) (cs ++ [CallUploadPrep])
         = ((upload_prep s).2, (calls (Snapshot_init lg 0) cs).2 ++ [(upload_prep s).1])).
Proof.
  intros Hnr posted s.
  destruct (calls_cover (Snapshot_init lg 0) cs Hnr) as (H1 & H2 & H3); [done|].
  simpl in H1, H2, H3. fold posted in H1, H2. fold s in H1, H3.
  split; [exact H1|]. split; [exact H2|].
  split; [rewrite H1; apply NoDup_seqZ|]. split; [exact H3|].
  intros k p.
  destruct (calls_pending (Snapshot_init lg 0) [] cs) as [Hh Hn]; [reflexivity..|].
  fold (pending cs) in Hh, Hn. fold s in Hh, Hn. fold p in Hn.
  pose proof (calls_log (Snapshot_init lg 0) cs) as Hlog. fold s in Hlog.
  cbn [Snapshot_init log] in Hlog. fold k in H1, H3.
  assert (first_line s = k - p) as Hfirst by (unfold get_next_line in H3; lia).
  assert (snapshot_lines s = seqZ (k - p) p) as Hlines
    by (unfold snapshot_lines; by rewrite Hfirst, Hn).
  assert (0 <= p) as Hp by (unfold p; lia).
  assert (0 <= k) as Hk by (unfold k, count_added; lia).
  assert (0 <= k - p) as Hkp.
  { apply (f_equal length) in H1. rewrite Hlines, length_app, !length_seqZ in H1. lia. }
  split.
  { assert (seqZ 0 (0 + k) = seqZ 0 (k - p) ++ seqZ (k - p) p) as Hsplit.
    { replace (0 + k) with ((k - p) + p) by lia. rewrite seqZ_app by lia.
      by rewrite Z.add_0_l. }
    rewrite Hlines, Hsplit in H1. by apply app_inv_tail in H1. }
  split; [exact Hlines|].
  assert (upload_prep s
          = ({| firstLine := k - p; lastLine := k - 1; logId := log_id lg;
                fingerprint := fold_hash (pending cs) |},
             {| log := lg; cum_hash := hash_fun ""; first_line := k; line_count := 0 |}))
    as Hup.
  { unfold upload_prep, to_dict, reset, get_hash. rewrite H3, Hfirst, Hh, Hlog.
    reflexivity. }
  split; [exact Hup|].
  rewrite calls_snoc. fold s.
  destruct (calls (Snapshot_init lg 0) cs) as [s1 out1] eqn:E.
  cbn [call fst snd]. subst s. cbn [fst].
  destruct (upload_prep s1) as [d s']. reflexivity.
Qed.

(** *** The next line is stable under upload *)

Lemma get_next_line_reset s : get_next_line (reset s) = get_next_line s.
Proof. unfold get_next_line. simpl. unfold get_next_line. lia. Qed.

Lemma get_next_line_upload_prep s :
  get_next_line (upload_prep s).2 = get_next_line s.
Proof. apply get_next_line_reset. Qed.

(** Scenario S1 of the specification: records "x" and "y" on a fresh log. *)
Definition demo_log : Log := {| log_name := "/t/a.log"; log_id := Some "L1" |}.
Definition demo_record (d : string) : LogRecord :=
  {| rec_log := demo_log; data := d; timestamp := 0 |}.

Example fresh_log_upload :
  (upload_prep (add_record_seq (Snapshot_init demo_log 0) [demo_record "x"; demo_record "y"])).1
  = {| firstLine := 0; lastLine := 1; logId := Some "L1";
       fingerprint := "ee3a085cfe6c87422261108c3daf2ce091f8b57aee9e22bf14fc3d64c4b05d65" |}.
Proof. vm_compute. reflexivity. Qed.

Definition demo_calls : list SnapshotCall :=
  [ CallUploadPrep; CallAddRecord (demo_record "x"); CallUploadPrep; CallUploadPrep;
    CallAddRecord (demo_record "y"); CallAddRecord (demo_record "z"); CallUploadPrep;
    CallAddRecord (demo_record "w") ].

Example demo_calls_posted :
  map (fun d => (firstLine d, lastLine d))
      (List.filter postable (calls (Snapshot_init demo_log 0) demo_calls).2)
  = [(0, 0); (1, 2)]
  /\ map (fun d => (firstLine d, lastLine d)) (calls (Snapshot_init demo_log 0) demo_calls).2
    = [(0, -1); (0, 0); (1, 0); (1, 2)]
  /\ snapshot_lines (calls (Snapshot_init demo_log 0) demo_calls).1 = [3].
Proof. vm_compute. done. Qed.

Lemma no_record_loss_witness :
  no_reset demo_calls = true
  /\ (let posted := List.filter postable (calls (Snapshot_init demo_log 0) demo_calls).2 in
      let s := (calls (Snapshot_init demo_log 0) demo_calls).1 in
      concat (map dict_lines posted) ++ snapshot_lines s = seqZ 0 (count_added demo_calls)
      /\ contiguous_from 0 posted
      /\ NoDup (concat (map dict_lines posted) ++ snapshot_lines s)
      /\ get_next_line s = count_added demo_calls
      /\ (let k := count_added demo_calls in
          let p := Z.of_nat (length (pending demo_calls)) in
          concat (map dict_lines posted) = seqZ 0 (k - p)
          /\ snapshot_lines s = seqZ (k - p) p
          /\ upload_prep s
             = ({| firstLine := k - p; lastLine := k - 1; logId := log_id demo_log;
                   fingerprint := fold_hash (pending demo_calls) |},
                {| log := demo_log; cum_hash := hash_fun ""; first_line := k;
                   line_count := 0 |})
          /\ calls (Snapshot_init demo_log 0) (demo_calls ++ [CallUploadPrep])
             = ((upload_prep s).2,
                (calls (Snapshot_init demo_log 0) demo_calls).2 ++ [(upload_prep s).1]))).
Proof.
  split; [reflexivity|]. apply (no_record_loss demo_log demo_calls). reflexivity.
Defined.

End LogModel.

(** ** agent/backend_connector.py and agent/collector.py *)

Module Backend.
Import LogModel.
Local Open Scope Z_scope.

(** The requests the agent sends to the backend, in order.  The backend is
    an external service: every response is taken to be a success, and the
    identifier it mints for a new log is given by [mint]. *)
Inductive BackendCall :=
| PostLog (name : string)
| PostSnapshot (d : SnapshotDict)
| PostLogStatus (id : option string) (isCorrect : bool).

Record BackendState := mkBackend {
  mint : string -> string;
  trace : list BackendCall;
}.

Definition record_call (b : BackendState) (c : BackendCall) : BackendState :=
  {| mint := mint b; trace := trace b ++ [c] |}.

Definition post_log (b : BackendState) (name : string) : Snapshot * BackendState :=
  let ret := {| log_name := name; log_id := Some (mint b name) |} in
  (Snapshot_init ret 0, record_call b (PostLog name)).

Definition post_snapshot (b : BackendState) (snapshot : Snapshot) : Snapshot * BackendState :=
  let '(data, snapshot') := upload_prep snapshot in
  if firstLine data <=? lastLine data
  then (snapshot', record_call b (PostSnapshot data))
  else (snapshot', b).

Definition post_log_status (b : BackendState) (l : Log) (status : bool) : BackendState :=
  record_call b (PostLogStatus (log_id l) status).

(** [ListLogCollector.snapshots]: a dictionary in insertion order. *)
Definition ListLogCollector := list (string * Snapshot).

Fixpoint dict_get {V} (d : list (string * V)) (k : string) : option V :=
  match d with
  | [] => None
  | (k', v) :: d' => if String.eqb k' k then Some v else dict_get d' k
  end.

Fixpoint dict_set {V} (d : list (string * V)) (k : string) (v : V) : list (string * V) :=
  match d with
  | [] => [(k, v)]
  | (k', v') :: d' => if String.eqb k' k then (k', v) :: d' else (k', v') :: dict_set d' k v
  end.

Definition collect_record (c : ListLogCollector) (b : BackendState) (record : LogRecord)
  : ListLogCollector * BackendState :=
  let name := log_name (rec_log record) in
  match dict_get c name with
  | None =>
      let '(snapshot, b') := post_log b name in
      (dict_set c name (add_record snapshot record), b')
  | Some snapshot => (dict_set c name (add_record snapshot record), b)
  end.

Fixpoint upload_records (c : ListLogCollector) (b : BackendState)
  : ListLogCollector * BackendState :=
  match c with
  | [] => ([], b)
  | (name, snapshot) :: c' =>
      let '(snapshot', b1) := post_snapshot b snapshot in
      let '(c'', b2) := upload_records c' b1 in
      ((name, snapshot') :: c'', b2)
  end.

Definition get_logs (c : ListLogCollector) : list Log := map (fun kv => log kv.2) c.

Definition log_size (c : ListLogCollector) : Z :=
  fold_left (fun ret kv => ret + line_count kv.2) c 0.

Definition get_log_position (c : ListLogCollector) (l : Log) : Z :=
  match dict_get c (log_name l) with
  | None => 0
  | Some snapshot => get_next_line snapshot
  end.

(** What reaches the backend is the dictionary of [upload_prep], when it
    passes the guard. *)
Lemma post_snapshot_posts_postable b s :
  post_snapshot b s
  = ((upload_prep s).2,
     if postable (upload_prep s).1 then record_call b (PostSnapshot (upload_prep s).1)
     else b).
Proof. unfold post_snapshot, postable. simpl. by case_match. Qed.

Lemma post_snapshot_next_line b s :
  get_next_line (post_snapshot b s).1 = get_next_line s.
Proof.
  unfold post_snapshot. simpl. case_match; simpl; apply get_next_line_reset.
Qed.

Lemma upload_records_position c b l :
  get_log_position (upload_records c b).1 l = get_log_position c l.
Proof.
  unfold get_log_position. revert b.
  induction c as [|[name s] c IH]; intros b; [done|]. simpl.
  destruct (post_snapshot b s) as [s' b1] eqn:E1.
  destruct (upload_records c b1) as [c'' b2] eqn:E2. simpl.
  destruct (String.eqb name (log_name l)).
  - pose proof (post_snapshot_next_line b s) as H. by rewrite E1 in H.
  - specialize (IH b1). by rewrite E2 in IH.
Qed.

(** C10. An upload never changes the position reported to proxies:
    [get_next_line] returns the same value before and after [upload_prep]
    and [reset], which rebase [first_line] to the old next line with
    [line_count = 0]; hence [get_log_position] of the collector is the same
    for every log before and after [upload_records]. *)
Theorem next_line_stable_under_upload (s : Snapshot) (c : ListLogCollector)
    (b : BackendState) (l : Log) :
  get_next_line (upload_prep s).2 = get_next_line s
  /\ get_next_line (reset s) = get_next_line s
  /\ first_line (reset s) = get_next_line s
  /\ line_count (reset s) = 0
  /\ (upload_prep s).2 = reset s
  /\ get_next_line (post_snapshot b s).1 = get_next_line s
  /\ get_log_position (upload_records c b).1 l = get_log_position c l.
Proof.
  split_and!; try done.
  - apply get_next_line_upload_prep.
  - apply get_next_line_reset.
  - apply post_snapshot_next_line.
  - apply upload_records_position.
Qed.

End Backend.

(** ** networking.py: framing and the six message kinds *)

Module Networking.
Import LogModel.
Local Open Scope Z_scope.

Definition bytes := list Byte.byte.

Definition len {A} (l : list A) : Z := Z.of_nat (length l).

Definition byte_of_Z (z : Z) : Byte.byte :=
  match Byte.of_N (Z.to_N z) with
  | Some b => b
  | None => Byte.x00
  end.

Definition Z_of_byte (b : Byte.byte) : Z := Z.of_N (Byte.to_N b).

(** Big-endian digits of [x] in base 256, [n] of them. *)
Fixpoint be_digits (n : nat) (x : Z) : bytes :=
  match n with
  | O => []
  | S n' => be_digits n' (x / 256) ++ [byte_of_Z (x mod 256)]
  end.

(** [int.to_bytes(x, n, byteorder='big', signed=False)] *)
Definition int_to_bytes (x : Z) (n : nat) : result bytes :=
  if (0 <=? x) && (x <? 256 ^ Z.of_nat n) then Ok (be_digits n x) else Raise OverflowError.

(** [int.from_bytes(bs, byteorder='big', signed=False)] *)
Definition int_from_bytes (bs : bytes) : Z :=
  fold_left (fun acc b => acc * 256 + Z_of_byte b) bs 0.

(** *** The payload schema

    Modelled from the spec: the generated module protobuf/agentcom_pb2 is not
    among the sources.  Its messages carry exactly the fields of the table
    in section 4.2; how they are laid out in bytes is left to a codec. *)
Record PbLog := mkPbLog { pb_name : string }.
Record PbRecord := mkPbRecord {
  pbr_log : PbLog; pbr_timestamp : Z; pbr_message : string }.
Record PbLogPosition := mkPbLogPosition {
  pbp_log : PbLog; pbp_position : Z }.
Record PbLogContentRequest := mkPbLogContentRequest {
  pbq_log : PbLog; pbq_request_id : Z; pbq_begin_record : Z; pbq_end_record : Z }.
Record PbLogContentResponse := mkPbLogContentResponse {
  pbs_request_id : Z; pbs_status : Z }.
Record PbLogContentData := mkPbLogContentData {
  pbd_request_id : Z; pbd_begin_record : Z; pbd_end_record : Z; pbd_contents : list string }.

Inductive schema :=
| SLog | SRecord | SLogPosition | SLogContentRequest | SLogContentResponse | SLogContentData.

Definition pb (s : schema) : Type :=
  match s with
  | SLog => PbLog
  | SRecord => PbRecord
  | SLogPosition => PbLogPosition
  | SLogContentRequest => PbLogContentRequest
  | SLogContentResponse => PbLogContentResponse
  | SLogContentData => PbLogContentData
  end.

(** Modelled from the spec: the external schema library, as a pair of
    functions; [ParseFromString] returns [None] where the library raises
    its decode error. *)
Record PbCodec := mkCodec {
  SerializeToString : forall s, pb s -> bytes;
  ParseFromString : forall s, bytes -> option (pb s);
}.

(** *** Messages *)

Inductive ContentStatus := FOUND_AND_BEGIN_SEND | END_SEND | CS_NOT_FOUND.

Definition ContentStatus_value (s : ContentStatus) : Z :=
  match s with
  | FOUND_AND_BEGIN_SEND => 0
  | END_SEND => 1
  | CS_NOT_FOUND => -1
  end.

(** [LogContentStatusNetworkMessage.Status(v)] *)
Definition ContentStatus_of_value (v : Z) : result ContentStatus :=
  if v =? 0 then Ok FOUND_AND_BEGIN_SEND
  else if v =? 1 then Ok END_SEND
  else if v =? -1 then Ok CS_NOT_FOUND
  else Raise (ValueError "is not a valid Status").

Inductive NetworkMessage :=
| AddRecordNetworkMessage (record : LogRecord)
| GetLogPositionNetworkMessage (log : Log)
| LogPositionResponseNetworkMessage (log : Log) (position : Z)
| GetLogContentNetworkMessage (log : Log) (request_id begin_record end_record : Z)
| LogContentStatusNetworkMessage (request_id : Z) (status : ContentStatus)
| LogContentDataNetworkMessage (request_id begin_record end_record : Z)
                               (contents : list string).

(** [LogContentDataNetworkMessage.__init__] *)
Definition LogContentDataNetworkMessage_init (request_id begin_record end_record : Z)
    (contents : list string) : result NetworkMessage :=
  if end_record <? begin_record
  then Raise (ValueError "begin_record cannot be greater than end_record")
  else Ok (LogContentDataNetworkMessage request_id begin_record end_record contents).

(** [NetworkMessageType] *)
Definition ADD_RECORD : Z := 1.
Definition GET_LOG_POSITION : Z := 2.
Definition LOG_POSITION_RESPONSE : Z := 3.
Definition GET_LOG_CONTENT : Z := 4.
Definition LOG_CONTENT_STATUS : Z := 5.
Definition LOG_CONTENT_DATA : Z := 6.

Definition get_type (m : NetworkMessage) : Z :=
  match m with
  | AddRecordNetworkMessage _ => ADD_RECORD
  | GetLogPositionNetworkMessage _ => GET_LOG_POSITION
  | LogPositionResponseNetworkMessage _ _ => LOG_POSITION_RESPONSE
  | GetLogContentNetworkMessage _ _ _ _ => GET_LOG_CONTENT
  | LogContentStatusNetworkMessage _ _ => LOG_CONTENT_STATUS
  | LogContentDataNetworkMessage _ _ _ _ => LOG_CONTENT_DATA
  end.

Definition schema_of (m : NetworkMessage) : schema :=
  match m with
  | AddRecordNetworkMessage _ => SRecord
  | GetLogPositionNetworkMessage _ => SLog
  | LogPositionResponseNetworkMessage _ _ => SLogPosition
  | GetLogContentNetworkMessage _ _ _ _ => SLogContentRequest
  | LogContentStatusNetworkMessage _ _ => SLogContentResponse
  | LogContentDataNetworkMessage _ _ _ _ => SLogContentData
  end.

(** The schema value each [get_contents] builds before serialising it. *)
Definition payload (m : NetworkMessage) : pb (schema_of m) :=
  match m with
  | AddRecordNetworkMessage record =>
      {| pbr_log := {| pb_name := log_name (rec_log record) |};
         pbr_timestamp := timestamp record;
         pbr_message := data record |}
  | GetLogPositionNetworkMessage log => {| pb_name := log_name log |}
  | LogPositionResponseNetworkMessage log position =>
      {| pbp_log := {| pb_name := log_name log |}; pbp_position := position |}
  | GetLogContentNetworkMessage log request_id begin_record end_record =>
      {| pbq_log := {| pb_name := log_name log |}; pbq_request_id := request_id;
         pbq_begin_record := begin_record; pbq_end_record := end_record |}
  | LogContentStatusNetworkMessage request_id status =>
      {| pbs_request_id := request_id; pbs_status := ContentStatus_value status |}
  | LogContentDataNetworkMessage request_id begin_record end_record contents =>
      {| pbd_request_id := request_id; pbd_begin_record := begin_record;
         pbd_end_record := end_record; pbd_contents := contents |}
  end.

Section Framing.
Context (codec : PbCodec).

Definition get_contents (m : NetworkMessage) : bytes :=
  SerializeToString codec (schema_of m) (payload m).

(** [NetworkMessage.serialize], on the type code and the contents. *)
Definition serialize_frame (type : Z) (contents : bytes) : result bytes :=
  let length := len contents in
  if (type <? 0) || (255 <? type) then Raise (ValueError "type is out of range")
  else
    b0 ← int_to_bytes type 1;
    b1 ← int_to_bytes length 4;
    Ok (b0 ++ b1 ++ contents).

Definition serialize (m : NetworkMessage) : result bytes :=
  serialize_frame (get_type m) (get_contents m).

Record NetworkMessageMeta := mkMeta { meta_type : Z; meta_length : Z }.

Definition NetworkMessageMeta_init (message_header : bytes) : NetworkMessageMeta :=
  {| meta_type := int_from_bytes (take 1 message_header);
     meta_length := int_from_bytes (take 4 (drop 1 message_header)) |}.

Record RawNetworkMessage := mkRaw { raw_meta : NetworkMessageMeta; raw_contents : bytes }.

Definition RawNetworkMessage_init (meta : NetworkMessageMeta) (contents : bytes)
  : result RawNetworkMessage :=
  if len contents <? meta_length meta then Raise (ValueError "invalid contents length")
  else Ok {| raw_meta := meta; raw_contents := contents |}.

Definition raw_get_type (message : RawNetworkMessage) : Z := meta_type (raw_meta message).

Definition raw_get_contents (message : RawNetworkMessage) : bytes :=
  take (Z.to_nat (meta_length (raw_meta message))) (raw_contents message).

(** [DeserializationHelper] *)
Definition parse_log (raw : PbLog) : Log := {| log_name := pb_name raw; log_id := None |}.

Definition parse_record (raw : PbRecord) : LogRecord :=
  {| rec_log := parse_log (pbr_log raw); data := pbr_message raw;
     timestamp := pbr_timestamp raw |}.

(** The common beginning of every [from_raw]: the type check, then
    [ParseFromString] on the contents. *)
Definition parse_as (type : Z) (s : schema) (message : RawNetworkMessage) : result (pb s) :=
  if negb (raw_get_type message =? type) then Raise (ValueError "invalid message type")
  else match ParseFromString codec s (raw_get_contents message) with
       | Some v => Ok v
       | None => Raise DecodeError
       end.

Definition AddRecord_from_raw (message : RawNetworkMessage) : result NetworkMessage :=
  srecord ← parse_as ADD_RECORD SRecord message;
  Ok (AddRecordNetworkMessage (parse_record srecord)).

Definition GetLogPosition_from_raw (message : RawNetworkMessage) : result NetworkMessage :=
  slog ← parse_as GET_LOG_POSITION SLog message;
  Ok (GetLogPositionNetworkMessage (parse_log slog)).

Definition LogPositionResponse_from_raw (message : RawNetworkMessage) : result NetworkMessage :=
  slogPosition ← parse_as LOG_POSITION_RESPONSE SLogPosition message;
  Ok (LogPositionResponseNetworkMessage (parse_log (pbp_log slogPosition))
        (pbp_position slogPosition)).

Definition GetLogContent_from_raw (message : RawNetworkMessage) : result NetworkMessage :=
  srequest ← parse_as GET_LOG_CONTENT SLogContentRequest message;
  Ok (GetLogContentNetworkMessage (parse_log (pbq_log srequest)) (pbq_request_id srequest)
        (pbq_begin_record srequest) (pbq_end_record srequest)).

Definition LogContentStatus_from_raw (message : RawNetworkMessage) : result NetworkMessage :=
  sresponse ← parse_as LOG_CONTENT_STATUS SLogContentResponse message;
  status ← ContentStatus_of_value (pbs_status sresponse);
  Ok (LogContentStatusNetworkMessage (pbs_request_id sresponse) status).

Definition LogContentData_from_raw (message : RawNetworkMessage) : result NetworkMessage :=
  sdata ← parse_as LOG_CONTENT_DATA SLogContentData message;
  if (pbd_end_record sdata <? pbd_begin_record sdata)
     || negb (pbd_end_record sdata - pbd_begin_record sdata + 1 =? len (pbd_contents sdata))
  then Raise (ValueError "invalid begin/end record indices")
  else LogContentDataNetworkMessage_init (pbd_request_id sdata) (pbd_begin_record sdata)
         (pbd_end_record sdata) (pbd_contents sdata).

(** The [from_raw] of the kind with the given type code. *)
Definition from_raw (type : Z) (message : RawNetworkMessage) : result NetworkMessage :=
  if type =? ADD_RECORD then AddRecord_from_raw message
  else if type =? GET_LOG_POSITION then GetLogPosition_from_raw message
  else if type =? LOG_POSITION_RESPONSE then LogPositionResponse_from_raw message
  else if type =? GET_LOG_CONTENT then GetLogContent_from_raw message
  else if type =? LOG_CONTENT_STATUS then LogContentStatus_from_raw message
  else if type =? LOG_CONTENT_DATA then LogContentData_from_raw message
  else Raise (ValueError "incorrect message type").

(** Reading one frame as [NetworkConnection.receive] does: the five header
    bytes give the meta, the rest is the buffer of the raw message. *)
Definition read_frame (frame : bytes) : result RawNetworkMessage :=
  RawNetworkMessage_init (NetworkMessageMeta_init (take 5 frame)) (drop 5 frame).

Definition decode (kind : Z) (frame : bytes) : result NetworkMessage :=
  message ← read_frame frame;
  from_raw kind message.

End Framing.

(** What a message keeps of its logs on the wire: the name, not the
    backend identifier. *)
Definition without_log_id (l : Log) : Log := {| log_name := log_name l; log_id := None |}.

Definition on_wire (m : NetworkMessage) : NetworkMessage :=
  match m with
  | AddRecordNetworkMessage record =>
      AddRecordNetworkMessage
        {| rec_log := without_log_id (rec_log record); data := data record;
           timestamp := timestamp record |}
  | GetLogPositionNetworkMessage log => GetLogPositionNetworkMessage (without_log_id log)
  | LogPositionResponseNetworkMessage log position =>
      LogPositionResponseNetworkMessage (without_log_id log) position
  | GetLogContentNetworkMessage log request_id begin_record end_record =>
      GetLogContentNetworkMessage (without_log_id log) request_id begin_record end_record
  | _ => m
  end.

(** The check of [LogContentData.from_raw] on the fields of a message. *)
Definition counts_match (m : NetworkMessage) : Prop :=
  match m with
  | LogContentDataNetworkMessage _ begin_record end_record contents =>
      begin_record <= end_record /\ end_record - begin_record + 1 = len contents
  | _ => True%type
  end.

(** The property of the specification: a frame is produced and decodes to
    the very same message. *)
Definition round_trips (codec : PbCodec) (m : NetworkMessage) : Prop :=
  exists frame, serialize codec m = Ok frame /\ decode codec (get_type m) frame = Ok m.

(** *** Integers as big-endian bytes *)

Lemma Z_of_byte_of_Z z : 0 <= z < 256 -> Z_of_byte (byte_of_Z z) = z.
Proof.
  intros Hz. unfold Z_of_byte, byte_of_Z.
  destruct (Byte.of_N (Z.to_N z)) as [b|] eqn:E.
  - apply Byte.to_of_N in E. rewrite E. lia.
  - apply Byte.of_N_None_iff in E. lia.
Qed.

Lemma int_from_bytes_snoc bs b :
  int_from_bytes (bs ++ [b]) = int_from_bytes bs * 256 + Z_of_byte b.
Proof. unfold int_from_bytes. by rewrite fold_left_app. Qed.

Lemma length_be_digits n x : length (be_digits n x) = n.
Proof.
  revert x. induction n as [|n IH]; intros x; [done|].
  simpl. rewrite length_app, IH. simpl. lia.
Qed.

Lemma int_from_bytes_be_digits n x :
  0 <= x -> int_from_bytes (be_digits n x) = x mod 256 ^ Z.of_nat n.
Proof.
  revert x. induction n as [|n IH]; intros x Hx.
  - simpl. by rewrite Z.mod_1_r.
  - cbn [be_digits]. rewrite int_from_bytes_snoc, IH by (apply Z.div_pos; lia).
    rewrite Z_of_byte_of_Z by (apply Z.mod_pos_bound; lia).
    rewrite Nat2Z.inj_succ, Z.pow_succ_r by lia.
    rewrite (Z.rem_mul_r x 256 (256 ^ Z.of_nat n)) by lia. lia.
Qed.

Lemma int_from_to_bytes n x bs :
  int_to_bytes x n = Ok bs -> int_from_bytes bs = x /\ length bs = n.
Proof.
  unfold int_to_bytes. intros H.
  destruct (Z.leb_spec 0 x); [|done].
  destruct (Z.ltb_spec x (256 ^ Z.of_nat n)); [|done].
  simpl in H. injection H as <-. split; [|apply length_be_digits].
  rewrite int_from_bytes_be_digits by done. apply Z.mod_small. lia.
Qed.

(** *** Frames *)

Section FramingFacts.
Context (codec : PbCodec).

Lemma serialize_frame_ok type contents :
  0 <= type <= 255 -> len contents < 2 ^ 32 ->
  serialize_frame type contents
  = Ok (be_digits 1 type ++ be_digits 4 (len contents) ++ contents).
Proof.
  intros Ht Hl. unfold serialize_frame, int_to_bytes.
  destruct (Z.ltb_spec type 0); [lia|]. destruct (Z.ltb_spec 255 type); [lia|].
  simpl orb. cbv iota.
  destruct (Z.leb_spec 0 type); [|lia].
  destruct (Z.ltb_spec type (256 ^ Z.of_nat 1)); [|simpl in *; lia].
  simpl andb. cbv iota. cbn [mbind result_bind].
  destruct (Z.leb_spec 0 (len contents)); [|unfold len in *; lia].
  destruct (Z.ltb_spec (len contents) (256 ^ Z.of_nat 4)); [|simpl in *; lia].
  done.
Qed.

Lemma meta_of_serialized type contents :
  0 <= type <= 255 -> len contents < 2 ^ 32 ->
  NetworkMessageMeta_init
    (take 5 (be_digits 1 type ++ be_digits 4 (len contents) ++ contents))
  = {| meta_type := type; meta_length := len contents |}.
Proof.
  intros Ht Hl.
  assert (0 <= len contents) as Hl0 by (unfold len; lia).
  set (h1 := be_digits 1 type). set (h4 := be_digits 4 (len contents)).
  assert (length h1 = 1%nat) as L1 by apply length_be_digits.
  assert (length h4 = 4%nat) as L4 by apply length_be_digits.
  assert (take 5 (h1 ++ h4 ++ contents) = h1 ++ h4) as ->.
  { rewrite app_assoc. rewrite take_app_length'; [done|]. rewrite length_app. lia. }
  unfold NetworkMessageMeta_init.
  rewrite take_app_length' by done.
  rewrite drop_app_length' by done.
  rewrite (take_ge h4) by lia.
  unfold h1, h4. rewrite !int_from_bytes_be_digits by lia.
  by rewrite !Z.mod_small by (simpl; lia).
Qed.

Lemma read_frame_serialized type contents :
  0 <= type <= 255 -> len contents < 2 ^ 32 ->
  read_frame (be_digits 1 type ++ be_digits 4 (len contents) ++ contents)
  = Ok {| raw_meta := {| meta_type := type; meta_length := len contents |};
          raw_contents := contents |}.
Proof.
  intros Ht Hl. unfold read_frame. rewrite meta_of_serialized by done.
  assert (drop 5 (be_digits 1 type ++ be_digits 4 (len contents) ++ contents)
          = contents) as ->.
  { rewrite app_assoc. rewrite drop_app_length'; [done|].
    rewrite length_app, !length_be_digits. lia. }
  unfold RawNetworkMessage_init. simpl.
  destruct (Z.ltb_spec (len contents) (len contents)); [lia|done].
Qed.

Lemma raw_get_contents_exact type contents :
  raw_get_contents {| raw_meta := {| meta_type := type; meta_length := len contents |};
                      raw_contents := contents |} = contents.
Proof.
  unfold raw_get_contents, len. simpl. rewrite Nat2Z.id. by apply take_ge.
Qed.

Lemma get_type_range m : 1 <= get_type m <= 6.
Proof. destruct m; simpl; unfold ADD_RECORD, GET_LOG_POSITION, LOG_POSITION_RESPONSE,
  GET_LOG_CONTENT, LOG_CONTENT_STATUS, LOG_CONTENT_DATA; lia. Qed.

Lemma ContentStatus_of_value_value s :
  ContentStatus_of_value (ContentStatus_value s) = Ok s.
Proof. by destruct s. Qed.

Lemma from_raw_payload m :
  counts_match m ->
  ParseFromString codec (schema_of m) (get_contents codec m) = Some (payload m) ->
  from_raw codec (get_type m)
    {| raw_meta := {| meta_type := get_type m; meta_length := len (get_contents codec m) |};
       raw_contents := get_contents codec m |}
  = Ok (on_wire m).
Proof.
  intros Hc Hp.
  destruct m; simpl in *;
    unfold from_raw, AddRecord_from_raw, GetLogPosition_from_raw,
      LogPositionResponse_from_raw, GetLogContent_from_raw, LogContentStatus_from_raw,
      LogContentData_from_raw, parse_as, raw_get_type;
    rewrite raw_get_contents_exact; simpl; rewrite Hp; simpl; try done.
  - by rewrite ContentStatus_of_value_value.
  - destruct Hc as [Hle Hn].
    destruct (Z.ltb_spec end_record begin_record); [lia|].
    destruct (Z.eqb_spec (end_record - begin_record + 1) (len contents)); [|lia].
    simpl. unfold LogContentDataNetworkMessage_init.
    destruct (Z.ltb_spec end_record begin_record); [lia|done].
Qed.

End FramingFacts.

(** *** A reference codec

    A fixed-width layout used to run the model on concrete messages: every
    integer is eight bytes (two's complement), a string is its length and
    its bytes, a list its length and its elements.  It stands for the
    schema library only in examples. *)
Module RefCodec.

Definition put_int (z : Z) : bytes := be_digits 8 (z mod 2 ^ 64).

Definition put_str (s : string) : bytes :=
  let bs := list_byte_of_string s in put_int (len bs) ++ bs.

Definition put_strs (l : list string) : bytes :=
  put_int (len l) ++ concat (map put_str l).

Definition parser (A : Type) : Type := bytes -> option (A * bytes).

Definition get_int : parser Z := fun bs =>
  if (length bs <? 8)%nat then None
  else
    let u := int_from_bytes (take 8 bs) in
    Some (if u <? 2 ^ 63 then u else u - 2 ^ 64, drop 8 bs).

Definition get_str : parser string := fun bs =>
  '(n, bs1) ← get_int bs;
  if (n <? 0) || (len bs1 <? n) then None
  else Some (string_of_list_byte (take (Z.to_nat n) bs1), drop (Z.to_nat n) bs1).

Fixpoint get_many {A} (p : parser A) (n : nat) : parser (list A) := fun bs =>
  match n with
  | O => Some ([], bs)
  | S n' =>
      '(x, bs1) ← p bs;
      '(xs, bs2) ← get_many p n' bs1;
      Some (x :: xs, bs2)
  end.

Definition get_strs : parser (list string) := fun bs =>
  '(n, bs1) ← get_int bs;
  if n <? 0 then None else get_many get_str (Z.to_nat n) bs1.

(** A parse succeeds when it uses up the contents. *)
Definition whole {A} (r : option (A * bytes)) : option A :=
  match r with
  | Some (a, []) => Some a
  | _ => None
  end.

Definition put_log (l : PbLog) : bytes := put_str (pb_name l).
Definition get_log : parser PbLog := fun bs =>
  '(n, bs1) ← get_str bs; Some ({| pb_name := n |}, bs1).

Definition put (s : schema) : pb s -> bytes :=
  match s with
  | SLog => put_log
  | SRecord => fun r => put_log (pbr_log r) ++ put_int (pbr_timestamp r) ++ put_str (pbr_message r)
  | SLogPosition => fun p => put_log (pbp_log p) ++ put_int (pbp_position p)
  | SLogContentRequest => fun q =>
      put_log (pbq_log q) ++ put_int (pbq_request_id q) ++ put_int (pbq_begin_record q)
      ++ put_int (pbq_end_record q)
  | SLogContentResponse => fun r => put_int (pbs_request_id r) ++ put_int (pbs_status r)
  | SLogContentData => fun d =>
      put_int (pbd_request_id d) ++ put_int (pbd_begin_record d) ++ put_int (pbd_end_record d)
      ++ put_strs (pbd_contents d)
  end.

Definition get (s : schema) : bytes -> option (pb s) :=
  match s with
  | SLog => fun bs => whole (get_log bs)
  | SRecord => fun bs => whole (
      '(l, bs1) ← get_log bs; '(t, bs2) ← get_int bs1; '(m, bs3) ← get_str bs2;
      Some ({| pbr_log := l; pbr_timestamp := t; pbr_message := m |}, bs3))
  | SLogPosition => fun bs => whole (
      '(l, bs1) ← get_log bs; '(p, bs2) ← get_int bs1;
      Some ({| pbp_log := l; pbp_position := p |}, bs2))
  | SLogContentRequest => fun bs => whole (
      '(l, bs1) ← get_log bs; '(i, bs2) ← get_int bs1; '(b, bs3) ← get_int bs2;
      '(e, bs4) ← get_int bs3;
      Some ({| pbq_log := l; pbq_request_id := i; pbq_begin_record := b;
               pbq_end_record := e |}, bs4))
  | SLogContentResponse => fun bs => whole (
      '(i, bs1) ← get_int bs; '(st, bs2) ← get_int bs1;
      Some ({| pbs_request_id := i; pbs_status := st |}, bs2))
  | SLogContentData => fun bs => whole (
      '(i, bs1) ← get_int bs; '(b, bs2) ← get_int bs1; '(e, bs3) ← get_int bs2;
      '(c, bs4) ← get_strs bs3;
      Some ({| pbd_request_id := i; pbd_begin_record := b; pbd_end_record := e;
               pbd_contents := c |}, bs4))
  end.

Definition codec : PbCodec := {| SerializeToString := put; ParseFromString := get |}.

End RefCodec.

(** *** Round trip *)

Definition frame_of (codec : PbCodec) (m : NetworkMessage) : bytes :=
  match serialize codec m with
  | Ok frame => frame
  | Raise _ => []
  end.

Definition demo_log_with_id : Log := {| log_name := "/t/a.log"; log_id := Some "L1" |}.
Definition demo_log_on_proxy : Log := {| log_name := "/t/a.log"; log_id := None |}.

Definition demo_get_content : NetworkMessage :=
  GetLogContentNetworkMessage demo_log_with_id 7 0 4.

Definition demo_data : NetworkMessage :=
  LogContentDataNetworkMessage 7 3 4 ["x"; "y"].

Definition demo_data_short : NetworkMessage :=
  LogContentDataNetworkMessage 7 0 5 ["x"].

Example demo_data_frame :
  serialize RefCodec.codec (LogContentStatusNetworkMessage 7 CS_NOT_FOUND)
  = Ok (map byte_of_Z [5; 0; 0; 0; 16;
                       0; 0; 0; 0; 0; 0; 0; 7;
                       255; 255; 255; 255; 255; 255; 255; 255]).
Proof. vm_compute. reflexivity. Qed.

Example demo_every_kind_round_trips :
  Forall (round_trips RefCodec.codec)
    [ AddRecordNetworkMessage {| rec_log := demo_log_on_proxy; data := "x"; timestamp := 17 |};
      GetLogPositionNetworkMessage demo_log_on_proxy;
      LogPositionResponseNetworkMessage demo_log_on_proxy 5;
      GetLogContentNetworkMessage demo_log_on_proxy 7 0 4;
      LogContentStatusNetworkMessage 7 CS_NOT_FOUND;
      demo_data ].
Proof.
  repeat constructor;
    match goal with
    | |- round_trips ?c ?m => exists (frame_of c m); split; vm_compute; reflexivity
    end.
Qed.

(** C7, as amended. For every message of the six kinds whose contents are
    shorter than 2^32 bytes and are read back by the schema library as the
    value that was written (and, for LogContentData, whose record count is
    end_record - begin_record + 1), [serialize] yields the frame
    [1 byte type][4 bytes big-endian length][contents], its header is read
    back as that type and length, and the frame decodes through
    [NetworkMessageMeta] and the kind's [from_raw] to the message with the
    same fields, except that the logs it names carry no backend identifier
    ([log_id] is not sent). *)
Theorem framing_round_trip (codec : PbCodec) (m : NetworkMessage) :
  len (get_contents codec m) < 2 ^ 32 ->
  counts_match m ->
  ParseFromString codec (schema_of m) (get_contents codec m) = Some (payload m) ->
  exists frame,
    serialize codec m = Ok frame
    /\ frame = [byte_of_Z (get_type m)] ++ be_digits 4 (len (get_contents codec m))
               ++ get_contents codec m
    /\ NetworkMessageMeta_init (take 5 frame)
       = {| meta_type := get_type m; meta_length := len (get_contents codec m) |}
    /\ decode codec (get_type m) frame = Ok (on_wire m).
Proof.
  intros Hlen Hc Hp.
  pose proof (get_type_range m) as Ht.
  exists (be_digits 1 (get_type m) ++ be_digits 4 (len (get_contents codec m))
          ++ get_contents codec m).
  assert (read_frame (be_digits 1 (get_type m)
            ++ be_digits 4 (len (get_contents codec m)) ++ get_contents codec m)
          = Ok {| raw_meta := {| meta_type := get_type m;
                                 meta_length := len (get_contents codec m) |};
                  raw_contents := get_contents codec m |}) as Hread
    by (apply read_frame_serialized; lia).
  split_and!.
  - unfold serialize. apply serialize_frame_ok; lia.
  - simpl. f_equal. f_equal. apply Z.mod_small. lia.
  - apply meta_of_serialized; lia.
  - unfold decode. rewrite Hread. cbn [mbind result_bind].
    by apply from_raw_payload.
Qed.

Lemma framing_round_trip_witness :
  exists frame,
    serialize RefCodec.codec demo_data = Ok frame
    /\ frame = [byte_of_Z (get_type demo_data)]
               ++ be_digits 4 (len (get_contents RefCodec.codec demo_data))
               ++ get_contents RefCodec.codec demo_data
    /\ NetworkMessageMeta_init (take 5 frame)
       = {| meta_type := get_type demo_data;
            meta_length := len (get_contents RefCodec.codec demo_data) |}
    /\ decode RefCodec.codec (get_type demo_data) frame = Ok (on_wire demo_data).
Proof.
  apply (framing_round_trip RefCodec.codec demo_data).
  - vm_compute. reflexivity.
  - vm_compute. split; [discriminate|reflexivity].
  - vm_compute. reflexivity.
Defined.

(** Contents of 2^32 bytes or more do not fit the length field. *)
Lemma serialize_frame_overflow type contents :
  0 <= type <= 255 -> 2 ^ 32 <= len contents ->
  serialize_frame type contents = Raise OverflowError.
Proof.
  intros Ht Hl. unfold serialize_frame, int_to_bytes.
  destruct (Z.ltb_spec type 0); [lia|]. destruct (Z.ltb_spec 255 type); [lia|].
  simpl orb. cbv iota.
  destruct (Z.leb_spec 0 type); [|lia].
  destruct (Z.ltb_spec type (256 ^ Z.of_nat 1)); [|simpl in *; lia].
  simpl andb. cbv iota. cbn [mbind result_bind].
  destruct (Z.leb_spec 0 (len contents)); [|done].
  destruct (Z.ltb_spec (len contents) (256 ^ Z.of_nat 4)); [simpl in *; lia|done].
Qed.

(** A LogContentData message whose record count is not
    end_record - begin_record + 1 can be built and framed, but [from_raw]
    rejects its frame. *)
Lemma framing_round_trip_rejects_count :
  LogContentDataNetworkMessage_init 7 0 5 ["x"] = Ok demo_data_short
  /\ exists frame, serialize RefCodec.codec demo_data_short = Ok frame
     /\ decode RefCodec.codec LOG_CONTENT_DATA frame
        = Raise (ValueError "invalid begin/end record indices").
Proof.
  split; [reflexivity|].
  exists (frame_of RefCodec.codec demo_data_short). split; vm_compute; reflexivity.
Qed.

(** The claim as stated fails: a GetLogContent message built by the agent
    names a log with its backend identifier, which the frame does not
    carry; and a LogContentData message with a record count other than
    end_record - begin_record + 1 is rejected when decoded. *)
Lemma framing_round_trip_drops_log_id :
  ~ round_trips RefCodec.codec demo_get_content
  /\ ~ round_trips RefCodec.codec demo_data_short.
Proof.
  split.
  - intros (frame & Hs & Hd).
    assert (frame = frame_of RefCodec.codec demo_get_content) as ->.
    { unfold frame_of. by rewrite Hs. }
    vm_compute in Hd. discriminate Hd.
  - intros (frame & Hs & Hd).
    assert (frame = frame_of RefCodec.codec demo_data_short) as ->.
    { unfold frame_of. by rewrite Hs. }
    vm_compute in Hd. discriminate Hd.
Qed.

End Networking.

(** ** agent/proxyconnection.py: content requests and their handler *)

Module ContentRequests.
Import LogModel Networking.
Local Open Scope Z_scope.

(** [ContentRequest.Status] *)
Inductive Status := PENDING | RECEIVING | CLOSED | NOT_FOUND | DROPPED.

#[global] Instance Status_eq_dec : EqDecision Status.
Proof. solve_decision. Defined.

Definition is_live (s : Status) : bool :=
  match s with PENDING | RECEIVING => true | _ => false end.

Definition is_terminal (s : Status) : bool := negb (is_live s).

Record ContentRequest := mkRequest {
  request_id : Z;
  req_log : Log;
  begin_record : Z;
  next_record_ind : Z;
  end_record : Z;
  status : Status;
  content : list string;        (* the queue of received records, oldest first *)
}.

Definition ContentRequest_init (request_id : Z) (log : Log) (begin_record end_record : Z)
  : ContentRequest :=
  {| request_id := request_id; req_log := log; begin_record := begin_record;
     next_record_ind := begin_record; end_record := end_record;
     status := PENDING; content := [] |}.

Definition get_id (r : ContentRequest) : Z := request_id r.
Definition get_status (r : ContentRequest) : Status := status r.
Definition get_next_record_index (r : ContentRequest) : Z := next_record_ind r.

Definition got_all_requested_records (r : ContentRequest) : bool :=
  next_record_ind r =? end_record r + 1.

Definition is_finished (r : ContentRequest) : bool :=
  got_all_requested_records r && bool_decide (content r = []).

Definition pop_record (r : ContentRequest) : option string * ContentRequest :=
  match content r with
  | [] => (None, r)
  | x :: q =>
      (Some x,
       {| request_id := request_id r; req_log := req_log r; begin_record := begin_record r;
          next_record_ind := next_record_ind r; end_record := end_record r;
          status := status r; content := q |})
  end.

(** [ContentRequest.add_record] *)
Definition req_add_record (r : ContentRequest) (record : string) : ContentRequest :=
  {| request_id := request_id r; req_log := req_log r; begin_record := begin_record r;
     next_record_ind := next_record_ind r + 1; end_record := end_record r;
     status := status r; content := content r ++ [record] |}.

(** [ContentRequest.set_status] *)
Definition req_set_status (status : Status) (r : ContentRequest) : ContentRequest :=
  {| request_id := request_id r; req_log := req_log r; begin_record := begin_record r;
     next_record_ind := next_record_ind r; end_record := end_record r;
     status := status; content := content r |}.

(** [ContentRequestHandler].  The request objects a handler has created
    live in its [store], in order of creation; a reference to a request is
    its index there.  [requests] is the dictionary from request ids to
    (references to) requests. *)
Record ContentRequestHandler := mkHandler {
  store : list ContentRequest;
  requests : gmap Z nat;
  next_request_id : Z;
}.

Definition ContentRequestHandler_init : ContentRequestHandler :=
  {| store := []; requests := ∅; next_request_id := 0 |}.

(** [self.__requests.get(request_id)] *)
Definition requests_get (H : ContentRequestHandler) (request_id : Z)
  : option (nat * ContentRequest) :=
  l ← requests H !! request_id;
  req ← store H !! l;
  Some (l, req).

Definition create_request (H : ContentRequestHandler) (log : Log)
    (begin_record end_record : Z) : ContentRequestHandler * nat :=
  let id := next_request_id H in
  let req := ContentRequest_init id log begin_record end_record in
  let l := length (store H) in
  ({| store := store H ++ [req];
      requests := <[id := l]> (requests H);
      next_request_id := id + 1 |}, l).

Definition add_records (H : ContentRequestHandler) (request_id begin_record : Z)
    (records : list string) : result ContentRequestHandler :=
  match requests_get H request_id with
  | None => Ok H
  | Some (l, req) =>
      if got_all_requested_records req
      then Raise (ValueError "got next records for a request, although all requested records have already been sent")
      else if negb (get_next_record_index req =? begin_record)
      then Raise (ValueError "invalid begin_record")
      else Ok {| store := <[l := fold_left req_add_record records req]> (store H);
                 requests := requests H;
                 next_request_id := next_request_id H |}
  end.

Definition set_status (H : ContentRequestHandler) (request_id : Z) (status : Status)
  : ContentRequestHandler :=
  match requests_get H request_id with
  | None => H
  | Some (l, req) =>
      {| store := <[l := req_set_status status req]> (store H);
         requests :=
           if bool_decide (status = NOT_FOUND \/ status = CLOSED \/ status = DROPPED)
           then delete request_id (requests H)
           else requests H;
         next_request_id := next_request_id H |}
  end.

(** [ProxyConnection.drop_content_request], on the handler of the
    connection. *)
Definition drop_content_request (H : ContentRequestHandler) (request : ContentRequest)
  : ContentRequestHandler :=
  set_status H (get_id request) DROPPED.

(** The calls a handler receives: from [request_content], and from the
    deserializer for LogContentData and LogContentStatus messages (or from
    [drop_content_request]). *)
Inductive HandlerCall :=
| CallCreate (log : Log) (begin_record end_record : Z)
| CallAddRecords (request_id begin_record : Z) (records : list string)
| CallSetStatus (request_id : Z) (status : Status).

Definition handler_call (H : ContentRequestHandler) (c : HandlerCall)
  : result ContentRequestHandler :=
  match c with
  | CallCreate log b e => Ok (create_request H log b e).1
  | CallAddRecords id b records => add_records H id b records
  | CallSetStatus id s => Ok (set_status H id s)
  end.

Fixpoint handler_calls (H : ContentRequestHandler) (cs : list HandlerCall)
  : result ContentRequestHandler :=
  match cs with
  | [] => Ok H
  | c :: cs' => H' ← handler_call H c; handler_calls H' cs'
  end.

(** What [add_records] leaves of an accepted batch. *)
Definition with_records (req : ContentRequest) (records : list string) : ContentRequest :=
  {| request_id := request_id req; req_log := req_log req; begin_record := begin_record req;
     next_record_ind := next_record_ind req + len records; end_record := end_record req;
     status := status req; content := content req ++ records |}.

(** *** Accepting and rejecting batches *)

Lemma fold_req_add_record records req :
  fold_left req_add_record records req = with_records req records.
Proof.
  revert req. induction records as [|x records IH]; intros req; simpl.
  - destruct req. unfold with_records, len. simpl. f_equal; [lia|by rewrite app_nil_r].
  - rewrite IH. unfold with_records, req_add_record, len. simpl.
    f_equal; [lia|by rewrite <- app_assoc].
Qed.

Lemma requests_get_Some H id l req :
  requests H !! id = Some l -> store H !! l = Some req ->
  requests_get H id = Some (l, req).
Proof. intros H1 H2. unfold requests_get. rewrite H1. simpl. by rewrite H2. Qed.

Lemma requests_get_None H id :
  requests H !! id = None -> requests_get H id = None.
Proof. intros H1. unfold requests_get. by rewrite H1. Qed.


Lemma add_records_reject H id l req b records :
  requests H !! id = Some l -> store H !! l = Some req ->
  got_all_requested_records req = true \/ b <> next_record_ind req ->
  exists msg, add_records H id b records = Raise (ValueError msg).
Proof.
  intros H1 H2 Hor. unfold add_records, get_next_record_index.
  rewrite (requests_get_Some _ _ _ _ H1 H2).
  destruct (got_all_requested_records req); [by eexists|].
  destruct Hor as [|Hne]; [done|].
  destruct (Z.eqb_spec (next_record_ind req) b); [congruence|by eexists].
Qed.


Definition demo_handler : ContentRequestHandler :=
  set_status (create_request ContentRequestHandler_init demo_log 0 4).1 0 RECEIVING.


Example demo_batches :
  handler_calls demo_handler [CallAddRecords 0 0 ["a"; "b"]; CallAddRecords 0 2 ["c"]]
  = Ok {| store := [ {| request_id := 0; req_log := demo_log; begin_record := 0;
                        next_record_ind := 3; end_record := 4; status := RECEIVING;
                        content := ["a"; "b"; "c"] |} ];
          requests := {[ 0 := 0%nat ]}; next_request_id := 1 |}
  /\ handler_calls demo_handler [CallAddRecords 0 0 ["a"; "b"]; CallAddRecords 0 3 ["c"]]
     = Raise (ValueError "invalid begin_record")
  /\ handler_calls demo_handler [CallAddRecords 0 0 ["a"; "b"; "c"; "d"; "e"];
                                 CallAddRecords 0 5 ["f"]]
     = Raise (ValueError "got next records for a request, although all requested records have already been sent").
Proof. split_and!; vm_compute; reflexivity. Qed.


(** *** Dropped requests *)

(** Every request a handler has created is either still in its dictionary,
    under its own id, and live, or forgotten and in a final status; ids are
    handed out in increasing order. *)
Definition handler_wf (H : ContentRequestHandler) : Prop :=
  (forall id l, requests H !! id = Some l ->
     exists r, store H !! l = Some r /\ request_id r = id /\ is_live (status r) = true)
  /\ (forall l r, store H !! l = Some r ->
        request_id r < next_request_id H
        /\ (requests H !! request_id r = Some l
            \/ (requests H !! request_id r = None /\ is_terminal (status r) = true))).

(** An id the handler has issued and no longer holds. *)
Definition forgotten (H : ContentRequestHandler) (id : Z) : Prop :=
  requests H !! id = None /\ id < next_request_id H.

Lemma final_status_decide s :
  bool_decide (s = NOT_FOUND \/ s = CLOSED \/ s = DROPPED) = is_terminal s.
Proof. destruct s; by vm_compute. Qed.

Lemma handler_wf_init : handler_wf ContentRequestHandler_init.
Proof. split; intros ? ? Hl; simpl in Hl; by try rewrite lookup_empty in Hl. Qed.

Lemma handler_wf_create H log b e :
  handler_wf H -> handler_wf (create_request H log b e).1.
Proof.
  intros [Ha Hb]. split; simpl.
  - intros id l Hl. destruct (decide (id = next_request_id H)) as [->|Hne].
    + rewrite lookup_insert_eq in Hl. injection Hl as <-.
      eexists. split; [apply list_lookup_middle; done|done].
    + rewrite lookup_insert_ne in Hl by done.
      destruct (Ha id l Hl) as (r & Hr & Hid & Hlive).
      exists r. split_and!; try done. by apply lookup_app_l_Some.
  - intros l r Hl. apply lookup_app_Some in Hl as [Hl|[Hlen Hl]].
    + destruct (Hb l r Hl) as [Hlt Hreg]. split; [lia|].
      rewrite lookup_insert_ne by lia. done.
    + destruct (l - length (store H))%nat eqn:E; [|done].
      simpl in Hl. injection Hl as <-. simpl. split; [lia|left].
      rewrite lookup_insert_eq. f_equal. lia.
Qed.

Lemma handler_wf_add_records H id b records H' :
  handler_wf H -> add_records H id b records = Ok H' -> handler_wf H'.
Proof.
  intros [Ha Hb] Hadd. unfold add_records in Hadd.
  destruct (requests_get H id) as [[l req]|] eqn:Hget; [|by injection Hadd as <-].
  destruct (got_all_requested_records req); [done|].
  destruct (negb _); [done|]. injection Hadd as <-.
  unfold requests_get in Hget.
  destruct (requests H !! id) as [l0|] eqn:Hid; [|done]. simpl in Hget.
  destruct (store H !! l0) as [req0|] eqn:Hl0; [|done]. injection Hget as -> ->.
  rewrite fold_req_add_record.
  assert (l < length (store H))%nat as Hlt by (by eapply lookup_lt_Some).
  split; simpl.
  - intros id' l' Hl'. destruct (Ha id' l' Hl') as (r & Hr & Hrid & Hlive).
    destruct (decide (l' = l)) as [->|Hne].
    + rewrite list_lookup_insert_eq by done. rewrite Hl0 in Hr. injection Hr as <-.
      by eexists.
    + rewrite list_lookup_insert_ne by done. by exists r.
  - intros l' r Hl'. destruct (decide (l' = l)) as [->|Hne].
    + rewrite list_lookup_insert_eq in Hl' by done. injection Hl' as <-. simpl.
      by apply Hb.
    + rewrite list_lookup_insert_ne in Hl' by done. by apply Hb.
Qed.

Lemma handler_wf_set_status H id s :
  handler_wf H -> handler_wf (set_status H id s).
Proof.
  intros [Ha Hb]. unfold set_status.
  destruct (requests_get H id) as [[l req]|] eqn:Hget; [|done].
  unfold requests_get in Hget.
  destruct (requests H !! id) as [l0|] eqn:Hid; [|done]. simpl in Hget.
  destruct (store H !! l0) as [req0|] eqn:Hl0; [|done]. injection Hget as -> ->.
  assert (l < length (store H))%nat as Hlt by (by eapply lookup_lt_Some).
  destruct (Ha id l Hid) as (r0 & Hr0 & Hrid & _).
  rewrite Hl0 in Hr0. injection Hr0 as <-.
  rewrite final_status_decide. split; simpl.
  - intros id' l' Hl'.
    assert (requests H !! id' = Some l' /\ (is_terminal s = true -> id' <> id)) as [Hold Hne].
    { destruct (is_terminal s); [|done].
      apply lookup_delete_Some in Hl' as [? ?]. done. }
    destruct (Ha id' l' Hold) as (r & Hr & Hrid' & Hlive).
    destruct (decide (l' = l)) as [->|Hnl].
    + rewrite list_lookup_insert_eq by done. rewrite Hl0 in Hr. injection Hr as <-.
      eexists. split_and!; [done|done|]. simpl.
      unfold is_terminal in Hne. destruct (is_live s); [done|].
      exfalso. apply Hne; [done|congruence].
    + rewrite list_lookup_insert_ne by done. by exists r.
  - intros l' r Hl'. destruct (decide (l' = l)) as [->|Hnl].
    + rewrite list_lookup_insert_eq in Hl' by done. injection Hl' as <-. simpl.
      destruct (Hb l req Hl0) as [Hlt' _]. split; [done|].
      destruct (is_terminal s) eqn:Hs.
      * right. rewrite Hrid. by rewrite lookup_delete_eq.
      * left. by rewrite Hrid.
    + rewrite list_lookup_insert_ne in Hl' by done.
      destruct (Hb l' r Hl') as [Hlt' Hreg]. split; [done|].
      destruct (is_terminal s); [|done].
      assert (request_id r <> id) as Hne.
      { intros Heq. rewrite Heq, Hid in Hreg. destruct Hreg as [[=]|[[=] _]]. done. }
      by rewrite lookup_delete_ne.
Qed.

Lemma handler_wf_call H c H' :
  handler_wf H -> handler_call H c = Ok H' -> handler_wf H'.
Proof.
  intros Hwf Hc. destruct c; simpl in Hc.
  - injection Hc as <-. by apply handler_wf_create.
  - by eapply handler_wf_add_records.
  - injection Hc as <-. by apply handler_wf_set_status.
Qed.

Lemma handler_wf_calls cs H H' :
  handler_wf H -> handler_calls H cs = Ok H' -> handler_wf H'.
Proof.
  revert H. induction cs as [|c cs IH]; intros H Hwf Hcs; simpl in Hcs.
  - by injection Hcs as <-.
  - destruct (handler_call H c) as [H1|] eqn:Hc; [|done]. simpl in Hcs.
    eapply IH; [|done]. by eapply handler_wf_call.
Qed.

Lemma forgotten_add_records H id b records :
  forgotten H id -> add_records H id b records = Ok H.
Proof. intros [Hn _]. unfold add_records. by rewrite requests_get_None. Qed.

Lemma forgotten_set_status H id s :
  forgotten H id -> set_status H id s = H.
Proof. intros [Hn _]. unfold set_status. by rewrite requests_get_None. Qed.

Lemma requests_get_inv H id l req :
  requests_get H id = Some (l, req) ->
  requests H !! id = Some l /\ store H !! l = Some req.
Proof.
  unfold requests_get. intros Hget.
  destruct (requests H !! id) as [l0|]; [|done]. simpl in Hget.
  destruct (store H !! l0) as [req0|] eqn:E; [|done]. by injection Hget as -> ->.
Qed.

(** A call leaves a forgotten id forgotten and the request it named as it
    was. *)
Lemma forgotten_call H c H' l r :
  handler_wf H -> store H !! l = Some r -> forgotten H (request_id r) ->
  handler_call H c = Ok H' ->
  store H' !! l = Some r /\ forgotten H' (request_id r).
Proof.
  intros [Ha Hb] Hl [Hn Hlt] Hc.
  assert (forall id' l', requests H !! id' = Some l' -> l' <> l) as Hother.
  { intros id' l' Hid' ->. destruct (Ha id' l Hid') as (r' & Hr' & Hrid & _).
    rewrite Hl in Hr'. injection Hr' as <-. congruence. }
  destruct c as [log b e|id' b records|id' s]; simpl in Hc.
  - injection Hc as <-. simpl. split; [by apply lookup_app_l_Some|].
    split; simpl; [|lia]. rewrite lookup_insert_ne by lia. done.
  - unfold add_records in Hc.
    destruct (requests_get H id') as [[l' req]|] eqn:Hget; [|by injection Hc as <-].
    apply requests_get_inv in Hget as [Hid' Hl'].
    destruct (got_all_requested_records req); [done|].
    destruct (negb _); [done|]. injection Hc as <-. simpl.
    split; [|done]. rewrite list_lookup_insert_ne; [done|]. by eapply Hother.
  - injection Hc as <-. unfold set_status.
    destruct (requests_get H id') as [[l' req]|] eqn:Hget; [|done].
    apply requests_get_inv in Hget as [Hid' Hl']. simpl.
    split; [rewrite list_lookup_insert_ne; [done|]; by eapply Hother|].
    split; simpl; [|done].
    destruct (bool_decide _); [|done]. apply lookup_delete_None. by right.
Qed.

Lemma forgotten_calls cs H H' l r :
  handler_wf H -> store H !! l = Some r -> forgotten H (request_id r) ->
  handler_calls H cs = Ok H' ->
  store H' !! l = Some r /\ forgotten H' (request_id r).
Proof.
  revert H. induction cs as [|c cs IH]; intros H Hwf Hl Hf Hcs; simpl in Hcs.
  - by injection Hcs as <-.
  - destruct (handler_call H c) as [H1|] eqn:Hc; [|done]. simpl in Hcs.
    destruct (forgotten_call H c H1 l r Hwf Hl Hf Hc) as [Hl1 Hf1].
    eapply IH; [by eapply handler_wf_call|done..].
Qed.

(** C9. Dropping a request of the handler, in whatever state it is, leaves
    it in a final status (DROPPED if it was still pending or receiving,
    unchanged if it was already final), and dropping it again changes
    nothing.  From then on, whatever else the handler is asked, the request
    stays as it is and every [add_records] or [set_status] call carrying
    its request id returns normally and leaves the handler exactly as it
    was. *)
Theorem drop_is_final_and_idempotent (cs more : list HandlerCall)
    (H H2 : ContentRequestHandler) (l : nat) (req : ContentRequest) :
  handler_calls ContentRequestHandler_init cs = Ok H ->
  store H !! l = Some req ->
  handler_calls (drop_content_request H req) more = Ok H2 ->
  let H1 := drop_content_request H req in
  (exists req1, store H1 !! l = Some req1
     /\ is_terminal (status req1) = true
     /\ request_id req1 = request_id req
     /\ (is_live (status req) = true -> status req1 = DROPPED)
     /\ (is_terminal (status req) = true -> H1 = H))
  /\ drop_content_request H1 req = H1
  /\ store H2 !! l = store H1 !! l
  /\ (forall b records, add_records H2 (request_id req) b records = Ok H2)
  /\ (forall s, set_status H2 (request_id req) s = H2).
Proof.
  intros Hcs Hl Hmore H1.
  assert (handler_wf H) as Hwf by (eapply handler_wf_calls; [apply handler_wf_init|done]).
  assert (handler_wf H1) as Hwf1 by (by apply handler_wf_set_status).
  destruct Hwf as [Ha Hb]. destruct (Hb l req Hl) as [Hlt Hreg].
  assert (exists req1, store H1 !! l = Some req1
            /\ is_terminal (status req1) = true
            /\ request_id req1 = request_id req
            /\ (is_live (status req) = true -> status req1 = DROPPED)
            /\ (is_terminal (status req) = true -> H1 = H)
            /\ forgotten H1 (request_id req)) as (req1 & Hl1 & Ht1 & Hid1 & Hlive & Hsame & Hf1).
  { unfold H1, drop_content_request, set_status, get_id.
    destruct Hreg as [Hreg|[Hreg Hterm]].
    - destruct (Ha _ _ Hreg) as (r' & Hr' & _ & Hlv).
      rewrite Hl in Hr'. injection Hr' as <-.
      rewrite (requests_get_Some _ _ _ _ Hreg Hl). simpl.
      exists (req_set_status DROPPED req). split_and!; try done.
      + apply list_lookup_insert_eq. by eapply lookup_lt_Some.
      + unfold is_terminal. by rewrite Hlv.
      + split; simpl; [apply lookup_delete_eq|done].
    - rewrite (requests_get_None _ _ Hreg). exists req. split_and!; try done.
      unfold is_terminal in Hterm. by destruct (is_live (status req)). }
  rewrite <- Hid1 in Hf1.
  destruct (forgotten_calls more H1 H2 l req1 Hwf1 Hl1 Hf1 Hmore) as [Hl2 Hf2].
  rewrite Hid1 in Hf1, Hf2.
  split_and!.
  - by exists req1.
  - by apply forgotten_set_status.
  - by rewrite Hl1, Hl2.
  - intros b records. by apply forgotten_add_records.
  - intros s. by apply forgotten_set_status.
Qed.

Definition demo_history : list HandlerCall :=
  [ CallCreate demo_log 0 4; CallCreate demo_log 0 4; CallSetStatus 1 RECEIVING;
    CallAddRecords 1 0 ["a"] ].

Definition demo_after_history : ContentRequestHandler :=
  {| store := [ ContentRequest_init 0 demo_log 0 4;
                {| request_id := 1; req_log := demo_log; begin_record := 0;
                   next_record_ind := 1; end_record := 4; status := RECEIVING;
                   content := ["a"] |} ];
     requests := {[ 0 := 0%nat; 1 := 1%nat ]}; next_request_id := 2 |}.

Definition demo_received : ContentRequest :=
  {| request_id := 1; req_log := demo_log; begin_record := 0; next_record_ind := 1;
     end_record := 4; status := RECEIVING; content := ["a"] |}.

Definition demo_later : list HandlerCall :=
  [ CallAddRecords 1 7 ["late"]; CallSetStatus 1 CLOSED; CallCreate demo_log 5 9;
    CallAddRecords 1 1 ["b"] ].

Definition demo_after_later : ContentRequestHandler :=
  {| store := [ ContentRequest_init 0 demo_log 0 4;
                {| request_id := 1; req_log := demo_log; begin_record := 0;
                   next_record_ind := 1; end_record := 4; status := DROPPED;
                   content := ["a"] |};
                ContentRequest_init 2 demo_log 5 9 ];
     requests := {[ 0 := 0%nat; 2 := 2%nat ]}; next_request_id := 3 |}.

Lemma drop_is_final_and_idempotent_witness :
  let H1 := drop_content_request demo_after_history demo_received in
  (exists req1, store H1 !! 1%nat = Some req1
     /\ is_terminal (status req1) = true
     /\ request_id req1 = request_id demo_received
     /\ (is_live (status demo_received) = true -> status req1 = DROPPED)
     /\ (is_terminal (status demo_received) = true -> H1 = demo_after_history))
  /\ drop_content_request H1 demo_received = H1
  /\ store demo_after_later !! 1%nat = store H1 !! 1%nat
  /\ (forall b records,
        add_records demo_after_later (request_id demo_received) b records
        = Ok demo_after_later)
  /\ (forall s, set_status demo_after_later (request_id demo_received) s = demo_after_later).
Proof.
  apply (drop_is_final_and_idempotent demo_history demo_later
           demo_after_history demo_after_later 1 demo_received).
  - vm_compute. reflexivity.
  - vm_compute. reflexivity.
  - vm_compute. reflexivity.
Defined.

End ContentRequests.

(** ** agent/lfb_agent.py, with the connections of agent/proxyconnection.py *)

Module Agent.
Import LogModel Backend Networking ContentRequests.
Local Open Scope Z_scope.

(** [ProxyConnection], with the [NetworkConnection] it wraps.  The socket
    is represented by the bytes that have arrived and were not yet read
    ([incoming]), and by whether the proxy has closed its end
    ([remote_closed]: once [incoming] is used up, recv returns zero
    bytes).  [current_message] is the header of the message being read.
    [sent] lists the messages handed to [NetworkConnection.send], oldest
    first. *)
Record ProxyConnection := mkConnection {
  content_requestor : ContentRequestHandler;
  incoming : bytes;
  remote_closed : bool;
  current_message : option NetworkMessageMeta;
  sent : list NetworkMessage;
}.

Definition ProxyConnection_init (incoming : bytes) (remote_closed : bool) : ProxyConnection :=
  {| content_requestor := ContentRequestHandler_init; incoming := incoming;
     remote_closed := remote_closed; current_message := None; sent := [] |}.

Definition with_requestor (con : ProxyConnection) (H : ContentRequestHandler)
  : ProxyConnection :=
  {| content_requestor := H; incoming := incoming con; remote_closed := remote_closed con;
     current_message := current_message con; sent := sent con |}.

Definition with_socket (con : ProxyConnection) (incoming : bytes)
    (current : option NetworkMessageMeta) : ProxyConnection :=
  {| content_requestor := content_requestor con; incoming := incoming;
     remote_closed := remote_closed con; current_message := current; sent := sent con |}.

(** [NetworkConnection.send] *)
Definition send (con : ProxyConnection) (message : NetworkMessage) : ProxyConnection :=
  {| content_requestor := content_requestor con; incoming := incoming con;
     remote_closed := remote_closed con; current_message := current_message con;
     sent := sent con ++ [message] |}.

(** The agent process: every connection object accepted so far ([objects];
    a reference to a connection is its index), the registry
    [LfbAgent.__connections] of references, and the collector the
    connections share, with the backend it talks to. *)
Record LfbAgent := mkAgent {
  objects : list ProxyConnection;
  connections : list nat;
  collector : ListLogCollector;
  backend : BackendState;
}.

Definition with_objects (A : LfbAgent) (objs : list ProxyConnection) : LfbAgent :=
  {| objects := objs; connections := connections A; collector := collector A;
     backend := backend A |}.

Definition with_connections (A : LfbAgent) (cons : list nat) : LfbAgent :=
  {| objects := objects A; connections := cons; collector := collector A;
     backend := backend A |}.

Definition with_collector (A : LfbAgent) (c : ListLogCollector) (b : BackendState) : LfbAgent :=
  {| objects := objects A; connections := connections A; collector := c; backend := b |}.

Definition LfbAgent_init (c : ListLogCollector) (b : BackendState) : LfbAgent :=
  {| objects := []; connections := []; collector := c; backend := b |}.

(** [add_client], for a connection just accepted. *)
Definition add_client (A : LfbAgent) (client : ProxyConnection) : LfbAgent :=
  {| objects := objects A ++ [client];
     connections := connections A ++ [length (objects A)];
     collector := collector A; backend := backend A |}.

(** A reference to a content request: the connection that created it and
    its place in the store of that connection's handler. *)
Definition request_ref : Type := nat * nat.

Definition deref (A : LfbAgent) (r : request_ref) : option ContentRequest :=
  con ← objects A !! r.1;
  store (content_requestor con) !! r.2.

Definition status_of (A : LfbAgent) (r : request_ref) : option Status :=
  status <$> deref A r.

(** [ProxyConnection.request_content] *)
Definition request_content (A : LfbAgent) (c : nat) (log : Log)
    (begin_record end_record : Z) : LfbAgent * option request_ref :=
  match objects A !! c with
  | None => (A, None)
  | Some con =>
      let '(H, l) := create_request (content_requestor con) log begin_record end_record in
      let reqmsg := GetLogContentNetworkMessage log (next_request_id (content_requestor con))
                      begin_record end_record in
      (with_objects A (<[c := send (with_requestor con H) reqmsg]> (objects A)), Some (c, l))
  end.

(** [ProxyConnection.drop_content_request] *)
Definition drop_request (A : LfbAgent) (r : request_ref) : LfbAgent :=
  match objects A !! r.1 with
  | None => A
  | Some con =>
      match store (content_requestor con) !! r.2 with
      | None => A
      | Some request =>
          with_objects A
            (<[r.1 := with_requestor con (drop_content_request (content_requestor con) request)]>
               (objects A))
      end
  end.

(** [AgentContentRequest] *)
Record AgentContentRequest := mkAggregate {
  children : list request_ref;     (* [__requests], oldest first *)
  lead : option request_ref;
}.

Definition is_dead (a : AgentContentRequest) : bool :=
  bool_decide (lead a = None) && bool_decide (length (children a) = 0%nat).

(** [__select_lead] *)
Definition select_lead (A : LfbAgent) (a : AgentContentRequest) (ld : request_ref)
  : LfbAgent * AgentContentRequest :=
  (fold_left (fun A r => if decide (r = ld) then A else drop_request A r) (children a) A,
   {| children := []; lead := Some ld |}).

(** [__try_resolve_lead]: the loop over [reversed(range(len(requests)))],
    [i] being the number of indices still to visit. *)
Fixpoint try_resolve_lead (A : LfbAgent) (a : AgentContentRequest) (i : nat)
  : LfbAgent * AgentContentRequest :=
  match i with
  | O => (A, a)
  | S i' =>
      match children a !! i' with
      | None => (A, a)
      | Some r =>
          match status_of A r with
          | Some RECEIVING | Some CLOSED => select_lead A a r
          | Some NOT_FOUND | Some DROPPED =>
              try_resolve_lead A {| children := delete i' (children a); lead := lead a |} i'
          | Some PENDING => try_resolve_lead A a i'
          | None => (A, a)
          end
      end
  end.

Definition get_lead (A : LfbAgent) (a : AgentContentRequest)
  : LfbAgent * AgentContentRequest * option request_ref :=
  match lead a with
  | None =>
      let '(A', a') := try_resolve_lead A a (length (children a)) in
      (A', a', lead a')
  | Some _ => (A, a, lead a)
  end.

(** [request_log_content] *)
Definition request_log_content (A : LfbAgent) (log : Log) (begin_record end_record : Z)
  : LfbAgent * AgentContentRequest :=
  let '(A', requests) :=
    fold_left (fun '(A, requests) c =>
                 match request_content A c log begin_record end_record with
                 | (A', Some r) => (A', requests ++ [r])
                 | (A', None) => (A', requests)
                 end) (connections A) (A, []) in
  (A', {| children := requests; lead := None |}).

(** *** The agent at work

    What happens to an agent and the aggregate requests made of it (one per
    validator job): proxies connect and get lost, content is requested,
    status and data messages arrive for some request id on some
    connection, and leads are asked for. *)
Record System := mkSystem {
  agent : LfbAgent;
  aggregates : list AgentContentRequest;
}.

Inductive Event :=
| EvAccept
| EvLost (c : nat)
| EvRequest (log : Log) (begin_record end_record : Z)
| EvStatus (c : nat) (request_id : Z) (s : Status)
| EvRecords (c : nat) (request_id begin_record : Z) (records : list string)
| EvGetLead (k : nat).

(** [list.remove(c)], for a [c] that is in the list. *)
Fixpoint remove_first (c : nat) (l : list nat) : list nat :=
  match l with
  | [] => []
  | x :: l' => if decide (x = c) then l' else x :: remove_first c l'
  end.

Definition on_handler (A : LfbAgent) (c : nat)
    (f : ContentRequestHandler -> result ContentRequestHandler) : result LfbAgent :=
  match objects A !! c with
  | None => Ok A
  | Some con =>
      H ← f (content_requestor con);
      Ok (with_objects A (<[c := with_requestor con H]> (objects A)))
  end.

Definition step (Y : System) (ev : Event) : result System :=
  match ev with
  | EvAccept =>
      Ok {| agent := add_client (agent Y) (ProxyConnection_init [] false);
            aggregates := aggregates Y |}
  | EvLost c =>
      Ok {| agent := with_connections (agent Y) (remove_first c (connections (agent Y)));
            aggregates := aggregates Y |}
  | EvRequest log b e =>
      let '(A, a) := request_log_content (agent Y) log b e in
      Ok {| agent := A; aggregates := aggregates Y ++ [a] |}
  | EvStatus c id s =>
      A ← on_handler (agent Y) c (fun H => Ok (set_status H id s));
      Ok {| agent := A; aggregates := aggregates Y |}
  | EvRecords c id b records =>
      A ← on_handler (agent Y) c (fun H => add_records H id b records);
      Ok {| agent := A; aggregates := aggregates Y |}
  | EvGetLead k =>
      match aggregates Y !! k with
      | None => Ok Y
      | Some a =>
          let '(A, a', _) := get_lead (agent Y) a in
          Ok {| agent := A; aggregates := <[k := a']> (aggregates Y) |}
      end
  end.

Fixpoint steps (Y : System) (evs : list Event) : result System :=
  match evs with
  | [] => Ok Y
  | ev :: evs' => Y' ← step Y ev; steps Y' evs'
  end.

Definition System_init : System :=
  {| agent := LfbAgent_init [] {| mint := fun name => name; trace := [] |};
     aggregates := [] |}.

(** The election rule: scanning from the newest child to the oldest, the
    first one found RECEIVING or CLOSED. *)
Definition has_found (A : LfbAgent) (r : request_ref) : bool :=
  match status_of A r with
  | Some RECEIVING | Some CLOSED => true
  | _ => false
  end.

Definition is_pending (A : LfbAgent) (r : request_ref) : bool :=
  match status_of A r with
  | Some PENDING => true
  | _ => false
  end.

Definition elected (A : LfbAgent) (rs : list request_ref) : option request_ref :=
  List.find (has_found A) (reverse rs).

(** What dropping does to a request: DROPPED if it was live, nothing
    otherwise. *)
Definition dropped (req : ContentRequest) : ContentRequest :=
  if is_live (status req) then req_set_status DROPPED req else req.

(** *** Dropping the children of an aggregate *)

Definition agent_wf (A : LfbAgent) : Prop :=
  forall c con, objects A !! c = Some con -> handler_wf (content_requestor con).

(** Everything of a connection but its handler. *)
Definition socket_of (con : ProxyConnection)
  : bytes * bool * option NetworkMessageMeta * list NetworkMessage :=
  (incoming con, remote_closed con, current_message con, sent con).

(** [A'] differs from [A] at most in the handlers of its connections. *)
Definition same_but_handlers (A' A : LfbAgent) : Prop :=
  connections A' = connections A /\ collector A' = collector A /\ backend A' = backend A
  /\ forall c, socket_of <$> objects A' !! c = socket_of <$> objects A !! c.

Lemma same_but_handlers_refl A : same_but_handlers A A.
Proof. by split_and!. Qed.

Lemma same_but_handlers_trans A1 A2 A3 :
  same_but_handlers A1 A2 -> same_but_handlers A2 A3 -> same_but_handlers A1 A3.
Proof.
  intros (?&?&?&E1) (?&?&?&E2). split_and!; congruence.
Qed.

Lemma dropped_idemp req : dropped (dropped req) = dropped req.
Proof. unfold dropped. destruct (is_live (status req)) eqn:E; simpl; [done|by rewrite E]. Qed.

Lemma dropped_terminal req : is_live (status req) = false -> dropped req = req.
Proof. unfold dropped. by intros ->. Qed.

Lemma drop_content_request_store H l req :
  handler_wf H -> store H !! l = Some req ->
  store (drop_content_request H req) = <[l := dropped req]> (store H).
Proof.
  intros [Ha Hb] Hl. destruct (Hb l req Hl) as [_ Hreg].
  unfold drop_content_request, set_status, get_id, dropped.
  destruct Hreg as [Hreg|[Hreg Hterm]].
  - destruct (Ha _ _ Hreg) as (r' & Hr' & _ & Hlv).
    rewrite Hl in Hr'. injection Hr' as <-.
    by rewrite (requests_get_Some _ _ _ _ Hreg Hl), Hlv.
  - rewrite (requests_get_None _ _ Hreg).
    unfold is_terminal in Hterm. destruct (is_live (status req)); [done|].
    by rewrite list_insert_id.
Qed.

Lemma drop_request_spec A r req :
  agent_wf A -> deref A r = Some req ->
  agent_wf (drop_request A r)
  /\ same_but_handlers (drop_request A r) A
  /\ forall r', deref (drop_request A r) r'
                = if decide (r' = r) then Some (dropped req) else deref A r'.
Proof.
  intros Hwf Hr. destruct r as [c l]. unfold deref in Hr. simpl in Hr.
  unfold drop_request. simpl.
  destruct (objects A !! c) as [con|] eqn:Hc; [|done]. simpl in Hr. rewrite Hr.
  assert (c < length (objects A))%nat as Hlt by (by eapply lookup_lt_Some).
  assert (l < length (store (content_requestor con)))%nat as Hlt' by (by eapply lookup_lt_Some).
  pose proof (Hwf c con Hc) as HwfH.
  split_and!.
  - intros c' con' Hc'. simpl in Hc'.
    destruct (decide (c' = c)) as [->|Hne].
    + rewrite list_lookup_insert_eq in Hc' by done. injection Hc' as <-. simpl.
      by apply handler_wf_set_status.
    + rewrite list_lookup_insert_ne in Hc' by done. by eapply Hwf.
  - split_and!; try done. intros c'. simpl.
    destruct (decide (c' = c)) as [->|Hne].
    + rewrite list_lookup_insert_eq by done. by rewrite Hc.
    + by rewrite list_lookup_insert_ne.
  - intros [c' l']. unfold deref. simpl.
    destruct (decide (c' = c)) as [->|Hne].
    + rewrite list_lookup_insert_eq by done. simpl. rewrite Hc. simpl.
      rewrite (drop_content_request_store _ l req) by done.
      destruct (decide (l' = l)) as [->|Hnl].
      * rewrite list_lookup_insert_eq by done. by rewrite decide_True.
      * rewrite list_lookup_insert_ne by done. rewrite decide_False by congruence. done.
    + rewrite list_lookup_insert_ne by done. rewrite decide_False by congruence. done.
Qed.

Definition drop_others (ld : request_ref) (A : LfbAgent) (rs : list request_ref) : LfbAgent :=
  fold_left (fun A r => if decide (r = ld) then A else drop_request A r) rs A.

Lemma drop_others_spec ld rs A :
  agent_wf A -> Forall (fun r => is_Some (deref A r)) rs ->
  agent_wf (drop_others ld A rs)
  /\ same_but_handlers (drop_others ld A rs) A
  /\ forall r', deref (drop_others ld A rs) r'
                = if bool_decide (r' ∈ rs /\ r' <> ld) then dropped <$> deref A r'
                  else deref A r'.
Proof.
  revert A. induction rs as [|r rs IH]; intros A Hwf Hval.
  - split_and!; [done|apply same_but_handlers_refl|].
    intros r'. rewrite bool_decide_eq_false_2; [done|]. intros [Hin _]. by inversion Hin.
  - apply Forall_cons in Hval as [[req Hr] Hval]. unfold drop_others. simpl.
    fold (drop_others ld). destruct (decide (r = ld)) as [->|Hne].
    + destruct (IH A Hwf Hval) as (IH1 & IH2 & IH3). split_and!; try done.
      intros r'. rewrite IH3.
      destruct (decide (r' = ld)) as [->|Hne'].
      * by rewrite !bool_decide_eq_false_2 by tauto.
      * rewrite (bool_decide_ext (r' ∈ ld :: rs /\ r' <> ld) (r' ∈ rs /\ r' <> ld));
          [done|rewrite elem_of_cons; tauto].
    + destruct (drop_request_spec A r req Hwf Hr) as (D1 & D2 & D3).
      destruct (IH (drop_request A r) D1) as (IH1 & IH2 & IH3).
      { eapply Forall_impl; [exact Hval|]. intros r0 [req0 Hr0]. simpl.
        rewrite D3. case_decide; by eexists. }
      split_and!; [done|by eapply same_but_handlers_trans|].
      intros r'. rewrite IH3, D3.
      destruct (decide (r' = r)) as [->|Hnr].
      * rewrite Hr. simpl. rewrite dropped_idemp.
        rewrite (bool_decide_eq_true_2 (r ∈ r :: rs /\ r <> ld))
          by (split; [by left|done]).
        by case_bool_decide.
      * destruct (decide (r' ∈ rs /\ r' <> ld)) as [Hin|Hnin].
        -- rewrite !bool_decide_eq_true_2; [done|rewrite elem_of_cons; tauto|done].
        -- rewrite !bool_decide_eq_false_2; [done|rewrite elem_of_cons; tauto|done].
Qed.

(** *** Resolving the lead *)

Lemma if_bool_decide_iff {A} (P Q : Prop) `{Decision P, Decision Q} (x y : A) :
  (P <-> Q) -> (if bool_decide P then x else y) = (if bool_decide Q then x else y).
Proof. intros HPQ. by rewrite (bool_decide_ext P Q). Qed.

Definition valid_refs (A : LfbAgent) (rs : list request_ref) : Prop :=
  Forall (fun r => is_Some (deref A r)) rs.

(** What [__try_resolve_lead] leaves after visiting the [i] oldest
    children, newest first. *)
Definition resolved (A : LfbAgent) (a : AgentContentRequest) (i : nat)
    (A' : LfbAgent) (a' : AgentContentRequest) : Prop :=
  lead a' = elected A (take i (children a))
  /\ agent_wf A' /\ same_but_handlers A' A
  /\ match lead a' with
     | None =>
         A' = A
         /\ children a' = List.filter (is_pending A) (take i (children a)) ++ drop i (children a)
     | Some x =>
         children a' = [] /\ x ∈ children a /\ has_found A x = true
         /\ forall r', deref A' r'
                       = if bool_decide (r' ∈ children a /\ r' <> x)
                         then dropped <$> deref A r' else deref A r'
     end.

Lemma elem_of_delete_other {T} (l : list T) i r x :
  l !! i = Some r -> (x ∈ l <-> x = r \/ x ∈ delete i l).
Proof.
  intros Hr. rewrite delete_take_drop.
  rewrite <- (take_drop_middle _ _ _ Hr) at 1.
  rewrite !elem_of_app, elem_of_cons. tauto.
Qed.

Lemma elected_snoc A rs r :
  elected A (rs ++ [r]) = if has_found A r then Some r else elected A rs.
Proof. unfold elected. by rewrite reverse_snoc. Qed.

Lemma filter_pending_snoc A rs r :
  List.filter (is_pending A) (rs ++ [r])
  = List.filter (is_pending A) rs ++ (if is_pending A r then [r] else []).
Proof. by rewrite List.filter_app. Qed.

Lemma try_resolve_lead_spec A a i :
  agent_wf A -> lead a = None -> valid_refs A (children a) ->
  (i <= length (children a))%nat ->
  resolved A a i (try_resolve_lead A a i).1 (try_resolve_lead A a i).2.
Proof.
  intros Hwf. revert a. induction i as [|i IH]; intros a Hlead Hval Hi.
  - simpl. unfold resolved. rewrite Hlead. simpl.
    split_and!; try done; try apply same_but_handlers_refl.
  - simpl. destruct (children a !! i) as [r|] eqn:Hr;
      [|apply lookup_ge_None in Hr; lia].
    assert (take (S i) (children a) = take i (children a) ++ [r]) as Htake
      by (by apply take_S_r).
    pose proof (proj1 (Forall_lookup _ _) Hval i r Hr) as [req Hreq].
    unfold status_of. rewrite Hreq. simpl.
    assert (has_found A r = match status req with RECEIVING | CLOSED => true | _ => false end)
      as Hfound by (unfold has_found, status_of; by rewrite Hreq).
    assert (is_pending A r = match status req with PENDING => true | _ => false end)
      as Hpend by (unfold is_pending, status_of; by rewrite Hreq).
    assert (forall st, status req = st -> st = NOT_FOUND \/ st = DROPPED ->
            resolved A a (S i)
              (try_resolve_lead A {| children := delete i (children a); lead := lead a |} i).1
              (try_resolve_lead A {| children := delete i (children a); lead := lead a |} i).2)
      as Hpruned.
    { intros st Hst Hor.
      assert (dropped req = req) as Hdr
        by (apply dropped_terminal; rewrite Hst; by destruct Hor as [->| ->]).
      assert (has_found A r = false) as Hf
        by (rewrite Hfound, Hst; by destruct Hor as [->| ->]).
      assert (is_pending A r = false) as Hp
        by (rewrite Hpend, Hst; by destruct Hor as [->| ->]).
      specialize (IH {| children := delete i (children a); lead := lead a |}).
      simpl in IH. destruct IH as (I1 & I2 & I3 & I4); [done|by apply Forall_delete| |].
      { rewrite length_delete by (by eexists). lia. }
      assert (take i (delete i (children a)) = take i (children a)) as Ht.
      { rewrite delete_take_drop. rewrite take_app_length'; [done|].
        rewrite length_take. apply lookup_lt_Some in Hr. lia. }
      assert (drop i (delete i (children a)) = drop (S i) (children a)) as Hd.
      { rewrite delete_take_drop. rewrite drop_app_length'; [done|].
        rewrite length_take. apply lookup_lt_Some in Hr. lia. }
      cbn [children lead] in I1, I4. rewrite Ht in I1, I4. rewrite Hd in I4.
      unfold resolved. rewrite Htake, elected_snoc, Hf. split_and!; try done.
      destruct (lead (try_resolve_lead A _ i).2) as [x|] eqn:Hx.
      - destruct I4 as (J1 & J2 & J3 & J4). split_and!; try done.
        + apply (elem_of_delete_other _ _ _ x Hr). by right.
        + intros r'. rewrite J4.
          destruct (decide (r' = r)) as [->|Hnr].
          * rewrite Hreq. simpl. rewrite Hdr. by repeat case_bool_decide.
          * apply if_bool_decide_iff.
            rewrite (elem_of_delete_other _ _ _ r' Hr). tauto.
      - destruct I4 as [J1 J2]. split; [done|].
        rewrite J2, filter_pending_snoc, Hp. by rewrite app_nil_r. }
    destruct (status req) eqn:Hst.
    + (* PENDING *)
      destruct (IH a Hlead Hval) as (I1 & I2 & I3 & I4); [lia|].
      unfold resolved. rewrite Htake, elected_snoc, Hfound. split_and!; try done.
      destruct (lead (try_resolve_lead A a i).2) as [x|]; [done|].
      destruct I4 as [J1 J2]. split; [done|].
      rewrite J2, filter_pending_snoc, Hpend. rewrite <- app_assoc. simpl.
      by rewrite (drop_S _ _ _ Hr).
    + (* RECEIVING *)
      unfold select_lead. simpl. fold (drop_others r A (children a)).
      destruct (drop_others_spec r (children a) A Hwf Hval) as (D1 & D2 & D3).
      unfold resolved. simpl. rewrite Htake, elected_snoc, Hfound.
      split_and!; try done. by eapply list_elem_of_lookup_2.
    + (* CLOSED *)
      unfold select_lead. simpl. fold (drop_others r A (children a)).
      destruct (drop_others_spec r (children a) A Hwf Hval) as (D1 & D2 & D3).
      unfold resolved. simpl. rewrite Htake, elected_snoc, Hfound.
      split_and!; try done. by eapply list_elem_of_lookup_2.
    + by apply (Hpruned NOT_FOUND); [|left].
    + by apply (Hpruned DROPPED); [|right].
Qed.

(** *** Invariants of the agent at work *)

Definition refs_kept (A A' : LfbAgent) : Prop :=
  forall r, is_Some (deref A r) -> is_Some (deref A' r).

Definition system_wf (Y : System) : Prop :=
  agent_wf (agent Y)
  /\ forall k a, aggregates Y !! k = Some a -> valid_refs (agent Y) (children a).

Lemma valid_refs_kept A A' rs :
  refs_kept A A' -> valid_refs A rs -> valid_refs A' rs.
Proof. intros Hk Hv. eapply Forall_impl; [exact Hv|]. intros r. apply Hk. Qed.

Lemma refs_kept_trans A1 A2 A3 :
  refs_kept A1 A2 -> refs_kept A2 A3 -> refs_kept A1 A3.
Proof. intros H1 H2 r Hr. by apply H2, H1. Qed.

Lemma deref_insert_same A c con H l :
  objects A !! c = Some con ->
  deref (with_objects A (<[c := with_requestor con H]> (objects A))) (c, l) = store H !! l.
Proof.
  intros Hc. unfold deref. simpl.
  rewrite list_lookup_insert_eq by (by eapply lookup_lt_Some). done.
Qed.

Lemma deref_insert_other A c con' c' l :
  c' <> c ->
  deref (with_objects A (<[c := con']> (objects A))) (c', l) = deref A (c', l).
Proof. intros Hne. unfold deref. simpl. by rewrite list_lookup_insert_ne. Qed.

(** Replacing the handler of a connection by one that is well formed and
    keeps the requests of the old one. *)
Lemma replace_handler_wf A c con H :
  agent_wf A -> objects A !! c = Some con -> handler_wf H ->
  (forall l, is_Some (store (content_requestor con) !! l) -> is_Some (store H !! l)) ->
  agent_wf (with_objects A (<[c := with_requestor con H]> (objects A)))
  /\ refs_kept A (with_objects A (<[c := with_requestor con H]> (objects A))).
Proof.
  intros Hwf Hc HwfH Hkeep. split.
  - intros c' con' Hc'. simpl in Hc'. destruct (decide (c' = c)) as [->|Hne].
    + rewrite list_lookup_insert_eq in Hc' by (by eapply lookup_lt_Some).
      by injection Hc' as <-.
    + rewrite list_lookup_insert_ne in Hc' by done. by eapply Hwf.
  - intros [c' l] Hr. destruct (decide (c' = c)) as [->|Hne].
    + rewrite deref_insert_same by done. apply Hkeep.
      unfold deref in Hr. simpl in Hr. by rewrite Hc in Hr.
    + by rewrite deref_insert_other.
Qed.

Lemma store_kept_set_status H id s l :
  is_Some (store H !! l) -> is_Some (store (set_status H id s) !! l).
Proof.
  unfold set_status. destruct (requests_get H id) as [[l' req]|]; [|done]. simpl.
  rewrite !lookup_lt_is_Some, length_insert. done.
Qed.

Lemma store_kept_add_records H id b records H' l :
  add_records H id b records = Ok H' ->
  is_Some (store H !! l) -> is_Some (store H' !! l).
Proof.
  unfold add_records. destruct (requests_get H id) as [[l' req]|];
    [|by intros [= <-]].
  destruct (got_all_requested_records req); [done|]. destruct (negb _); [done|].
  intros [= <-]. simpl. rewrite !lookup_lt_is_Some, length_insert. done.
Qed.

Lemma on_handler_wf A c f A' :
  agent_wf A ->
  (forall H H', handler_wf H -> f H = Ok H' ->
     handler_wf H' /\ forall l, is_Some (store H !! l) -> is_Some (store H' !! l)) ->
  on_handler A c f = Ok A' ->
  agent_wf A' /\ refs_kept A A'.
Proof.
  intros Hwf Hf Hon. unfold on_handler in Hon.
  destruct (objects A !! c) as [con|] eqn:Hc;
    [|injection Hon as <-; split; [done|by intros r]].
  destruct (f (content_requestor con)) as [H'|] eqn:HfH; [|done].
  simpl in Hon. injection Hon as <-.
  destruct (Hf _ _ (Hwf c con Hc) HfH) as [Hw Hk]. by apply replace_handler_wf.
Qed.

Lemma request_content_wf A c log b e :
  agent_wf A ->
  agent_wf (request_content A c log b e).1
  /\ refs_kept A (request_content A c log b e).1
  /\ forall r, (request_content A c log b e).2 = Some r ->
               is_Some (deref (request_content A c log b e).1 r).
Proof.
  intros Hwf. unfold request_content.
  destruct (objects A !! c) as [con|] eqn:Hc;
    [|split_and!; [done|by intros r|done]].
  simpl. set (H' := (create_request (content_requestor con) log b e).1).
  assert (c < length (objects A))%nat as Hlt by (by eapply lookup_lt_Some).
  split_and!.
  - intros c' con' Hc'. simpl in Hc'. destruct (decide (c' = c)) as [->|Hne].
    + rewrite list_lookup_insert_eq in Hc' by done. injection Hc' as <-. simpl.
      apply handler_wf_create. by eapply Hwf.
    + rewrite list_lookup_insert_ne in Hc' by done. by eapply Hwf.
  - intros [c' l] Hr. unfold deref in *. simpl in *.
    destruct (decide (c' = c)) as [->|Hne].
    + rewrite list_lookup_insert_eq by done. simpl. rewrite Hc in Hr. simpl in Hr.
      destruct Hr as [req Hr]. exists req. by apply lookup_app_l_Some.
    + by rewrite list_lookup_insert_ne.
  - intros r [= <-]. unfold deref. simpl.
    rewrite list_lookup_insert_eq by done. simpl.
    eexists. by apply list_lookup_middle.
Qed.

Lemma request_log_content_wf A log b e :
  agent_wf A ->
  agent_wf (request_log_content A log b e).1
  /\ refs_kept A (request_log_content A log b e).1
  /\ valid_refs (request_log_content A log b e).1
       (children (request_log_content A log b e).2).
Proof.
  intros Hwf. unfold request_log_content.
  set (f := fun '(A, requests) c =>
              match request_content A c log b e with
              | (A', Some r) => (A', requests ++ [r])
              | (A', None) => (A', requests)
              end).
  assert (forall cs A0 rs0, agent_wf A0 -> valid_refs A0 rs0 ->
            agent_wf (fold_left f cs (A0, rs0)).1
            /\ refs_kept A0 (fold_left f cs (A0, rs0)).1
            /\ valid_refs (fold_left f cs (A0, rs0)).1 (fold_left f cs (A0, rs0)).2) as Hfold.
  { induction cs as [|c cs IH]; intros A0 rs0 Hwf0 Hval0; simpl.
    - split_and!; try done. by intros r.
    - destruct (request_content_wf A0 c log b e Hwf0) as (R1 & R2 & R3).
      destruct (request_content A0 c log b e) as [A1 [r|]] eqn:E; simpl in *.
      + destruct (IH A1 (rs0 ++ [r]) R1) as (I1 & I2 & I3).
        { apply Forall_app. split; [by eapply valid_refs_kept|].
          apply Forall_singleton. by apply R3. }
        split_and!; try done. by eapply refs_kept_trans.
      + destruct (IH A1 rs0 R1) as (I1 & I2 & I3); [by eapply valid_refs_kept|].
        split_and!; try done. by eapply refs_kept_trans. }
  destruct (Hfold (connections A) A [] Hwf) as (F1 & F2 & F3); [by apply Forall_nil|].
  destruct (fold_left f (connections A) (A, [])) as [A' rs]. done.
Qed.

Lemma get_lead_resolved A a :
  agent_wf A -> valid_refs A (children a) -> lead a = None ->
  resolved A a (length (children a)) (get_lead A a).1.1 (get_lead A a).1.2
  /\ (get_lead A a).2 = lead (get_lead A a).1.2.
Proof.
  intros Hwf Hval Hlead.
  pose proof (try_resolve_lead_spec A a (length (children a)) Hwf Hlead Hval (le_n _)) as Hres.
  unfold get_lead. rewrite Hlead.
  by destruct (try_resolve_lead A a (length (children a))) as [A' a'].
Qed.

Lemma resolved_refs_kept A a i A' a' :
  resolved A a i A' a' -> refs_kept A A' /\ (valid_refs A (children a) -> valid_refs A' (children a')).
Proof.
  intros (R1 & R2 & R3 & R4). destruct (lead a') as [x|].
  - destruct R4 as (C1 & C2 & C3 & C4). split.
    + intros r [req Hr]. rewrite C4, Hr. case_bool_decide; by eexists.
    + intros _. rewrite C1. by apply Forall_nil.
  - destruct R4 as [-> C2]. split; [by intros r|].
    intros Hval. rewrite C2. apply Forall_app. split.
    + apply Forall_forall. intros r Hin.
      apply list_elem_of_In, List.filter_In in Hin as [Hin _].
      apply list_elem_of_In in Hin.
      apply (proj1 (Forall_forall _ _) Hval).
      rewrite <- (take_drop i (children a)). apply elem_of_app. by left.
    + by apply Forall_drop.
Qed.

Lemma system_wf_init : system_wf System_init.
Proof. split; [by intros c con Hc|by intros k a Hk]. Qed.

Lemma system_wf_step Y ev Y' :
  system_wf Y -> step Y ev = Ok Y' -> system_wf Y'.
Proof.
  intros [Hwf Hagg] Hstep.
  assert (forall A', agent_wf A' -> refs_kept (agent Y) A' ->
            system_wf {| agent := A'; aggregates := aggregates Y |}) as Hsame.
  { intros A' Hwf' Hk. split; [done|]. intros k a Hka. simpl in *.
    eapply valid_refs_kept; [done|]. by eapply Hagg. }
  destruct ev as [|c|log b e|c id s|c id b records|k]; simpl in Hstep.
  - injection Hstep as <-. apply Hsame.
    + intros c con Hc. simpl in Hc. apply lookup_app_Some in Hc as [Hc|[_ Hc]].
      * by eapply Hwf.
      * destruct (c - length (objects (agent Y)))%nat; [|done].
        injection Hc as <-. apply handler_wf_init.
    + intros r [req Hr]. exists req. unfold deref in *. simpl.
      destruct (objects (agent Y) !! r.1) as [con|] eqn:Hc; [|done].
      by rewrite (lookup_app_l_Some _ _ _ _ Hc).
  - injection Hstep as <-. apply Hsame; [done|by intros r].
  - destruct (request_log_content_wf (agent Y) log b e Hwf) as (R1 & R2 & R3).
    destruct (request_log_content (agent Y) log b e) as [A a]. simpl in *.
    injection Hstep as <-. split; [done|]. simpl. intros k a' Hk.
    apply lookup_app_Some in Hk as [Hk|[_ Hk]].
    + eapply valid_refs_kept; [done|]. by eapply Hagg.
    + destruct (k - length (aggregates Y))%nat; [|done]. by injection Hk as <-.
  - destruct (on_handler (agent Y) c _) as [A|] eqn:Hon; [|done].
    simpl in Hstep. injection Hstep as <-.
    eapply on_handler_wf in Hon as [? ?]; [by apply Hsame|done|].
    intros H H' HwfH [= <-]. split; [by apply handler_wf_set_status|].
    intros l. apply store_kept_set_status.
  - destruct (on_handler (agent Y) c _) as [A|] eqn:Hon; [|done].
    simpl in Hstep. injection Hstep as <-.
    eapply on_handler_wf in Hon as [? ?]; [by apply Hsame|done|].
    intros H H' HwfH Hadd. split; [by eapply handler_wf_add_records|].
    intros l. by eapply store_kept_add_records.
  - destruct (aggregates Y !! k) as [a|] eqn:Hk; [|by injection Hstep as <-].
    destruct (lead a) as [x|] eqn:Hlead.
    + unfold get_lead in Hstep. rewrite Hlead in Hstep. injection Hstep as <-.
      rewrite list_insert_id by done. by destruct Y.
    + destruct (get_lead_resolved (agent Y) a Hwf (Hagg k a Hk) Hlead) as [Hres _].
      destruct (resolved_refs_kept _ _ _ _ _ Hres) as [Hkept Hval].
      destruct Hres as (_ & Hwf' & _).
      destruct (get_lead (agent Y) a) as [[A' a'] ld]. simpl in *.
      injection Hstep as <-. split; [done|]. simpl. intros k' a0 Hk'.
      destruct (decide (k' = k)) as [->|Hne].
      * rewrite list_lookup_insert_eq in Hk' by (by eapply lookup_lt_Some).
        injection Hk' as <-. apply Hval. by eapply Hagg.
      * rewrite list_lookup_insert_ne in Hk' by done.
        eapply valid_refs_kept; [done|]. by eapply Hagg.
Qed.

Lemma system_wf_steps evs Y Y' :
  system_wf Y -> steps Y evs = Ok Y' -> system_wf Y'.
Proof.
  revert Y. induction evs as [|ev evs IH]; intros Y Hwf Hs; simpl in Hs.
  - by injection Hs as <-.
  - destruct (step Y ev) as [Y1|] eqn:E; [|done]. simpl in Hs.
    eapply IH; [|done]. by eapply system_wf_step.
Qed.

(** Once an aggregate has a lead, it keeps it. *)
Lemma lead_kept_step Y ev Y' k a x :
  aggregates Y !! k = Some a -> lead a = Some x -> step Y ev = Ok Y' ->
  exists a', aggregates Y' !! k = Some a' /\ lead a' = Some x.
Proof.
  intros Hk Hlead Hstep.
  destruct ev as [|c|log b e|c id s|c id b records|k']; simpl in Hstep.
  - injection Hstep as <-. by exists a.
  - injection Hstep as <-. by exists a.
  - destruct (request_log_content (agent Y) log b e) as [A a0].
    injection Hstep as <-. exists a. split; [|done]. by apply lookup_app_l_Some.
  - destruct (on_handler (agent Y) c _) as [A|]; [|done].
    simpl in Hstep. injection Hstep as <-. by exists a.
  - destruct (on_handler (agent Y) c _) as [A|]; [|done].
    simpl in Hstep. injection Hstep as <-. by exists a.
  - destruct (aggregates Y !! k') as [a0|] eqn:Hk'; [|injection Hstep as <-; by exists a].
    destruct (get_lead (agent Y) a0) as [[A' a'] ld] eqn:Hget.
    injection Hstep as <-. simpl.
    destruct (decide (k' = k)) as [->|Hne].
    + rewrite Hk in Hk'. injection Hk' as <-.
      unfold get_lead in Hget. rewrite Hlead in Hget. injection Hget as <- <- <-.
      exists a. split; [|done]. apply list_lookup_insert_eq. by eapply lookup_lt_Some.
    + exists a. by rewrite list_lookup_insert_ne.
Qed.

Lemma lead_kept_steps evs Y Y' k a x :
  aggregates Y !! k = Some a -> lead a = Some x -> steps Y evs = Ok Y' ->
  exists a', aggregates Y' !! k = Some a' /\ lead a' = Some x.
Proof.
  revert Y a. induction evs as [|ev evs IH]; intros Y a Hk Hlead Hs; simpl in Hs.
  - injection Hs as <-. by exists a.
  - destruct (step Y ev) as [Y1|] eqn:E; [|done]. simpl in Hs.
    destruct (lead_kept_step Y ev Y1 k a x Hk Hlead E) as (a1 & Hk1 & Hl1).
    by eapply IH.
Qed.

(** *** Lead election *)

(** The claim of the specification that electing a lead sends something to
    the proxy of every other child. *)
Definition cancellation_sent (A A' : LfbAgent) (a : AgentContentRequest) (x : request_ref)
  : Prop :=
  forall r, r ∈ children a -> r <> x ->
    exists con con', objects A !! r.1 = Some con /\ objects A' !! r.1 = Some con'
                     /\ sent con' <> sent con.

(** The claim that every other child ends DROPPED. *)
Definition others_dropped (A' : LfbAgent) (a : AgentContentRequest) (x : request_ref) : Prop :=
  forall r, r ∈ children a -> r <> x -> status_of A' r = Some DROPPED.

Definition run (evs : list Event) : System :=
  match steps System_init evs with
  | Ok Y => Y
  | Raise _ => System_init
  end.

(** Scenario S5: three proxies, the second one answers first. *)
Definition demo_fan_out : list Event :=
  [ EvAccept; EvAccept; EvAccept; EvRequest demo_log 0 4; EvStatus 1 0 RECEIVING ].

Definition demo_aggregate : AgentContentRequest :=
  {| children := [(0, 0); (1, 0); (2, 0)]%nat; lead := None |}.

Example demo_fan_out_state :
  steps System_init demo_fan_out = Ok (run demo_fan_out)
  /\ aggregates (run demo_fan_out) = [demo_aggregate]
  /\ map (status_of (agent (run demo_fan_out))) (children demo_aggregate)
     = [Some PENDING; Some RECEIVING; Some PENDING]
  /\ map sent (objects (agent (run demo_fan_out)))
     = [ [GetLogContentNetworkMessage demo_log 0 0 4];
         [GetLogContentNetworkMessage demo_log 0 0 4];
         [GetLogContentNetworkMessage demo_log 0 0 4] ].
Proof. split_and!; vm_compute; reflexivity. Qed.

Example demo_fan_out_lead :
  let '(A', a', ld) := get_lead (agent (run demo_fan_out)) demo_aggregate in
  ld = Some (1, 0)%nat /\ a' = {| children := []; lead := Some (1, 0)%nat |}
  /\ map (status_of A') (children demo_aggregate)
     = [Some DROPPED; Some RECEIVING; Some DROPPED]
  /\ map sent (objects A') = map sent (objects (agent (run demo_fan_out))).
Proof. vm_compute. split_and!; reflexivity. Qed.

(** Later data for a dropped child is ignored; the lead's is queued. *)
Example demo_fan_out_after :
  let A' := (get_lead (agent (run demo_fan_out)) demo_aggregate).1.1 in
  on_handler A' 0 (fun H => add_records H 0 0 ["late"]) = Ok A'
  /\ (content <$> deref A' (0, 0)%nat) = Some []
  /\ match on_handler A' 1 (fun H => add_records H 0 0 ["x"]) with
     | Ok A2 => content <$> deref A2 (1, 0)%nat
     | Raise _ => None
     end = Some ["x"].
Proof. split_and!; vm_compute; reflexivity. Qed.

(** A child that had already CLOSED when another is elected stays CLOSED:
    its handler no longer knows its id. *)
Definition demo_two_closed : list Event :=
  [ EvAccept; EvAccept; EvRequest demo_log 0 4; EvStatus 0 0 RECEIVING; EvStatus 0 0 CLOSED;
    EvStatus 1 0 RECEIVING; EvStatus 1 0 CLOSED ].

Example demo_two_closed_lead :
  let a := {| children := [(0, 0); (1, 0)]%nat; lead := None |} in
  aggregates (run demo_two_closed) = [a]
  /\ (get_lead (agent (run demo_two_closed)) a).2 = Some (1, 0)%nat
  /\ status_of (get_lead (agent (run demo_two_closed)) a).1.1 (0, 0)%nat = Some CLOSED
  /\ ~ others_dropped (get_lead (agent (run demo_two_closed)) a).1.1 a (1, 0)%nat.
Proof.
  split_and!; [vm_compute; reflexivity..|].
  intros Hd. specialize (Hd (0, 0)%nat). vm_compute in Hd.
  discriminate Hd; [by left|congruence].
Qed.

(** The claim as stated fails.  Of three proxies the first has already
    sent its whole answer (CLOSED), the second is silent, the third has just
    announced the log: the third is elected, nothing is sent to the other
    two, and the first stays CLOSED. *)
Definition demo_late_election : list Event :=
  [ EvAccept; EvAccept; EvAccept; EvRequest demo_log 0 4;
    EvStatus 0 0 RECEIVING; EvStatus 0 0 CLOSED; EvStatus 2 0 RECEIVING ].

Lemma election_sends_nothing :
  let A := agent (run demo_late_election) in
  aggregates (run demo_late_election) = [demo_aggregate]
  /\ (get_lead A demo_aggregate).2 = Some (2, 0)%nat
  /\ map (status_of (get_lead A demo_aggregate).1.1) (children demo_aggregate)
     = [Some CLOSED; Some DROPPED; Some RECEIVING]
  /\ ~ cancellation_sent A (get_lead A demo_aggregate).1.1 demo_aggregate (2, 0)%nat
  /\ ~ others_dropped (get_lead A demo_aggregate).1.1 demo_aggregate (2, 0)%nat.
Proof.
  split_and!; [vm_compute; reflexivity..| |].
  - intros Hc. destruct (Hc (1, 0)%nat) as (con & con' & H1 & H2 & Hne).
    + right. by left.
    + congruence.
    + vm_compute in H1, H2. injection H1 as <-. injection H2 as <-. by apply Hne.
  - intros Hd. specialize (Hd (0, 0)%nat). vm_compute in Hd.
    discriminate Hd; [by left|congruence].
Qed.

Lemma is_dead_iff a : is_dead a = true <-> lead a = None /\ children a = [].
Proof.
  unfold is_dead. rewrite andb_true_iff, !bool_decide_eq_true.
  split; intros [H1 H2]; split; try done.
  - by apply nil_length_inv.
  - by rewrite H2.
Qed.

(** C3, as amended. In every state the agent can reach, for every
    aggregate request: [get_lead] returns the lead the aggregate already
    has, without changing anything, or else elects the first child found
    RECEIVING or CLOSED scanning from the newest to the oldest, so at most
    one child is ever elected and it stays the lead whatever happens next.
    Upon election the aggregate forgets its children, the lead is left as
    it is, and every other child that was still PENDING or RECEIVING is set
    to DROPPED in the handler of its connection, while a child already
    CLOSED, NOT_FOUND or DROPPED keeps its status; no message is sent to
    any proxy (sockets, registry, collector and backend are untouched).
    When no child is elected, nothing changes but the aggregate, which
    keeps exactly its PENDING children.  The aggregate is dead iff it has
    no lead and no children. *)
Theorem lead_election (evs more : list Event) (Y Y2 : System) (k : nat)
    (a : AgentContentRequest) :
  steps System_init evs = Ok Y ->
  aggregates Y !! k = Some a ->
  steps Y (EvGetLead k :: more) = Ok Y2 ->
  let A := agent Y in
  let A' := (get_lead A a).1.1 in
  let a' := (get_lead A a).1.2 in
  let ld := (get_lead A a).2 in
  lead a' = ld
  /\ (forall x, lead a = Some x -> ld = Some x /\ A' = A /\ a' = a)
  /\ (lead a = None -> ld = elected A (children a))
  /\ (forall x, lead a = None -> ld = Some x ->
        children a' = [] /\ x ∈ children a /\ has_found A x = true
        /\ deref A' x = deref A x
        /\ (forall r, r ∈ children a -> r <> x ->
              exists req, deref A r = Some req /\ deref A' r = Some (dropped req))
        /\ (forall r, r ∉ children a -> deref A' r = deref A r)
        /\ same_but_handlers A' A)
  /\ (lead a = None -> ld = None ->
        A' = A /\ children a' = List.filter (is_pending A) (children a))
  /\ (is_dead a' = true <-> lead a' = None /\ children a' = [])
  /\ (forall x, ld = Some x -> exists a2, aggregates Y2 !! k = Some a2 /\ lead a2 = Some x).
Proof.
  intros Hevs Hk Hmore A A' a' ld.
  assert (system_wf Y) as [Hwf Hagg]
    by (eapply system_wf_steps; [apply system_wf_init|done]).
  pose proof (Hagg k a Hk) as Hval. fold A in Hwf, Hval.
  assert (lead a' = ld /\ (lead a = None -> resolved A a (length (children a)) A' a'))
    as [Hld Hres].
  { unfold a', ld, A'. destruct (lead a) as [x|] eqn:Hlead.
    - unfold get_lead. by rewrite Hlead.
    - destruct (get_lead_resolved A a Hwf Hval Hlead) as [? ?]. done. }
  split_and!.
  - done.
  - intros x Hlead. unfold ld, A', a', get_lead. by rewrite Hlead.
  - intros Hlead. destruct (Hres Hlead) as (R1 & _). rewrite firstn_all in R1. congruence.
  - intros x Hlead Hx. destruct (Hres Hlead) as (R1 & R2 & R3 & R4).
    rewrite Hld, Hx in R4. destruct R4 as (C1 & C2 & C3 & C4).
    split_and!; try done.
    + rewrite C4. rewrite bool_decide_eq_false_2; [done|]. by intros [_ ?].
    + intros r Hin Hne.
      destruct (proj1 (Forall_forall _ _) Hval r Hin) as [req Hreq].
      exists req. split; [done|]. rewrite C4, Hreq. by rewrite bool_decide_eq_true_2.
    + intros r Hnin. rewrite C4. rewrite bool_decide_eq_false_2; [done|]. by intros [? _].
  - intros Hlead Hx. destruct (Hres Hlead) as (R1 & R2 & R3 & R4).
    rewrite Hld, Hx in R4. destruct R4 as [C1 C2]. split; [done|].
    by rewrite C2, firstn_all, drop_all, app_nil_r.
  - apply is_dead_iff.
  - intros x Hx. simpl in Hmore. rewrite Hk in Hmore.
    fold A in Hmore. destruct (get_lead A a) as [[A0 a0] ld0] eqn:Hget.
    simpl in Hmore. unfold a', ld in *. simpl in *.
    eapply lead_kept_steps; [|exact (eq_trans Hld Hx)|exact Hmore].
    simpl. apply list_lookup_insert_eq. by eapply lookup_lt_Some.
Qed.

Lemma lead_election_witness :
  let A := agent (run demo_fan_out) in
  let a := demo_aggregate in
  let A' := (get_lead A a).1.1 in
  let a' := (get_lead A a).1.2 in
  let ld := (get_lead A a).2 in
  lead a' = ld
  /\ (forall x, lead a = Some x -> ld = Some x /\ A' = A /\ a' = a)
  /\ (lead a = None -> ld = elected A (children a))
  /\ (forall x, lead a = None -> ld = Some x ->
        children a' = [] /\ x ∈ children a /\ has_found A x = true
        /\ deref A' x = deref A x
        /\ (forall r, r ∈ children a -> r <> x ->
              exists req, deref A r = Some req /\ deref A' r = Some (dropped req))
        /\ (forall r, r ∉ children a -> deref A' r = deref A r)
        /\ same_but_handlers A' A)
  /\ (lead a = None -> ld = None ->
        A' = A /\ children a' = List.filter (is_pending A) (children a))
  /\ (is_dead a' = true <-> lead a' = None /\ children a' = [])
  /\ (forall x, ld = Some x ->
        exists a2, aggregates (run (demo_fan_out ++ [EvGetLead 0; EvStatus 0 0 RECEIVING;
                                                      EvGetLead 0])) !! 0%nat = Some a2
                   /\ lead a2 = Some x).
Proof.
  apply (lead_election demo_fan_out [EvStatus 0 0 RECEIVING; EvGetLead 0]
           (run demo_fan_out)
           (run (demo_fan_out ++ [EvGetLead 0; EvStatus 0 0 RECEIVING; EvGetLead 0]))
           0 demo_aggregate).
  - vm_compute. reflexivity.
  - vm_compute. reflexivity.
  - vm_compute. reflexivity.
Defined.

(** *** Receiving: [AgentMessageDeserializer] and the event loop *)

Section EventLoop.
Context (codec : PbCodec).

(** What [deserialize] does with the message its [from_raw] call returned.
    The result is the answer to send back, if any. *)
Definition handle_message (A : LfbAgent) (c : nat) (pmessage : NetworkMessage)
  : result (LfbAgent * option NetworkMessage) :=
  match pmessage with
  | AddRecordNetworkMessage record =>
      let '(col, b) := collect_record (collector A) (backend A) record in
      Ok (with_collector A col b, None)
  | GetLogPositionNetworkMessage log =>
      let position := get_log_position (collector A) log in
      Ok (A, Some (LogPositionResponseNetworkMessage log position))
  | LogContentStatusNetworkMessage request_id status =>
      let s := match status with
               | FOUND_AND_BEGIN_SEND => RECEIVING
               | CS_NOT_FOUND => NOT_FOUND
               | END_SEND => CLOSED
               end in
      A' ← on_handler A c (fun H => Ok (set_status H request_id s));
      Ok (A', None)
  | LogContentDataNetworkMessage request_id begin_record _ contents =>
      A' ← on_handler A c (fun H => add_records H request_id begin_record contents);
      Ok (A', None)
  | _ => Ok (A, None)
  end.

(** [AgentMessageDeserializer.deserialize]: the four type codes an agent
    accepts select the [from_raw] of their kind; any other is an error. *)
Definition deserialize (A : LfbAgent) (c : nat) (message : RawNetworkMessage)
  : result (LfbAgent * option NetworkMessage) :=
  let type := raw_get_type message in
  if (type =? ADD_RECORD) || (type =? GET_LOG_POSITION)
     || (type =? LOG_CONTENT_STATUS) || (type =? LOG_CONTENT_DATA)
  then pmessage ← from_raw codec type message; handle_message A c pmessage
  else Raise (ValueError "incorrect message type").

Definition set_connection (A : LfbAgent) (c : nat) (con : ProxyConnection) : LfbAgent :=
  with_objects A (<[c := con]> (objects A)).

(** An attempt to read [n] more bytes from the socket of [con]: they are
    there, or the proxy has closed its end, or the read would block. *)
Inductive read_result := ReadDone (data rest : bytes) | ReadClosed | ReadBlocked.

Definition socket_read (con : ProxyConnection) (n : nat) : read_result :=
  if (n <=? length (incoming con))%nat
  then ReadDone (take n (incoming con)) (drop n (incoming con))
  else if remote_closed con then ReadClosed else ReadBlocked.

(** The second half of [NetworkConnection.receive]: the body of the message
    whose header is [meta]. *)
Definition receive_body (A : LfbAgent) (c : nat) (con : ProxyConnection)
    (meta : NetworkMessageMeta) : LfbAgent * result bool :=
  match socket_read con (Z.to_nat (meta_length meta)) with
  | ReadDone contents rest =>
      let A1 := set_connection A c (with_socket con rest (Some meta)) in
      match deserialize A1 c {| raw_meta := meta; raw_contents := contents |} with
      | Raise e => (A1, Raise e)
      | Ok (A2, resp) =>
          match objects A2 !! c with
          | None => (A2, Ok true)
          | Some con2 =>
              let con3 := match resp with
                          | Some m => send con2 m
                          | None => con2
                          end in
              (set_connection A2 c (with_socket con3 (incoming con3) None), Ok true)
          end
      end
  | ReadClosed => (set_connection A c (with_socket con [] (Some meta)), Raise ConnectionError)
  | ReadBlocked => (set_connection A c (with_socket con (incoming con) (Some meta)), Ok false)
  end.

(** [NetworkConnection.receive].  A header of which only a part has
    arrived makes the source wait for the rest inside [read]; here the call
    returns [False] with the bytes left in place. *)
Definition receive (A : LfbAgent) (c : nat) : LfbAgent * result bool :=
  match objects A !! c with
  | None => (A, Ok false)
  | Some con =>
      match current_message con with
      | Some meta => receive_body A c con meta
      | None =>
          match socket_read con 5 with
          | ReadDone header rest =>
              receive_body A c (with_socket con rest None) (NetworkMessageMeta_init header)
          | ReadClosed => (set_connection A c (with_socket con [] None), Raise ConnectionError)
          | ReadBlocked => (A, Ok false)
          end
      end
  end.

(** [ProxyConnection.receive_messages]: [while self.__connection.receive(): pass].
    Every message read uses up its bytes, which bounds the iterations. *)
Fixpoint receive_loop (fuel : nat) (A : LfbAgent) (c : nat) : LfbAgent * option exn :=
  match fuel with
  | O => (A, None)
  | S fuel' =>
      match receive A c with
      | (A', Ok true) => receive_loop fuel' A' c
      | (A', Ok false) => (A', None)
      | (A', Raise e) => (A', Some e)
      end
  end.

Definition pending_reads (A : LfbAgent) (c : nat) : nat :=
  match objects A !! c with
  | None => 0
  | Some con =>
      length (incoming con) + match current_message con with Some _ => 1 | None => 0 end
  end.

Definition receive_messages (A : LfbAgent) (c : nat) : LfbAgent * option exn :=
  receive_loop (S (pending_reads A c)) A c.

(** The body of [handle_clients]: [for con in self.__connections], the
    list being changed while it is iterated, [i] is the iterator's index. *)
Fixpoint handle_clients_for (fuel : nat) (A : LfbAgent) (i : nat) : LfbAgent * option exn :=
  match fuel with
  | O => (A, None)
  | S fuel' =>
      match connections A !! i with
      | None => (A, None)
      | Some c =>
          match receive_messages A c with
          | (A', None) => handle_clients_for fuel' A' (S i)
          | (A', Some ConnectionError) =>
              handle_clients_for fuel'
                (with_connections A' (remove_first c (connections A'))) (S i)
          | (A', Some e) => (A', Some e)
          end
      end
  end.

(** One turn of the [while True] of [handle_clients]: the agent goes to
    sleep before the next turn, or the process exits. *)
Inductive turn := Sleeps (A : LfbAgent) | Exits (code : Z).

Definition handle_clients_turn (A : LfbAgent) : turn :=
  match handle_clients_for (length (connections A)) A 0 with
  | (A', None) => Sleeps A'
  | (_, Some e) => Exits 1
  end.

(** A connection with nothing to read. *)
Definition quiet (con : ProxyConnection) : Prop :=
  incoming con = [] /\ remote_closed con = false /\ current_message con = None.

(** Handling connection [c] leaves the registry and the other connections
    alone. *)
Definition others_same (A' A : LfbAgent) (c : nat) : Prop :=
  connections A' = connections A
  /\ forall c', c' <> c -> objects A' !! c' = objects A !! c'.

Lemma others_same_refl A c : others_same A A c.
Proof. by split. Qed.

Lemma others_same_trans A1 A2 A3 c :
  others_same A1 A2 c -> others_same A2 A3 c -> others_same A1 A3 c.
Proof.
  intros [E1 F1] [E2 F2]. split; [congruence|].
  intros c' Hne. by rewrite F1, F2.
Qed.

Lemma others_same_set_connection A c con : others_same (set_connection A c con) A c.
Proof. split; [done|]. intros c' Hne. simpl. by apply list_lookup_insert_ne. Qed.

Lemma others_same_on_handler A c f A' :
  on_handler A c f = Ok A' -> others_same A' A c.
Proof.
  unfold on_handler. destruct (objects A !! c) as [con|]; [|by intros [= <-]].
  destruct (f _) as [H|]; [|done]. simpl. intros [= <-].
  split; [done|]. intros c' Hne. simpl. by apply list_lookup_insert_ne.
Qed.

Lemma others_same_handle_message A c m A' resp :
  handle_message A c m = Ok (A', resp) -> others_same A' A c.
Proof.
  destruct m; simpl.
  - destruct (collect_record _ _ _). by intros [= <- _].
  - by intros [= <- _].
  - by intros [= <- _].
  - by intros [= <- _].
  - destruct (on_handler _ _ _) as [A1|] eqn:E; [|done]. simpl. intros [= <- _].
    by eapply others_same_on_handler.
  - destruct (on_handler _ _ _) as [A1|] eqn:E; [|done]. simpl. intros [= <- _].
    by eapply others_same_on_handler.
Qed.

Lemma others_same_deserialize A c message A' resp :
  deserialize A c message = Ok (A', resp) -> others_same A' A c.
Proof.
  unfold deserialize. destruct (_ || _); [|done].
  destruct (from_raw _ _ _) as [m|]; [|done]. simpl.
  apply others_same_handle_message.
Qed.

Lemma others_same_receive_body A c con meta :
  others_same (receive_body A c con meta).1 A c.
Proof.
  unfold receive_body. destruct (socket_read con _).
  - destruct (deserialize _ _ _) as [[A2 resp]|] eqn:E; simpl.
    + apply others_same_deserialize in E.
      assert (others_same A2 A c) as H2
        by (eapply others_same_trans; [done|apply others_same_set_connection]).
      destruct (objects A2 !! c); simpl; [|done].
      eapply others_same_trans; [apply others_same_set_connection|done].
    + apply others_same_set_connection.
  - apply others_same_set_connection.
  - apply others_same_set_connection.
Qed.

Lemma others_same_receive A c : others_same (receive A c).1 A c.
Proof.
  unfold receive. destruct (objects A !! c) as [con|]; [|apply others_same_refl].
  destruct (current_message con); [apply others_same_receive_body|].
  destruct (socket_read con 5); simpl.
  - apply others_same_receive_body.
  - apply others_same_set_connection.
  - apply others_same_refl.
Qed.

Lemma others_same_receive_loop fuel A c : others_same (receive_loop fuel A c).1 A c.
Proof.
  revert A. induction fuel as [|fuel IH]; intros A; simpl; [apply others_same_refl|].
  pose proof (others_same_receive A c) as Hr.
  destruct (receive A c) as [A' [[|]|e]]; simpl in *; try done.
  eapply others_same_trans; [apply IH|done].
Qed.

Lemma quiet_receive_messages A c con :
  objects A !! c = Some con -> quiet con -> receive_messages A c = (A, None).
Proof.
  intros Hc (Hin & Hcl & Hcur). unfold receive_messages. simpl.
  unfold receive. rewrite Hc, Hcur. unfold socket_read. by rewrite Hin, Hcl.
Qed.

Definition all_quiet (A : LfbAgent) (cs : list nat) : Prop :=
  Forall (fun c => exists con, objects A !! c = Some con /\ quiet con) cs.

(** Connections with nothing to read are passed over. *)
Lemma handle_clients_for_quiet fuel A i :
  all_quiet A (drop i (connections A)) ->
  handle_clients_for fuel A i = (A, None).
Proof.
  revert i. induction fuel as [|fuel IH]; intros i Hq; [done|]. simpl.
  destruct (connections A !! i) as [c|] eqn:Hi; [|done].
  rewrite (drop_S _ _ _ Hi) in Hq. apply Forall_cons in Hq as [(con & Hc & Hqc) Hq].
  rewrite (quiet_receive_messages A c con Hc Hqc). by apply IH.
Qed.

Lemma handle_clients_for_skip_quiet fuel A pre rest :
  connections A = pre ++ rest -> all_quiet A pre ->
  handle_clients_for (length pre + fuel) A 0
  = handle_clients_for fuel A (length pre).
Proof.
  intros Hcs Hq.
  assert (forall done todo, pre = done ++ todo ->
            handle_clients_for (length todo + fuel) A (length done)
            = handle_clients_for fuel A (length pre)) as Hgen.
  { intros done todo. revert done. induction todo as [|c todo IH]; intros done Hpre.
    - rewrite app_nil_r in Hpre. by subst.
    - simpl. assert (connections A !! length done = Some c) as Hi.
      { rewrite Hcs, Hpre, <- app_assoc. by apply list_lookup_middle. }
      rewrite Hi.
      assert (exists con, objects A !! c = Some con /\ quiet con) as (con & Hc & Hqc).
      { rewrite Hpre in Hq. apply Forall_app in Hq as [_ Hq]. by apply Forall_cons in Hq as [? _]. }
      rewrite (quiet_receive_messages A c con Hc Hqc).
      specialize (IH (done ++ [c])). rewrite length_app in IH. simpl in IH.
      rewrite Nat.add_1_r in IH. apply IH. by rewrite <- app_assoc. }
  by apply (Hgen [] pre).
Qed.

(** Handling a message leaves the socket of its connection as it is. *)
Lemma socket_on_handler A c f A' c' :
  on_handler A c f = Ok A' ->
  socket_of <$> objects A' !! c' = socket_of <$> objects A !! c'.
Proof.
  unfold on_handler. destruct (objects A !! c) as [con|] eqn:Hc; [|by intros [= <-]].
  destruct (f _) as [H|]; [|done]. simpl. intros [= <-]. simpl.
  destruct (decide (c' = c)) as [->|Hne].
  - rewrite list_lookup_insert_eq by (by eapply lookup_lt_Some). by rewrite Hc.
  - by rewrite list_lookup_insert_ne.
Qed.

Lemma socket_deserialize A c message A' resp c' :
  deserialize A c message = Ok (A', resp) ->
  socket_of <$> objects A' !! c' = socket_of <$> objects A !! c'.
Proof.
  unfold deserialize. destruct (_ || _); [|done].
  destruct (from_raw _ _ _) as [m|]; [|done]. simpl.
  destruct m; simpl.
  - destruct (collect_record _ _ _). by intros [= <- _].
  - by intros [= <- _].
  - by intros [= <- _].
  - by intros [= <- _].
  - destruct (on_handler _ _ _) as [A1|] eqn:E; [|done]. simpl. intros [= <- _].
    by eapply socket_on_handler.
  - destruct (on_handler _ _ _) as [A1|] eqn:E; [|done]. simpl. intros [= <- _].
    by eapply socket_on_handler.
Qed.

Lemma receive_body_true A c con meta A' :
  objects A !! c = Some con ->
  receive_body A c con meta = (A', Ok true) ->
  (pending_reads A' c <= length (incoming con))%nat.
Proof.
  intros Hc. unfold receive_body, socket_read.
  destruct (_ <=? _)%nat; [|by destruct (remote_closed con)].
  destruct (deserialize _ _ _) as [[A2 resp]|] eqn:E; [|done].
  pose proof (socket_deserialize _ _ _ _ _ c E) as Hs. simpl in Hs.
  rewrite list_lookup_insert_eq in Hs by (by eapply lookup_lt_Some). simpl in Hs.
  destruct (objects A2 !! c) as [con2|] eqn:Hc2; [|done].
  injection Hs as Hin _ _ _. intros [= <-].
  unfold pending_reads. simpl.
  rewrite list_lookup_insert_eq by (by eapply lookup_lt_Some). simpl.
  assert (incoming (match resp with Some m => send con2 m | None => con2 end)
          = incoming con2) as -> by (by destruct resp).
  rewrite Hin, length_drop. lia.
Qed.

Lemma receive_true_decreases A c A' :
  receive A c = (A', Ok true) -> (pending_reads A' c < pending_reads A c)%nat.
Proof.
  unfold receive. destruct (objects A !! c) as [con|] eqn:Hc; [|done].
  unfold pending_reads at 2. rewrite Hc.
  destruct (current_message con) as [meta|] eqn:Hcur.
  - intros Hb. apply receive_body_true in Hb; [lia|done].
  - unfold socket_read. destruct (5 <=? length (incoming con))%nat eqn:Hlen;
      [|by destruct (remote_closed con)].
    apply Nat.leb_le in Hlen. intros Hb.
    unfold receive_body in Hb. unfold receive_body, socket_read in Hb.
    cbn [incoming with_socket remote_closed] in Hb.
    destruct (_ <=? _)%nat in Hb; [|by destruct (remote_closed con)].
    destruct (deserialize _ _ _) as [[A2 resp]|] eqn:E; [|done].
    pose proof (socket_deserialize _ _ _ _ _ c E) as Hs. simpl in Hs.
    rewrite list_lookup_insert_eq in Hs by (by eapply lookup_lt_Some). simpl in Hs.
    destruct (objects A2 !! c) as [con2|] eqn:Hc2; [|done].
    injection Hs as Hin _ _ _. injection Hb as <-.
    unfold pending_reads. simpl.
    rewrite list_lookup_insert_eq by (by eapply lookup_lt_Some). simpl.
    assert (incoming (match resp with Some m => send con2 m | None => con2 end)
            = incoming con2) as -> by (by destruct resp).
    rewrite Hin, !length_drop. lia.
Qed.

(** [receive_messages] ends because [receive] returned [False] or raised,
    never for want of fuel: more fuel gives the same result. *)
Lemma receive_loop_enough fuel extra A c :
  (pending_reads A c < fuel)%nat ->
  receive_loop (fuel + extra) A c = receive_loop fuel A c.
Proof.
  revert A. induction fuel as [|fuel IH]; intros A Hlt; [lia|]. simpl.
  destruct (receive A c) as [A' [[|]|e]] eqn:E; try done.
  apply IH. apply receive_true_decreases in E. lia.
Qed.

Lemma remove_first_middle c pre post :
  c ∉ pre -> remove_first c (pre ++ c :: post) = pre ++ post.
Proof.
  induction pre as [|x pre IH]; intros Hnin; simpl.
  - by rewrite decide_True.
  - apply not_elem_of_cons in Hnin as [Hne Hnin].
    rewrite decide_False by done. by rewrite IH.
Qed.

Lemma length_remove_first c l : (length (remove_first c l) <= length l)%nat.
Proof.
  induction l as [|x l IH]; simpl; [done|]. case_decide; simpl; lia.
Qed.

(** The loop over the registry ends because the iterator is exhausted or an
    exception escapes, never for want of fuel. *)
Lemma handle_clients_for_enough fuel extra A i :
  (length (connections A) <= fuel + i)%nat ->
  handle_clients_for (fuel + extra) A i = handle_clients_for fuel A i.
Proof.
  revert A i. induction fuel as [|fuel IH]; intros A i Hlen.
  - assert (connections A !! i = None) as Hi by (apply lookup_ge_None; lia).
    destruct extra; simpl; [done|by rewrite Hi].
  - simpl. destruct (connections A !! i) as [c|] eqn:Hi; [|done].
    pose proof (others_same_receive_loop (S (pending_reads A c)) A c) as [Hcon _].
    fold (receive_messages A c) in Hcon.
    destruct (receive_messages A c) as [A' [e|]]; simpl in Hcon.
    + destruct e; try done. apply IH. simpl.
      pose proof (length_remove_first c (connections A')). rewrite Hcon in *. lia.
    + apply IH. rewrite Hcon. lia.
Qed.

(** A type code the agent does not accept is a ValueError, whatever the
    contents. *)
Lemma deserialize_bad_type A c message :
  raw_get_type message <> ADD_RECORD -> raw_get_type message <> GET_LOG_POSITION ->
  raw_get_type message <> LOG_CONTENT_STATUS -> raw_get_type message <> LOG_CONTENT_DATA ->
  deserialize A c message = Raise (ValueError "incorrect message type").
Proof.
  intros H1 H2 H3 H4. unfold deserialize.
  apply Z.eqb_neq in H1, H2, H3, H4. by rewrite H1, H2, H3, H4.
Qed.

(** So is a content batch that does not begin where the previous one
    ended, or that comes after the last requested record. *)
Lemma deserialize_out_of_order A c con l req message id b e contents :
  objects A !! c = Some con ->
  requests (content_requestor con) !! id = Some l ->
  store (content_requestor con) !! l = Some req ->
  raw_get_type message = LOG_CONTENT_DATA ->
  from_raw codec LOG_CONTENT_DATA message = Ok (LogContentDataNetworkMessage id b e contents) ->
  b <> next_record_ind req \/ got_all_requested_records req = true ->
  exists msg, deserialize A c message = Raise (ValueError msg).
Proof.
  intros Hc Hid Hl Hty Hraw Hbad. unfold deserialize. rewrite Hty, Hraw. simpl.
  unfold on_handler. rewrite Hc.
  destruct (add_records_reject (content_requestor con) id l req b contents Hid Hl)
    as [msg Hr]; [tauto|].
  rewrite Hr. by exists msg.
Qed.

(** A whole frame at the head of the socket on which [deserialize] raises:
    [receive_messages] raises the same. *)
Lemma receive_messages_first_frame A c con header body rest e :
  objects A !! c = Some con -> current_message con = None ->
  incoming con = header ++ body ++ rest ->
  length header = 5%nat ->
  length body = Z.to_nat (meta_length (NetworkMessageMeta_init header)) ->
  deserialize (set_connection A c (with_socket con rest (Some (NetworkMessageMeta_init header))))
    c {| raw_meta := NetworkMessageMeta_init header; raw_contents := body |} = Raise e ->
  (receive_messages A c).2 = Some e.
Proof.
  intros Hc Hcur Hin Hh Hb Hd. unfold receive_messages. simpl.
  unfold receive. rewrite Hc, Hcur. unfold socket_read.
  rewrite Hin, length_app, Hh. simpl Nat.leb.
  rewrite take_app_length', drop_app_length' by done.
  unfold receive_body, socket_read. cbn [incoming with_socket remote_closed].
  rewrite <- Hb, length_app.
  assert ((length body <=? length body + length rest)%nat = true) as ->
    by (apply Nat.leb_le; lia).
  rewrite take_app_length, drop_app_length.
  unfold with_socket at 1. cbn [content_requestor remote_closed sent with_socket].
  unfold with_socket in Hd. by rewrite Hd.
Qed.

Lemma turn_with_one_raise (A A1 : LfbAgent) (pre post : list nat) (c : nat) (e : exn) :
  connections A = pre ++ c :: post ->
  NoDup (connections A) ->
  all_quiet A (pre ++ post) ->
  receive_messages A c = (A1, Some e) ->
  (e = ConnectionError ->
     handle_clients_turn A = Sleeps (with_connections A1 (pre ++ post)))
  /\ (e <> ConnectionError -> handle_clients_turn A = Exits 1).
Proof.
  intros Hcs Hnd Hq Hrecv.
  assert (handle_clients_for (length (connections A)) A 0
          = handle_clients_for (S (length post)) A (length pre)) as Hskip.
  { rewrite Hcs, length_app. cbn [length].
    apply (handle_clients_for_skip_quiet _ A pre (c :: post) Hcs).
    by apply Forall_app in Hq as [? _]. }
  assert (connections A !! length pre = Some c) as Hi
    by (rewrite Hcs; by apply list_lookup_middle).
  unfold handle_clients_turn. rewrite Hskip. simpl. rewrite Hi, Hrecv.
  split.
  - intros ->.
    pose proof (others_same_receive_loop (S (pending_reads A c)) A c) as [Hcon Hobj].
    fold (receive_messages A c) in Hcon, Hobj. rewrite Hrecv in Hcon, Hobj. simpl in *.
    rewrite Hcs in Hnd. apply NoDup_app in Hnd as (_ & Hpre & Hnd).
    apply NoDup_cons in Hnd as [Hpost _].
    assert (c ∉ pre) as Hnpre by (intros Hin; eapply Hpre; [done|by left]).
    rewrite Hcon, Hcs, remove_first_middle by done.
    rewrite handle_clients_for_quiet; [done|]. simpl.
    apply Forall_drop, Forall_forall. intros c' Hin.
    destruct (proj1 (Forall_forall _ _) Hq c' Hin) as (con & Hc' & Hqc').
    exists con. split; [|done]. rewrite Hobj; [done|].
    intros ->. apply elem_of_app in Hin as [?|?]; done.
  - intros Hne. by destruct e.
Qed.

(** The type codes [deserialize] accepts. *)
Definition accepted_type (type : Z) : Prop :=
  type = ADD_RECORD \/ type = GET_LOG_POSITION \/ type = LOG_CONTENT_STATUS
  \/ type = LOG_CONTENT_DATA.

(** C8, as amended. Wherever the loop over the registry stands, when
    [receive_messages] on the connection it visits raises ConnectionError,
    that connection alone is removed from the registry and the loop goes
    on with the next index; when it raises anything else, the exception
    escapes the loop.  So in a turn in which the other connections have
    nothing to read, a ConnectionError ends with the agent going to sleep
    before the next turn, the other connections still registered, in
    order, and any other exception ends with the whole agent process
    exiting with status 1.  A protocol violation is of the second kind: a
    frame whose type code the agent does not accept raises ValueError, and
    the process exits. *)
Theorem connection_error_handling (A A1 : LfbAgent) (i c : nat) (e : exn) :
  connections A !! i = Some c ->
  receive_messages A c = (A1, Some e) ->
  (e = ConnectionError -> forall fuel,
     handle_clients_for (S fuel) A i
     = handle_clients_for fuel
         (with_connections A1 (remove_first c (connections A))) (S i))
  /\ (e <> ConnectionError -> forall fuel, handle_clients_for (S fuel) A i = (A1, Some e))
  /\ (forall pre post,
        connections A = pre ++ c :: post -> NoDup (connections A) ->
        all_quiet A (pre ++ post) ->
        (e = ConnectionError ->
           handle_clients_turn A = Sleeps (with_connections A1 (pre ++ post))
           /\ pre ++ post = remove_first c (connections A))
        /\ (e <> ConnectionError -> handle_clients_turn A = Exits 1)
        /\ (forall con header body rest,
              objects A !! c = Some con -> current_message con = None ->
              incoming con = header ++ body ++ rest ->
              length header = 5%nat ->
              length body = Z.to_nat (meta_length (NetworkMessageMeta_init header)) ->
              ~ accepted_type (meta_type (NetworkMessageMeta_init header)) ->
              e = ValueError "incorrect message type" /\ handle_clients_turn A = Exits 1)).
Proof.
  intros Hi Hrecv.
  pose proof (others_same_receive_loop (S (pending_reads A c)) A c) as [Hcon _].
  fold (receive_messages A c) in Hcon. rewrite Hrecv in Hcon. simpl in Hcon.
  split_and!.
  - intros -> fuel. simpl. by rewrite Hi, Hrecv, Hcon.
  - intros Hne fuel. simpl. rewrite Hi, Hrecv. by destruct e.
  - intros pre post Hcs Hnd Hq.
    destruct (turn_with_one_raise A A1 pre post c e Hcs Hnd Hq Hrecv) as [Hlost Hfatal].
    split_and!.
    + intros He. split; [by apply Hlost|]. rewrite Hcs.
      rewrite remove_first_middle; [done|].
      rewrite Hcs in Hnd. apply NoDup_app in Hnd as (_ & Hpre & _).
      intros Hin. eapply Hpre; [done|by left].
    + done.
    + intros con header body rest Hc Hcur Hin Hh Hb Hty.
      assert (e = ValueError "incorrect message type") as ->.
      { pose proof (receive_messages_first_frame A c con header body rest
                      (ValueError "incorrect message type") Hc Hcur Hin Hh Hb) as Hr.
        rewrite Hrecv in Hr. simpl in Hr.
        assert (Some e = Some (ValueError "incorrect message type")) as [= ->]; [|done].
        apply Hr. apply deserialize_bad_type; unfold raw_get_type; simpl;
          intros Heq; apply Hty; unfold accepted_type; tauto. }
      split; [done|]. by apply Hfatal.
Qed.

End EventLoop.

(** The claim of the specification for a connection whose messages raise
    an error: the turn goes on and exactly that connection has left the
    registry. *)
Definition only_that_connection_ends (codec : PbCodec) (A : LfbAgent) (c : nat) : Prop :=
  exists A', handle_clients_turn codec A = Sleeps A'
             /\ connections A' = remove_first c (connections A).

Definition demo_backend : BackendState := {| mint := fun name => name; trace := [] |}.

Definition demo_agent (first : ProxyConnection) : LfbAgent :=
  add_client (add_client (LfbAgent_init [] demo_backend) first)
             (ProxyConnection_init [] false).

(** A frame with type code 9 and no contents. *)
Definition demo_bad_frame : bytes := map byte_of_Z [9; 0; 0; 0; 0].

Definition demo_agent_violation : LfbAgent :=
  demo_agent (ProxyConnection_init demo_bad_frame false).

Definition demo_agent_lost : LfbAgent :=
  demo_agent (ProxyConnection_init [] true).

Example demo_lost_turn :
  match handle_clients_turn RefCodec.codec demo_agent_lost with
  | Sleeps A' => connections A' = [1%nat]
  | Exits _ => False
  end.
Proof. vm_compute. reflexivity. Qed.

(** The registry changes under the iterator: when the first of three
    connections is lost, the second is not visited in that turn; its bad
    frame is met in the next one. *)
Definition demo_agent_lost_then_violation : LfbAgent :=
  add_client
    (add_client (add_client (LfbAgent_init [] demo_backend) (ProxyConnection_init [] true))
                (ProxyConnection_init demo_bad_frame false))
    (ProxyConnection_init [] false).

Example demo_lost_then_violation_turns :
  match handle_clients_turn RefCodec.codec demo_agent_lost_then_violation with
  | Sleeps A' =>
      connections A' = [1; 2]%nat
      /\ (incoming <$> objects A' !! 1%nat) = Some demo_bad_frame
      /\ handle_clients_turn RefCodec.codec A' = Exits 1
  | Exits _ => False
  end.
Proof. vm_compute. split_and!; reflexivity. Qed.

(** An out-of-order batch: the proxy announces the log, then sends record 3
    where record 0 is expected. *)
Definition demo_agent_out_of_order : LfbAgent :=
  let A := (request_log_content (demo_agent (ProxyConnection_init [] false)) demo_log 0 4).1 in
  match objects A !! 0%nat with
  | Some con =>
      set_connection A 0
        (with_socket con
           (frame_of RefCodec.codec (LogContentStatusNetworkMessage 0 FOUND_AND_BEGIN_SEND)
            ++ frame_of RefCodec.codec (LogContentDataNetworkMessage 0 3 3 ["x"]))
           None)
  | None => A
  end.

Example demo_out_of_order_turn :
  (receive_messages RefCodec.codec demo_agent_out_of_order 0).2
  = Some (ValueError "invalid begin_record")
  /\ handle_clients_turn RefCodec.codec demo_agent_out_of_order = Exits 1.
Proof. split; vm_compute; reflexivity. Qed.

(** The claim as stated fails: a frame with a bad type code on one
    connection ends the agent process, not that connection alone. *)
Lemma protocol_violation_exits :
  (receive_messages RefCodec.codec demo_agent_violation 0).2
  = Some (ValueError "incorrect message type")
  /\ handle_clients_turn RefCodec.codec demo_agent_violation = Exits 1
  /\ ~ only_that_connection_ends RefCodec.codec demo_agent_violation 0.
Proof.
  split_and!; [vm_compute; reflexivity..|].
  intros (A' & Hturn & _).
  assert (handle_clients_turn RefCodec.codec demo_agent_violation = Exits 1) as E
    by (vm_compute; reflexivity).
  rewrite E in Hturn. discriminate Hturn.
Qed.

Lemma connection_error_handling_witness :
  let A := demo_agent_lost in
  let A1 := (receive_messages RefCodec.codec demo_agent_lost 0).1 in
  let c := 0%nat in
  let e := ConnectionError in
  (e = ConnectionError -> forall fuel,
     handle_clients_for RefCodec.codec (S fuel) A 0
     = handle_clients_for RefCodec.codec fuel
         (with_connections A1 (remove_first c (connections A))) 1)
  /\ (e <> ConnectionError -> forall fuel,
        handle_clients_for RefCodec.codec (S fuel) A 0 = (A1, Some e))
  /\ (forall pre post,
        connections A = pre ++ c :: post -> NoDup (connections A) ->
        all_quiet A (pre ++ post) ->
        (e = ConnectionError ->
           handle_clients_turn RefCodec.codec A = Sleeps (with_connections A1 (pre ++ post))
           /\ pre ++ post = remove_first c (connections A))
        /\ (e <> ConnectionError -> handle_clients_turn RefCodec.codec A = Exits 1)
        /\ (forall con header body rest,
              objects A !! c = Some con -> current_message con = None ->
              incoming con = header ++ body ++ rest ->
              length header = 5%nat ->
              length body = Z.to_nat (meta_length (NetworkMessageMeta_init header)) ->
              ~ accepted_type (meta_type (NetworkMessageMeta_init header)) ->
              e = ValueError "incorrect message type"
              /\ handle_clients_turn RefCodec.codec A = Exits 1)).
Proof.
  apply (connection_error_handling RefCodec.codec demo_agent_lost
           (receive_messages RefCodec.codec demo_agent_lost 0).1 0 0 ConnectionError).
  - vm_compute. reflexivity.
  - vm_compute. reflexivity.
Defined.

End Agent.

(** ** agent/validator.py *)

Module Validator.
Import LogModel Backend Networking ContentRequests Agent.
Local Open Scope Z_scope.

(** [_LogValidatorJob]; [job] is the aggregate request, [running] the
    attribute [fingerprint]. *)
Record LogValidatorJob := mkJob {
  job : AgentContentRequest;
  job_log : Log;
  remaining_snapshots : list SnapshotDict;
  running : string;
  records_counter : Z;
  validation_finished : bool;
}.

Definition with_job (j : LogValidatorJob) (a : AgentContentRequest) : LogValidatorJob :=
  {| job := a; job_log := job_log j; remaining_snapshots := remaining_snapshots j;
     running := running j; records_counter := records_counter j;
     validation_finished := validation_finished j |}.

Definition with_backend (A : LfbAgent) (b : BackendState) : LfbAgent :=
  {| objects := objects A; connections := connections A; collector := collector A;
     backend := b |}.

(** [__finish_validation] *)
Definition finish_validation (A : LfbAgent) (j : LogValidatorJob) (fingerprint : string)
  : LfbAgent * LogValidatorJob :=
  if validation_finished j then (A, j)
  else
    (with_backend A
       (post_log_status (backend A) (job_log j)
          (bool_decide (length (remaining_snapshots j) = 0%nat)
           && String.eqb (running j) fingerprint)),
     {| job := job j; job_log := job_log j; remaining_snapshots := remaining_snapshots j;
        running := running j; records_counter := records_counter j;
        validation_finished := true |}).

(** [_LogValidatorJob.__init__] *)
Definition LogValidatorJob_init (A : LfbAgent) (snapshots : list SnapshotDict)
    (request : AgentContentRequest) (log : Log) : LfbAgent * LogValidatorJob :=
  let j := {| job := request; job_log := log; remaining_snapshots := snapshots;
              running := hash_fun ""; records_counter := 0;
              validation_finished := false |} in
  if bool_decide (length snapshots = 0%nat) then finish_validation A j (hash_fun "")
  else (A, j).

Definition work_in_progress (A : LfbAgent) (j : LogValidatorJob)
  : LfbAgent * LogValidatorJob * bool :=
  if is_dead (job j) then
    let '(A', j') := finish_validation A j "" in (A', j', false)
  else
    let '(A', a', ld) := get_lead A (job j) in
    (A', with_job j a',
     match ld with
     | None => true
     | Some r =>
         match status_of A' r with
         | Some PENDING | Some RECEIVING => true
         | _ => false
         end
     end).

(** [__handle_new_record] *)
Definition handle_new_record (A : LfbAgent) (j : LogValidatorJob) (new_record : string)
  : result (LfbAgent * LogValidatorJob) :=
  if validation_finished j then Ok (A, j)
  else
    match remaining_snapshots j with
    | [] => Raise IndexError
    | next_snapshot :: rest =>
        let counter := records_counter j + 1 in
        let fp := hash_fun (running j +:+ new_record) in
        let j1 := {| job := job j; job_log := job_log j;
                     remaining_snapshots := remaining_snapshots j;
                     running := fp; records_counter := counter;
                     validation_finished := false |} in
        if lastLine next_snapshot <? counter then
          let j2 := {| job := job j; job_log := job_log j; remaining_snapshots := rest;
                       running := fp; records_counter := counter;
                       validation_finished := false |} in
          let '(A3, j3) :=
            if negb (String.eqb fp (fingerprint next_snapshot))
               || bool_decide (length rest = 0%nat)
            then finish_validation A j2 (fingerprint next_snapshot)
            else (A, j2) in
          Ok (A3, {| job := job j3; job_log := job_log j3;
                     remaining_snapshots := remaining_snapshots j3;
                     running := hash_fun ""; records_counter := records_counter j3;
                     validation_finished := validation_finished j3 |})
        else Ok (A, j1)
    end.

(** The loop [while new_record := lead.pop_record()] of [do_work]: it ends
    when the queue is empty, and also when the record it has just popped
    is the empty string.  Every turn pops a record, so the length of the
    queue bounds the turns. *)
Fixpoint drain (fuel : nat) (lead : ContentRequest) (A : LfbAgent) (j : LogValidatorJob)
  : ContentRequest * result (LfbAgent * LogValidatorJob) :=
  match fuel with
  | O => (lead, Ok (A, j))
  | S fuel' =>
      let '(new_record, lead') := pop_record lead in
      match new_record with
      | None => (lead', Ok (A, j))
      | Some new_record =>
          if String.eqb new_record "" then (lead', Ok (A, j))
          else
            match handle_new_record A j new_record with
            | Ok (A', j') => drain fuel' lead' A' j'
            | Raise e => (lead', Raise e)
            end
      end
  end.

(** The request object behind a reference, after the pops. *)
Definition set_request (A : LfbAgent) (r : request_ref) (req : ContentRequest) : LfbAgent :=
  match objects A !! r.1 with
  | None => A
  | Some con =>
      let H := content_requestor con in
      set_connection A r.1
        (with_requestor con
           {| store := <[r.2 := req]> (store H);
              requests := requests H; next_request_id := next_request_id H |})
  end.

Definition do_work (A : LfbAgent) (j : LogValidatorJob)
  : LfbAgent * LogValidatorJob * option exn :=
  let '(A1, a1, ld) := get_lead A (job j) in
  let j1 := with_job j a1 in
  match ld with
  | None => (A1, j1, None)
  | Some r =>
      match deref A1 r with
      | None => (A1, j1, None)
      | Some lead_request =>
          let '(lead_request', res) :=
            drain (S (length (content lead_request))) lead_request A1 j1 in
          let A2 := set_request A1 r lead_request' in
          match res with
          | Ok (A3, j3) => (with_backend A2 (backend A3), j3, None)
          | Raise e => (A2, j1, Some e)
          end
      end
  end.

(** One pass of [LogValidator.__worker_thread] over [self.requests]. *)
Fixpoint worker_pass (A : LfbAgent) (requests : list LogValidatorJob)
  : LfbAgent * list LogValidatorJob * option exn :=
  match requests with
  | [] => (A, [], None)
  | j :: requests' =>
      match do_work A j with
      | (A1, j1, Some e) => (A1, j1 :: requests', Some e)
      | (A1, j1, None) =>
          let '(A2, j2, in_progress) := work_in_progress A1 j1 in
          let '(A3, new_requests, e) := worker_pass A2 requests' in
          (A3, if in_progress then j2 :: new_requests else new_requests, e)
      end
  end.

(** [LogValidator.verify_log], [snapshots] being what the backend returns
    for the log. *)
Definition verify_log (A : LfbAgent) (requests : list LogValidatorJob) (log : Log)
    (snapshots : list SnapshotDict) : LfbAgent * list LogValidatorJob :=
  let '(first_line, last_line) :=
    match snapshots, last snapshots with
    | first :: _, Some final => (firstLine first, lastLine final)
    | _, _ => (0, 0)
    end in
  let '(A1, request) := request_log_content A log first_line last_line in
  let '(A2, j) := LogValidatorJob_init A1 snapshots request log in
  (A2, requests ++ [j]).

(** The verification results posted so far. *)
Definition verdicts (A : LfbAgent) : list (option string * bool) :=
  omap (fun c => match c with
                 | PostLogStatus id ok => Some (id, ok)
                 | _ => None
                 end) (trace (backend A)).

(** *** How a job ends *)

(** [do_work] stops draining because the queue is empty or an empty record
    was popped, never for want of fuel. *)
Lemma drain_enough fuel extra lead A j :
  (length (content lead) < fuel)%nat ->
  drain (fuel + extra) lead A j = drain fuel lead A j.
Proof.
  revert lead A j. induction fuel as [|fuel IH]; intros lead A j Hlen; [lia|].
  simpl. unfold pop_record. destruct (content lead) as [|x q] eqn:Hq; [done|].
  destruct (String.eqb x ""); [done|].
  destruct (handle_new_record A j x) as [[A' j']|e]; [|done].
  apply IH. simpl in *. lia.
Qed.

Lemma verdicts_post A l ok :
  verdicts (with_backend A (post_log_status (backend A) l ok))
  = verdicts A ++ [(log_id l, ok)].
Proof. unfold verdicts. simpl. by rewrite omap_app. Qed.

(** A dead aggregate ends the job with a negative verdict. *)
Lemma work_in_progress_dead A j :
  is_dead (job j) = true -> validation_finished j = false ->
  remaining_snapshots j <> [] ->
  (work_in_progress A j).2 = false
  /\ validation_finished (work_in_progress A j).1.2 = true
  /\ verdicts (work_in_progress A j).1.1 = verdicts A ++ [(log_id (job_log j), false)].
Proof.
  intros Hdead Hfin Hrem. unfold work_in_progress, finish_validation.
  rewrite Hdead, Hfin. simpl. split_and!; try done.
  rewrite verdicts_post. do 3 f_equal.
  destruct (remaining_snapshots j); [done|]. by rewrite bool_decide_eq_false_2.
Qed.

(** A lead that is CLOSED (or otherwise no longer live) ends the job too,
    but without any verdict, whatever is left to check. *)
Lemma work_in_progress_lead_not_live A j r st :
  lead (job j) = Some r -> status_of A r = Some st -> is_live st = false ->
  work_in_progress A j = (A, j, false).
Proof.
  intros Hlead Hst Hlive. unfold work_in_progress, is_dead, get_lead.
  rewrite Hlead. simpl. rewrite Hst. destruct j. simpl in *. by destruct st.
Qed.

(** *** A stream that ends early

    The backend holds one snapshot of lines 0..1 of the log.  Two proxies
    are asked for its content; the first has a file of only one line and
    sends FOUND, the record, END; the second answers NOT_FOUND. *)
Definition demo_snapshot : SnapshotDict :=
  {| firstLine := 0; lastLine := 1; logId := Some "L1";
     fingerprint := "ee3a085cfe6c87422261108c3daf2ce091f8b57aee9e22bf14fc3d64c4b05d65" |}.

Definition feed (A : LfbAgent) (c : nat) (frames : list NetworkMessage) : LfbAgent :=
  match objects A !! c with
  | None => A
  | Some con =>
      set_connection A c
        (with_socket con
           (incoming con ++ concat (map (frame_of RefCodec.codec) frames))
           (current_message con))
  end.

Definition demo_started : LfbAgent * list LogValidatorJob :=
  verify_log (demo_agent (ProxyConnection_init [] false)) [] demo_log [demo_snapshot].

Definition demo_answered : LfbAgent :=
  feed (feed demo_started.1 0
          [ LogContentStatusNetworkMessage 0 FOUND_AND_BEGIN_SEND;
            LogContentDataNetworkMessage 0 0 0 ["x"];
            LogContentStatusNetworkMessage 0 END_SEND ])
       1 [ LogContentStatusNetworkMessage 0 CS_NOT_FOUND ].

Definition demo_after_receive : LfbAgent :=
  match handle_clients_turn RefCodec.codec demo_answered with
  | Sleeps A => A
  | Exits _ => demo_answered
  end.

Example demo_started_requests :
  map sent (objects demo_started.1)
  = [ [GetLogContentNetworkMessage demo_log 0 0 1];
      [GetLogContentNetworkMessage demo_log 0 0 1] ]
  /\ map remaining_snapshots demo_started.2 = [[demo_snapshot]]
  /\ map job demo_started.2 = [{| children := [(0, 0); (1, 0)]%nat; lead := None |}].
Proof. split_and!; vm_compute; reflexivity. Qed.

Example demo_received_state :
  handle_clients_turn RefCodec.codec demo_answered = Sleeps demo_after_receive
  /\ deref demo_after_receive (0, 0)%nat
     = Some {| request_id := 0; req_log := demo_log; begin_record := 0;
               next_record_ind := 1; end_record := 1; status := CLOSED;
               content := ["x"] |}
  /\ status_of demo_after_receive (1, 0)%nat = Some NOT_FOUND.
Proof. split_and!; vm_compute; reflexivity. Qed.

(** C4, at a failing input. The lead has closed with the snapshot still to
    be checked (one record received where two are needed): the worker takes
    the record and drops the job, and no verification result, [false] or
    other, reaches the backend. *)
Lemma closed_lead_posts_nothing :
  let '(A, requests, e) := worker_pass demo_after_receive demo_started.2 in
  requests = [] /\ e = None /\ verdicts A = [] /\ trace (backend A) = []
  /\ (content <$> deref A (0, 0)%nat) = Some []
  /\ (status <$> deref A (0, 0)%nat) = Some CLOSED.
Proof. vm_compute. split_and!; reflexivity. Qed.

(** With no proxy holding the log the aggregate dies and the same job ends
    with the verdict [false]. *)
Definition demo_nobody : LfbAgent :=
  match handle_clients_turn RefCodec.codec
          (feed (feed demo_started.1 0 [LogContentStatusNetworkMessage 0 CS_NOT_FOUND])
                1 [LogContentStatusNetworkMessage 0 CS_NOT_FOUND]) with
  | Sleeps A => A
  | Exits _ => demo_started.1
  end.

Example dead_aggregate_posts_false :
  let '(A, requests, e) := worker_pass demo_nobody demo_started.2 in
  requests = [] /\ e = None /\ verdicts A = [(Some "L1", false)].
Proof. vm_compute. split_and!; reflexivity. Qed.

(** When the whole stream arrives, the verdict is [true] (scenario S3, one
    snapshot). *)
Definition demo_complete : LfbAgent :=
  match handle_clients_turn RefCodec.codec
          (feed demo_started.1 0
             [ LogContentStatusNetworkMessage 0 FOUND_AND_BEGIN_SEND;
               LogContentDataNetworkMessage 0 0 1 ["x"; "y"];
               LogContentStatusNetworkMessage 0 END_SEND ]) with
  | Sleeps A => A
  | Exits _ => demo_started.1
  end.

Example complete_stream_posts_true :
  let '(A, requests, e) := worker_pass demo_complete demo_started.2 in
  requests = [] /\ e = None /\ verdicts A = [(Some "L1", true)].
Proof. vm_compute. split_and!; reflexivity. Qed.

End Validator.

(** ** Python strings

    A [str] is held as the bytes of its UTF-8 encoding. *)

Module PyStr.
Local Open Scope Z_scope.

Definition code (a : ascii) : N := N_of_ascii a.

(** [len]: the code points, which are the bytes that continue none. *)
Definition py_len (s : string) : Z :=
  Z.of_nat (length (List.filter (fun a => negb ((128 <=? code a) && (code a <=? 191))%N)
                      (list_ascii_of_string s))).

(** The length in bytes of the white space character a text ends with,
    its bytes given last first; 0 when it ends with none.  White space is
    what [str.isspace] accepts: U+0009 to U+000D, U+001C to U+0020, U+0085,
    U+00A0, U+1680, U+2000 to U+200A, U+2028, U+2029, U+202F, U+205F and
    U+3000. *)
Definition space_len (r : list ascii) : nat :=
  match r with
  | [] => 0
  | c :: r1 =>
      let n := code c in
      if ((9 <=? n) && (n <=? 13) || (28 <=? n) && (n <=? 32))%N then 1
      else
        match r1 with
        | [] => 0
        | b :: r2 =>
            let m := code b in
            if ((m =? 194) && ((n =? 133) || (n =? 160)))%N then 2
            else
              match r2 with
              | [] => 0
              | a :: _ =>
                  let k := code a in
                  if ((k =? 225) && (m =? 154) && (n =? 128))%N then 3
                  else if ((k =? 226) && (m =? 128)
                           && ((128 <=? n) && (n <=? 138) || (n =? 168) || (n =? 169)
                               || (n =? 175)))%N then 3
                  else if ((k =? 226) && (m =? 129) && (n =? 159))%N then 3
                  else if ((k =? 227) && (m =? 128) && (n =? 128))%N then 3
                  else 0
              end
        end
  end%nat.

Fixpoint strip (fuel : nat) (r : list ascii) : list ascii :=
  match fuel with
  | O => r
  | S fuel' =>
      match space_len r with
      | O => r
      | n => strip fuel' (drop n r)
      end
  end.

(** [str.rstrip()] *)
Definition rstrip (s : string) : string :=
  let r := rev (list_ascii_of_string s) in
  string_of_list_ascii (rev (strip (length r) r)).

Definition LF : string := String (ascii_of_nat 10) "".
Definition VT : string := String (ascii_of_nat 11) "".
Definition CR : string := String (ascii_of_nat 13) "".
Definition NBSP : string := String (ascii_of_nat 194) (String (ascii_of_nat 160) "").
Definition NEL : string := String (ascii_of_nat 194) (String (ascii_of_nat 133) "").
Definition LSEP : string :=
  String (ascii_of_nat 226) (String (ascii_of_nat 128) (String (ascii_of_nat 168) "")).
Definition EURO : string :=
  String (ascii_of_nat 226) (String (ascii_of_nat 130) (String (ascii_of_nat 172) "")).

Example demo_rstrip :
  rstrip ("a b " +:+ CR +:+ LF) = "a b"
  /\ rstrip ("x" +:+ NBSP +:+ " " +:+ LSEP +:+ LF) = "x"
  /\ rstrip (EURO +:+ LF) = EURO
  /\ rstrip (" " +:+ LF) = ""
  /\ rstrip "" = "".
Proof. vm_compute. done. Qed.

End PyStr.

(** ** proxy/filesystem/contentmanager.py *)

Module ContentServer.
Import LogModel Networking PyStr.
Local Open Scope Z_scope.

(** Maximum record count for one LogContentData message. *)
Definition BATCH_SIZE : Z := 20.

(** The proxy as the content manager sees it: the watched logs, the files
    (each a list of lines, terminators included), and the messages sent to
    the agent so far. *)
Record Proxy := mkProxy {
  watches : list string;
  files : gmap string (list string);
  sent : list NetworkMessage;
}.

Definition contains_watch (P : Proxy) (log_name : string) : bool :=
  bool_decide (log_name ∈ watches P).

Definition send (P : Proxy) (m : NetworkMessage) : Proxy :=
  {| watches := watches P; files := files P; sent := sent P ++ [m] |}.

(** [next(self.__file)], [n] times. *)
Fixpoint skip_lines (n : nat) (file : list string) : result (list string) :=
  match n with
  | O => Ok file
  | S n' =>
      match file with
      | [] => Raise StopIteration
      | _ :: file' => skip_lines n' file'
      end
  end.

(** [LogStream.__init__]: the lines left to read. *)
Definition LogStream_init (P : Proxy) (path : string) (begin_record : Z)
  : result (list string) :=
  match files P !! path with
  | None => Raise FileNotFoundError
  | Some file => skip_lines (Z.to_nat begin_record) file
  end.

(** [LogStream.read_records]: the records read and the stream after them. *)
Definition read_records (stream : list string) (max_count : Z) : list string * list string :=
  (take (Z.to_nat max_count) stream, drop (Z.to_nat max_count) stream).

Definition send_response (P : Proxy) (request_id : Z) (status : ContentStatus) : Proxy :=
  send P (LogContentStatusNetworkMessage request_id status).

Definition send_data (P : Proxy) (request_id begin_record end_record : Z)
    (records : list string) : result Proxy :=
  message ← LogContentDataNetworkMessage_init request_id begin_record end_record
              (map rstrip records);
  Ok (send P message).

(** The loop [while record <= end_record]; every turn but the last sends
    at least one record, so [end_record - record + 1] turns are enough. *)
Fixpoint send_loop (fuel : nat) (P : Proxy) (request_id : Z) (stream : list string)
    (record end_record : Z) : Proxy * option exn :=
  match fuel with
  | O => (P, None)
  | S fuel' =>
      if end_record <? record then (P, None)
      else
        let to_send := Z.min (end_record - record + 1) BATCH_SIZE in
        let '(records, stream') := read_records stream to_send in
        let rec_count := len records in
        if rec_count =? 0 then (P, None)
        else
          match send_data P request_id record (record + rec_count - 1) records with
          | Raise e => (P, Some e)
          | Ok P' => send_loop fuel' P' request_id stream' (record + rec_count) end_record
          end
  end.

Definition handle_log_content_request (P : Proxy) (log_name : string)
    (request_id begin_record end_record : Z) : Proxy * option exn :=
  if negb (contains_watch P log_name) then (send_response P request_id CS_NOT_FOUND, None)
  else
    let P1 := send_response P request_id FOUND_AND_BEGIN_SEND in
    match LogStream_init P1 log_name begin_record with
    | Raise e => (P1, Some e)
    | Ok stream =>
        match send_loop (Z.to_nat (end_record - begin_record + 1)) P1 request_id stream
                begin_record end_record with
        | (P2, Some e) => (P2, Some e)
        | (P2, None) => (send_response P2 request_id END_SEND, None)
        end
    end.



(** *** The exchange for one request *)

Definition sending (P : Proxy) (ms : list NetworkMessage) : Proxy :=
  {| watches := watches P; files := files P; sent := sent P ++ ms |}.




Lemma skip_lines_short n file :
  (length file < n)%nat -> skip_lines n file = Raise StopIteration.
Proof.
  revert file. induction n as [|n IH]; intros file Hn; [lia|].
  destruct file as [|x file]; simpl in *; [done|]. apply IH. lia.
Qed.


Lemma handle_not_found P log_name id b e :
  contains_watch P log_name = false ->
  handle_log_content_request P log_name id b e
  = (sending P [LogContentStatusNetworkMessage id CS_NOT_FOUND], None).
Proof. intros Hw. unfold handle_log_content_request. by rewrite Hw. Qed.


(** A file that holds fewer than [begin_record] lines: FOUND, then
    [next] raises StopIteration out of the handler; END is never sent. *)
Lemma handle_short_file P log_name file id b e :
  contains_watch P log_name = true -> files P !! log_name = Some file ->
  (length file < Z.to_nat b)%nat ->
  handle_log_content_request P log_name id b e
  = (sending P [LogContentStatusNetworkMessage id FOUND_AND_BEGIN_SEND], Some StopIteration).
Proof.
  intros Hw Hf Hlen. unfold handle_log_content_request, LogStream_init. rewrite Hw. simpl.
  by rewrite Hf, skip_lines_short.
Qed.

Definition demo_proxy (file : list string) : Proxy :=
  {| watches := ["/t/a.log"]; files := {[ "/t/a.log" := file ]}; sent := [] |}.

Definition demo_lines (n : nat) : list string :=
  map (fun i => String (ascii_of_nat (97 + i)) (String "010" EmptyString)) (seq 0 n).

Example demo_exchange :
  handle_log_content_request (demo_proxy ["a"; "b  "; "c"; "d"]) "/t/a.log" 7 1 5
  = ({| watches := ["/t/a.log"]; files := {[ "/t/a.log" := ["a"; "b  "; "c"; "d"] ]};
        sent := [ LogContentStatusNetworkMessage 7 FOUND_AND_BEGIN_SEND;
                  LogContentDataNetworkMessage 7 1 3 ["b"; "c"; "d"];
                  LogContentStatusNetworkMessage 7 END_SEND ] |}, None).
Proof. vm_compute. reflexivity. Qed.

Example demo_exchange_batches :
  map (fun m => match m with
                | LogContentDataNetworkMessage _ b e cs => (b, e, length cs)
                | _ => (0, 0, 0%nat)
                end)
      (sent (handle_log_content_request (demo_proxy (demo_lines 26)) "/t/a.log" 7 2 24).1)
  = [(0, 0, 0%nat); (2, 21, 20%nat); (22, 24, 3%nat); (0, 0, 0%nat)]
  /\ handle_log_content_request (demo_proxy ["a"]) "/nowhere" 7 0 0
     = (sending (demo_proxy ["a"]) [LogContentStatusNetworkMessage 7 CS_NOT_FOUND], None).
Proof. split; vm_compute; reflexivity. Qed.

(** C5, at a failing input. A watched file that holds fewer lines than
    [begin_record] (here none, for begin = end = 1): the proxy sends FOUND,
    then [next] raises StopIteration; END is never sent. *)
Lemma short_file_is_never_ended :
  handle_log_content_request (demo_proxy []) "/t/a.log" 7 1 1
  = ({| watches := ["/t/a.log"]; files := {[ "/t/a.log" := [] ]};
        sent := [LogContentStatusNetworkMessage 7 FOUND_AND_BEGIN_SEND] |},
     Some StopIteration).
Proof. vm_compute. reflexivity. Qed.

End ContentServer.

(** ** More of agent/collector.py and agent/backend_connector.py *)

Module CollectorFacts.
Import LogModel Backend.
Local Open Scope Z_scope.

Definition is_known (c : ListLogCollector) (name : string) : bool :=
  match dict_get c name with
  | Some _ => true
  | None => false
  end.

(** [collect_record], for each record of a list in turn. *)
Fixpoint collect_records (c : ListLogCollector) (b : BackendState) (rs : list LogRecord)
  : ListLogCollector * BackendState :=
  match rs with
  | [] => (c, b)
  | r :: rs' => let '(c', b') := collect_record c b r in collect_records c' b' rs'
  end.

(** The dictionaries [upload_records] sends: of the snapshots that hold
    lines, in the order of the collector. *)
Definition uploads (c : ListLogCollector) : list BackendCall :=
  map (fun kv => PostSnapshot (to_dict kv.2))
      (List.filter (fun kv => 0 <? line_count kv.2) c).

Lemma dict_get_set_eq {V} (d : list (string * V)) k v :
  dict_get (dict_set d k v) k = Some v.
Proof.
  induction d as [|[k' v'] d IH]; simpl.
  - by rewrite String.eqb_refl.
  - destruct (String.eqb k' k) eqn:E; simpl; rewrite E; [done|apply IH].
Qed.

Lemma dict_get_set_ne {V} (d : list (string * V)) k k' v :
  k <> k' -> dict_get (dict_set d k v) k' = dict_get d k'.
Proof.
  intros Hne. induction d as [|[k0 v0] d IH]; simpl.
  - apply String.eqb_neq in Hne. by rewrite Hne.
  - destruct (String.eqb k0 k) eqn:E; simpl.
    + apply String.eqb_eq in E. subst k0.
      apply String.eqb_neq in Hne. by rewrite Hne.
    + by rewrite IH.
Qed.

Lemma dict_set_keys {V} (d : list (string * V)) k v :
  map fst (dict_set d k v)
  = map fst d ++ match dict_get d k with Some _ => [] | None => [k] end.
Proof.
  induction d as [|[k0 v0] d IH]; simpl; [done|].
  destruct (String.eqb k0 k) eqn:E; simpl.
  - by rewrite app_nil_r.
  - by rewrite IH.
Qed.

Lemma fold_line_count (c : ListLogCollector) a :
  fold_left (fun ret kv => ret + line_count kv.2) c a = a + log_size c.
Proof.
  unfold log_size. revert a. induction c as [|kv c IH]; intros a; simpl; [lia|].
  rewrite (IH (a + line_count kv.2)), (IH (0 + line_count kv.2)). lia.
Qed.

Lemma log_size_cons kv (c : ListLogCollector) :
  log_size (kv :: c) = line_count kv.2 + log_size c.
Proof. unfold log_size at 1. simpl. rewrite fold_line_count. lia. Qed.

Lemma log_size_dict_set (c : ListLogCollector) k s :
  log_size (dict_set c k s)
  = log_size c + line_count s
    - match dict_get c k with Some old => line_count old | None => 0 end.
Proof.
  induction c as [|[k0 s0] c IH]; simpl.
  - rewrite log_size_cons. unfold log_size. simpl. lia.
  - destruct (String.eqb k0 k) eqn:E; rewrite !log_size_cons; simpl; [lia|].
    rewrite IH. lia.
Qed.

(** X1. One record collected: the position of its log moves by one (from 0
    for a log not seen before), the positions of the other logs stay, the
    total size grows by one, the backend is asked to register the log only
    when it was not known, and the collector keeps its logs in order, a new
    one last. *)
Theorem collect_record_effect (c : ListLogCollector) (b : BackendState) (record : LogRecord) :
  let name := log_name (rec_log record) in
  let c' := (collect_record c b record).1 in
  let b' := (collect_record c b record).2 in
  get_log_position c' (rec_log record) = get_log_position c (rec_log record) + 1
  /\ (forall l, log_name l <> name -> get_log_position c' l = get_log_position c l)
  /\ log_size c' = log_size c + 1
  /\ trace b' = trace b ++ (if is_known c name then [] else [PostLog name])
  /\ map fst c' = map fst c ++ (if is_known c name then [] else [name]).
Proof.
  intros name c' b'. unfold c', b', collect_record, is_known, get_log_position.
  fold name. destruct (dict_get c name) as [s|] eqn:Hget; simpl.
  - rewrite dict_get_set_eq, dict_set_keys, log_size_dict_set, Hget, !app_nil_r.
    split_and!; try done.
    + unfold get_next_line. simpl. lia.
    + intros l Hne. by rewrite dict_get_set_ne.
    + simpl. lia.
  - rewrite dict_get_set_eq, dict_set_keys, log_size_dict_set, Hget.
    split_and!; try done.
    + intros l Hne. by rewrite dict_get_set_ne.
    + simpl. lia.
Qed.

Lemma upload_records_spec (c : ListLogCollector) (b : BackendState) :
  upload_records c b
  = (map (fun kv => (kv.1, reset kv.2)) c,
     {| mint := mint b; trace := trace b ++ uploads c |}).
Proof.
  revert b. induction c as [|[name s] c IH]; intros b; simpl.
  - unfold uploads. simpl. rewrite app_nil_r. by destruct b.
  - rewrite post_snapshot_posts_postable. cbn [upload_prep fst snd].
    rewrite postable_to_dict, IH.
    unfold uploads. cbn [List.filter map fst snd].
    destruct (0 <? line_count s); cbn [map record_call mint trace]; [|done].
    by rewrite <- app_assoc.
Qed.

Lemma add_record_seq_keeps s rs :
  first_line (add_record_seq s rs) = first_line s
  /\ log (add_record_seq s rs) = log s.
Proof. revert s. induction rs as [|r rs IH]; intros s; [done|]. apply (IH (add_record s r)). Qed.

Lemma uploads_after_reset (c : ListLogCollector) :
  uploads (map (fun kv => (kv.1, reset kv.2)) c) = [].
Proof. unfold uploads. by induction c as [|kv c IH]. Qed.

Lemma log_size_after_reset (c : ListLogCollector) :
  log_size (map (fun kv => (kv.1, reset kv.2)) c) = 0.
Proof.
  induction c as [|kv c IH]; [done|].
  simpl. rewrite log_size_cons, IH. simpl. lia.
Qed.

(** X2. An upload posts the dictionary of each snapshot that holds at least
    one line, in the order of the collector, and nothing for the others; it
    leaves no pending line, keeps the logs, and an upload that follows with
    no record in between posts nothing and changes nothing. *)
Theorem upload_records_posts_pending (c : ListLogCollector) (b : BackendState) :
  let c' := (upload_records c b).1 in
  let b' := (upload_records c b).2 in
  trace b' = trace b ++ uploads c
  /\ log_size c' = 0
  /\ get_logs c' = get_logs c
  /\ map fst c' = map fst c
  /\ upload_records c' b' = (c', b').
Proof.
  intros c' b'. unfold c', b'. rewrite upload_records_spec. simpl.
  split_and!; try done.
  - apply log_size_after_reset.
  - unfold get_logs. rewrite map_map. done.
  - by rewrite map_map.
  - rewrite upload_records_spec, uploads_after_reset, app_nil_r. simpl.
    f_equal. rewrite map_map. apply map_ext. intros [k s]. simpl.
    f_equal. unfold reset, get_next_line. simpl. f_equal. lia.
Qed.

(** The records of one log, collected in a row, are added to the snapshot
    of that log in order; the log is registered once, by the first of them,
    when it was not known. *)
Lemma collect_records_one_log (c : ListLogCollector) (b : BackendState)
    (name : string) (rs : list LogRecord) :
  Forall (fun r => log_name (rec_log r) = name) rs ->
  rs <> [] ->
  let s0 := match dict_get c name with
            | Some s => s
            | None => (post_log b name).1
            end in
  (collect_records c b rs).1 = dict_set c name (add_record_seq s0 rs)
  /\ trace (collect_records c b rs).2
     = trace b ++ (if is_known c name then [] else [PostLog name])
  /\ mint (collect_records c b rs).2 = mint b.
Proof.
  intros Hall Hne. revert c b Hall.
  induction rs as [|r rs IH]; intros c b Hall; [done|].
  apply Forall_cons in Hall as [Hr Hall]. clear Hne.
  assert (forall (d : ListLogCollector) v w,
            dict_set (dict_set d name v) name w = dict_set d name w) as Hss.
  { intros d v w. induction d as [|[k0 v0] d IHd]; simpl.
    - by rewrite String.eqb_refl.
    - destruct (String.eqb k0 name) eqn:E; simpl; rewrite E; [done|by rewrite IHd]. }
  cbn [collect_records]. unfold collect_record, is_known. rewrite Hr.
  destruct (dict_get c name) as [s|] eqn:Hget.
  - destruct rs as [|r2 rs]; [simpl; by rewrite app_nil_r|].
    destruct (IH ltac:(done) (dict_set c name (add_record s r)) b Hall) as (H1 & H2 & H3).
    rewrite dict_get_set_eq in H1. unfold is_known in H2.
    rewrite dict_get_set_eq in H2.
    rewrite H1, H2, H3, Hss. done.
  - cbn [post_log fst snd].
    destruct rs as [|r2 rs]; [simpl; done|].
    destruct (IH ltac:(done)
                (dict_set c name
                   (add_record (Snapshot_init {| log_name := name; log_id := Some (mint b name) |} 0) r))
                (record_call b (PostLog name)) Hall) as (H1 & H2 & H3).
    rewrite dict_get_set_eq in H1. unfold is_known in H2.
    rewrite dict_get_set_eq in H2.
    rewrite H1, H2, H3, Hss. simpl. by rewrite app_nil_r.
Qed.

(** X3. The records of a log the backend does not know yet, collected by an
    agent that holds no other log and then uploaded: the backend sees the
    registration of the log and then one snapshot, of lines 0 to n-1, under
    the identifier it gave, whose fingerprint is the chained hash of the
    records in order.  The next position of the log is n. *)
Theorem first_upload_of_new_log (b : BackendState) (name : string)
    (rs : list LogRecord) :
  Forall (fun r => log_name (rec_log r) = name) rs ->
  rs <> [] ->
  let collected := collect_records [] b rs in
  let uploaded := upload_records collected.1 collected.2 in
  trace uploaded.2
  = trace b ++ [ PostLog name;
                 PostSnapshot {| firstLine := 0;
                                 lastLine := Z.of_nat (length rs) - 1;
                                 logId := Some (mint b name);
                                 fingerprint := fold_hash rs |} ]
  /\ get_log_position uploaded.1 {| log_name := name; log_id := None |}
     = Z.of_nat (length rs).
Proof.
  intros Hall Hne collected uploaded. unfold uploaded, collected.
  destruct (collect_records_one_log [] b name rs Hall Hne) as (H1 & H2 & H3).
  simpl in H1, H2.
  rewrite upload_records_position. rewrite upload_records_spec, H1, H2. simpl.
  unfold uploads, get_log_position. simpl. rewrite String.eqb_refl.
  rewrite add_records_line_count. simpl.
  destruct (Z.ltb_spec 0 (0 + Z.of_nat (length rs))) as [_|Hle].
  2:{ destruct rs; [done|simpl in Hle; lia]. }
  set (s0 := Snapshot_init {| log_name := name; log_id := Some (mint b name) |} 0).
  destruct (add_record_seq_keeps s0 rs) as [Hf Hl].
  cbn [map fst snd]. unfold to_dict, get_next_line, get_hash.
  rewrite Hf, Hl, add_records_line_count, add_records_fresh by done.
  subst s0. cbn [Snapshot_init first_line line_count log log_id].
  split; [|lia]. rewrite <- app_assoc. cbn [app].
  replace (0 + (0 + Z.of_nat (length rs)) - 1) with (Z.of_nat (length rs) - 1) by lia.
  done.
Qed.

Definition demo_store : BackendState :=
  {| mint := fun name => "id of " +:+ name; trace := [] |}.

Lemma first_upload_of_new_log_witness :
  let rs := [demo_record "x"; demo_record "y"] in
  let collected := collect_records [] demo_store rs in
  let uploaded := upload_records collected.1 collected.2 in
  trace uploaded.2
  = [ PostLog "/t/a.log";
      PostSnapshot {| firstLine := 0; lastLine := 1; logId := Some "id of /t/a.log";
                      fingerprint := fold_hash rs |} ]
  /\ get_log_position uploaded.1 {| log_name := "/t/a.log"; log_id := None |} = 2.
Proof.
  apply (first_upload_of_new_log demo_store "/t/a.log" [demo_record "x"; demo_record "y"]).
  - repeat constructor.
  - discriminate.
Defined.

End CollectorFacts.

(** ** More of networking.py: what [serialize] and [from_raw] refuse *)

Module NetworkingFacts.
Import LogModel Networking.
Local Open Scope Z_scope.

(** The raw message [NetworkConnection.receive] builds from a frame. *)
Definition raw_of (frame : bytes) : RawNetworkMessage :=
  match read_frame frame with
  | Ok message => message
  | Raise _ => {| raw_meta := {| meta_type := 0; meta_length := 0 |}; raw_contents := [] |}
  end.

Section Facts.
Context (codec : PbCodec).

Lemma parse_as_Ok type s message v :
  parse_as codec type s message = Ok v ->
  raw_get_type message = type
  /\ ParseFromString codec s (raw_get_contents message) = Some v.
Proof.
  unfold parse_as. destruct (Z.eqb_spec (raw_get_type message) type); [|done].
  simpl. destruct (ParseFromString codec s (raw_get_contents message)); [|done].
  by intros [= ->].
Qed.

Lemma ContentStatus_value_of_value v s :
  ContentStatus_of_value v = Ok s -> ContentStatus_value s = v.
Proof.
  unfold ContentStatus_of_value.
  destruct (Z.eqb_spec v 0); [by intros [= <-]|].
  destruct (Z.eqb_spec v 1); [by intros [= <-]|].
  destruct (Z.eqb_spec v (-1)); [by intros [= <-]|done].
Qed.

(** X4. What [from_raw] accepts.  When the [from_raw] of the kind with code
    [type] returns a message, the raw message carried that very code, the
    message is of that kind, the schema library parsed its contents as the
    payload of the message, the logs it names have no backend identifier,
    and a LogContentData message holds end_record - begin_record + 1
    records with begin_record <= end_record. *)
Theorem from_raw_sound (type : Z) (message : RawNetworkMessage) (m : NetworkMessage) :
  from_raw codec type message = Ok m ->
  raw_get_type message = type
  /\ get_type m = type
  /\ ParseFromString codec (schema_of m) (raw_get_contents message) = Some (payload m)
  /\ on_wire m = m
  /\ counts_match m.
Proof.
  unfold from_raw.
  destruct (Z.eqb_spec type ADD_RECORD) as [->|_].
  { unfold AddRecord_from_raw.
    destruct (parse_as codec ADD_RECORD SRecord message) as [v|e] eqn:E; [|done].
    apply parse_as_Ok in E as [E1 E2]. intros [= <-].
    destruct v as [[name] ts msg]. done. }
  destruct (Z.eqb_spec type GET_LOG_POSITION) as [->|_].
  { unfold GetLogPosition_from_raw.
    destruct (parse_as codec GET_LOG_POSITION SLog message) as [v|e] eqn:E; [|done].
    apply parse_as_Ok in E as [E1 E2]. intros [= <-].
    destruct v as [name]. done. }
  destruct (Z.eqb_spec type LOG_POSITION_RESPONSE) as [->|_].
  { unfold LogPositionResponse_from_raw.
    destruct (parse_as codec LOG_POSITION_RESPONSE SLogPosition message) as [v|e] eqn:E; [|done].
    apply parse_as_Ok in E as [E1 E2]. intros [= <-].
    destruct v as [[name] pos]. done. }
  destruct (Z.eqb_spec type GET_LOG_CONTENT) as [->|_].
  { unfold GetLogContent_from_raw.
    destruct (parse_as codec GET_LOG_CONTENT SLogContentRequest message) as [v|e] eqn:E; [|done].
    apply parse_as_Ok in E as [E1 E2]. intros [= <-].
    destruct v as [[name] id b e]. done. }
  destruct (Z.eqb_spec type LOG_CONTENT_STATUS) as [->|_].
  { unfold LogContentStatus_from_raw.
    destruct (parse_as codec LOG_CONTENT_STATUS SLogContentResponse message) as [v|e] eqn:E; [|done].
    apply parse_as_Ok in E as [E1 E2]. cbn [mbind result_bind].
    destruct (ContentStatus_of_value (pbs_status v)) as [s|e] eqn:Es; [|done].
    apply ContentStatus_value_of_value in Es. intros [= <-].
    destruct v as [id st]. simpl in *. subst st. done. }
  destruct (Z.eqb_spec type LOG_CONTENT_DATA) as [->|_]; [|done].
  unfold LogContentData_from_raw.
  destruct (parse_as codec LOG_CONTENT_DATA SLogContentData message) as [v|e] eqn:E; [|done].
  apply parse_as_Ok in E as [E1 E2]. cbn [mbind result_bind].
  destruct v as [id b e cs]. cbn [pbd_end_record pbd_begin_record pbd_contents pbd_request_id].
  unfold LogContentDataNetworkMessage_init.
  destruct (Z.ltb_spec e b); [done|].
  destruct (Z.eqb_spec (e - b + 1) (len cs)); [|done].
  simpl. intros [= <-]. simpl. split_and!; first [done|lia].
Qed.

(** X5. [serialize] of a message of the six kinds fails in one way only:
    with OverflowError, when the contents are 2^32 bytes or more.  Its type
    check never fires.  Otherwise the frame is five bytes longer than the
    contents and is read back as the type code, the length and the
    contents. *)
Theorem serialize_fails_only_by_overflow (m : NetworkMessage) :
  let contents := get_contents codec m in
  (2 ^ 32 <= len contents -> serialize codec m = Raise OverflowError)
  /\ (len contents < 2 ^ 32 ->
      exists frame,
        serialize codec m = Ok frame
        /\ len frame = 5 + len contents
        /\ drop 5 frame = contents
        /\ read_frame frame
           = Ok {| raw_meta := {| meta_type := get_type m; meta_length := len contents |};
                   raw_contents := contents |}).
Proof.
  intros contents. pose proof (get_type_range m) as Ht. split.
  - intros Hl. unfold serialize. apply serialize_frame_overflow; [lia|done].
  - intros Hl. eexists. split; [apply serialize_frame_ok; [lia|done]|].
    fold contents. split_and!.
    + unfold len. rewrite !length_app, !length_be_digits. lia.
    + rewrite app_assoc. rewrite drop_app_length'; [done|].
      rewrite length_app, !length_be_digits. lia.
    + apply read_frame_serialized; [lia|done].
Qed.

Lemma take_app_le' {A} (l k : list A) n : (n <= length l)%nat -> take n (l ++ k) = take n l.
Proof. intros H. by rewrite take_app_le. Qed.

(** X6. A frame is read by its header alone.  With [n] the length its
    header announces: a buffer that holds fewer than [n] bytes after the
    header is refused with a ValueError; otherwise whatever follows the
    first [5 + n] bytes (stale bytes of a reused buffer) has no effect on
    the message decoded. *)
Theorem decode_reads_announced_length (kind : Z) (frame : bytes) :
  (5 <= length frame)%nat ->
  let n := int_from_bytes (take 4 (drop 1 frame)) in
  (len frame < 5 + n ->
     decode codec kind frame = Raise (ValueError "invalid contents length"))
  /\ (5 + n <= len frame ->
      forall rest, decode codec kind (take (Z.to_nat (5 + n)) frame ++ rest)
                   = decode codec kind frame).
Proof.
  intros H5 n.
  assert (0 <= n) as Hn0.
  { unfold n, int_from_bytes.
    assert (forall bs a, 0 <= a -> 0 <= fold_left (fun acc b => acc * 256 + Z_of_byte b) bs a) as Hf.
    { induction bs as [|b bs IH]; intros a Ha; simpl; [done|].
      apply IH. unfold Z_of_byte. lia. }
    by apply Hf. }
  assert (len (drop 5 frame) = len frame - 5) as Hd.
  { unfold len. rewrite length_drop. lia. }
  split.
  - intros Hlt. unfold decode, read_frame, RawNetworkMessage_init.
    assert (meta_length (NetworkMessageMeta_init (take 5 frame)) = n) as ->.
    { unfold NetworkMessageMeta_init, n. simpl meta_length.
      by rewrite skipn_firstn_comm, take_take. }
    destruct (Z.ltb_spec (len (drop 5 frame)) n); [done|lia].
  - intros Hle rest.
    set (k := Z.to_nat (5 + n)).
    assert (5 <= k <= length frame)%nat as Hk by (unfold k, len in *; lia).
    unfold decode, read_frame, RawNetworkMessage_init.
    assert (take 5 (take k frame ++ rest) = take 5 frame) as ->.
    { rewrite take_app_le' by (rewrite length_take; lia).
      rewrite take_take. f_equal. lia. }
    assert (meta_length (NetworkMessageMeta_init (take 5 frame)) = n) as Hm.
    { unfold NetworkMessageMeta_init, n. simpl meta_length.
      by rewrite skipn_firstn_comm, take_take. }
    rewrite Hm.
    assert (drop 5 (take k frame ++ rest) = take (k - 5) (drop 5 frame) ++ rest) as ->.
    { rewrite drop_app_le by (rewrite length_take; lia).
      by rewrite skipn_firstn_comm. }
    assert ((len (take (k - 5) (drop 5 frame) ++ rest) <? n) = false) as ->.
    { apply Z.ltb_ge. unfold len. rewrite length_app, length_take, length_drop.
      unfold k, len in *. lia. }
    assert ((len (drop 5 frame) <? n) = false) as -> by (apply Z.ltb_ge; lia).
    cbn [mbind result_bind].
    assert (forall c1 c2, take (Z.to_nat n) c1 = take (Z.to_nat n) c2 ->
              from_raw codec kind {| raw_meta := NetworkMessageMeta_init (take 5 frame);
                                     raw_contents := c1 |}
              = from_raw codec kind {| raw_meta := NetworkMessageMeta_init (take 5 frame);
                                       raw_contents := c2 |}) as Hsame.
    { intros c1 c2 Hc.
      unfold from_raw, AddRecord_from_raw, GetLogPosition_from_raw,
        LogPositionResponse_from_raw, GetLogContent_from_raw, LogContentStatus_from_raw,
        LogContentData_from_raw, parse_as, raw_get_type, raw_get_contents.
      cbn [raw_meta raw_contents]. rewrite Hm, Hc. done. }
    apply Hsame.
    assert (Z.to_nat n = (k - 5)%nat) as -> by (unfold k; lia).
    rewrite take_app_le' by (rewrite length_take, length_drop; lia).
    by rewrite take_take, Nat.min_id.
Qed.

End Facts.

Lemma from_raw_sound_witness :
  let message := raw_of (frame_of RefCodec.codec demo_data) in
  from_raw RefCodec.codec LOG_CONTENT_DATA message = Ok demo_data
  /\ raw_get_type message = LOG_CONTENT_DATA
  /\ get_type demo_data = LOG_CONTENT_DATA
  /\ ParseFromString RefCodec.codec (schema_of demo_data) (raw_get_contents message)
     = Some (payload demo_data)
  /\ on_wire demo_data = demo_data
  /\ counts_match demo_data.
Proof.
  split; [vm_compute; reflexivity|].
  apply (from_raw_sound RefCodec.codec LOG_CONTENT_DATA
           (raw_of (frame_of RefCodec.codec demo_data)) demo_data).
  vm_compute. reflexivity.
Defined.

Lemma decode_reads_announced_length_witness :
  let frame := frame_of RefCodec.codec demo_data in
  let n := int_from_bytes (take 4 (drop 1 frame)) in
  (len frame < 5 + n ->
     decode RefCodec.codec LOG_CONTENT_DATA frame = Raise (ValueError "invalid contents length"))
  /\ (5 + n <= len frame ->
      forall rest, decode RefCodec.codec LOG_CONTENT_DATA (take (Z.to_nat (5 + n)) frame ++ rest)
                   = decode RefCodec.codec LOG_CONTENT_DATA frame).
Proof.
  apply (decode_reads_announced_length RefCodec.codec LOG_CONTENT_DATA
           (frame_of RefCodec.codec demo_data)).
  vm_compute. lia.
Defined.

End NetworkingFacts.

(** ** More of agent/proxyconnection.py: the requests a handler holds *)

Module ContentRequestFacts.
Import LogModel Networking ContentRequests.
Local Open Scope Z_scope.

(** Request ids are the positions in the order of creation, and a request
    has received as many records as its next index is past its first. *)
Definition numbered (H : ContentRequestHandler) : Prop :=
  next_request_id H = len (store H)
  /\ forall l r, store H !! l = Some r ->
       request_id r = Z.of_nat l
       /\ next_record_ind r = begin_record r + len (content r).

Lemma numbered_init : numbered ContentRequestHandler_init.
Proof. split; [done|]. intros l r Hl. done. Qed.

Lemma numbered_call H c H' :
  numbered H -> handler_call H c = Ok H' -> numbered H'.
Proof.
  intros [Hn Hs] Hc. destruct c as [log b e|id b records|id s]; simpl in Hc.
  - injection Hc as <-. split; simpl.
    + unfold len in *. rewrite length_app. simpl. lia.
    + intros l r Hl. apply lookup_app_Some in Hl as [Hl|[Hlen Hl]]; [by apply Hs|].
      destruct (l - length (store H))%nat eqn:E; [|done].
      simpl in Hl. injection Hl as <-.
      cbn [ContentRequest_init request_id next_record_ind begin_record content].
      rewrite Hn. unfold len. cbn [length]. split; lia.
  - unfold add_records in Hc.
    destruct (requests_get H id) as [[l req]|] eqn:Hget; [|by injection Hc as <-].
    apply requests_get_inv in Hget as [Hid Hl].
    destruct (got_all_requested_records req); [done|].
    destruct (negb _); [done|]. injection Hc as <-.
    rewrite fold_req_add_record.
    assert (l < length (store H))%nat as Hlt by (by eapply lookup_lt_Some).
    split; simpl.
    + unfold len. by rewrite length_insert.
    + intros l' r Hl'. destruct (decide (l' = l)) as [->|Hne].
      * rewrite list_lookup_insert_eq in Hl' by done. injection Hl' as <-. simpl.
        destruct (Hs l req Hl) as [H1 H2]. split; [done|].
        unfold len in *. rewrite length_app. lia.
      * rewrite list_lookup_insert_ne in Hl' by done. by apply Hs.
  - injection Hc as <-. unfold set_status.
    destruct (requests_get H id) as [[l req]|] eqn:Hget; [|done].
    apply requests_get_inv in Hget as [Hid Hl].
    assert (l < length (store H))%nat as Hlt by (by eapply lookup_lt_Some).
    split; simpl.
    + unfold len. by rewrite length_insert.
    + intros l' r Hl'. destruct (decide (l' = l)) as [->|Hne].
      * rewrite list_lookup_insert_eq in Hl' by done. injection Hl' as <-. simpl.
        by apply Hs.
      * rewrite list_lookup_insert_ne in Hl' by done. by apply Hs.
Qed.

Lemma numbered_calls cs H H' :
  numbered H -> handler_calls H cs = Ok H' -> numbered H'.
Proof.
  revert H. induction cs as [|c cs IH]; intros H Hn Hcs; simpl in Hcs.
  - by injection Hcs as <-.
  - destruct (handler_call H c) as [H1|] eqn:Hc; [|done]. simpl in Hcs.
    eapply IH; [|done]. by eapply numbered_call.
Qed.

(** X7. The registry of a handler.  In whatever state a handler is after
    any calls that raised nothing: request ids are 0, 1, 2, ... in the
    order of creation, so no id is given twice; the dictionary holds
    exactly the requests that are PENDING or RECEIVING, each under its own
    id; and each request has queued exactly the records between its first
    record and its next index. *)
Theorem handler_holds_live_requests (cs : list HandlerCall) (H : ContentRequestHandler) :
  handler_calls ContentRequestHandler_init cs = Ok H ->
  next_request_id H = len (store H)
  /\ (forall l r, store H !! l = Some r ->
        request_id r = Z.of_nat l
        /\ next_record_ind r = begin_record r + len (content r)
        /\ (is_live (status r) = true <-> requests H !! request_id r = Some l))
  /\ (forall id l, requests H !! id = Some l ->
        exists r, store H !! l = Some r /\ request_id r = id)
  /\ (forall id, next_request_id H <= id -> requests_get H id = None).
Proof.
  intros Hcs.
  assert (handler_wf H) as [Ha Hb] by (eapply handler_wf_calls; [apply handler_wf_init|done]).
  assert (numbered H) as [Hn Hs] by (eapply numbered_calls; [apply numbered_init|done]).
  split_and!; [done| | |].
  - intros l r Hl. destruct (Hs l r Hl) as [H1 H2]. split_and!; [done..|].
    destruct (Hb l r Hl) as [_ Hreg]. split.
    + intros Hlive. destruct Hreg as [|[_ Ht]]; [done|].
      unfold is_terminal in Ht. by rewrite Hlive in Ht.
    + intros Hreg'. destruct (Ha _ _ Hreg') as (r' & Hr' & _ & Hlive).
      rewrite Hl in Hr'. by injection Hr' as <-.
  - intros id l Hid. destruct (Ha id l Hid) as (r & Hr & Hrid & _). by exists r.
  - intros id Hid. apply requests_get_None.
    destruct (requests H !! id) as [l|] eqn:E; [|done].
    destruct (Ha id l E) as (r & Hr & Hrid & _).
    destruct (Hb l r Hr) as [Hlt _]. lia.
Qed.

Lemma handler_holds_live_requests_witness :
  let H := demo_after_later in
  next_request_id H = len (store H)
  /\ (forall l r, store H !! l = Some r ->
        request_id r = Z.of_nat l
        /\ next_record_ind r = begin_record r + len (content r)
        /\ (is_live (status r) = true <-> requests H !! request_id r = Some l))
  /\ (forall id l, requests H !! id = Some l ->
        exists r, store H !! l = Some r /\ request_id r = id)
  /\ (forall id, next_request_id H <= id -> requests_get H id = None).
Proof.
  apply (handler_holds_live_requests
           (demo_history ++ [CallSetStatus 1 DROPPED] ++ demo_later) demo_after_later).
  vm_compute. reflexivity.
Defined.

End ContentRequestFacts.

(** ** More of agent/validator.py: what a job concludes from the records *)

Module ValidatorFacts.
Import LogModel Backend Networking ContentRequests Agent Validator.
Local Open Scope Z_scope.

(** [__handle_new_record], for each record of a list in turn.  This is what
    the loop of [do_work] does with the records of a queue up to the first
    empty one ([drain_spec]); an empty record is never handled. *)
Fixpoint replay (A : LfbAgent) (j : LogValidatorJob) (records : list string)
  : result (LfbAgent * LogValidatorJob) :=
  match records with
  | [] => Ok (A, j)
  | new_record :: records' =>
      match handle_new_record A j new_record with
      | Ok (A', j') => replay A' j' records'
      | Raise e => Raise e
      end
  end.

(** The dictionaries a snapshot returns from [upload_prep] when the records
    of each group are added and then uploaded, group after group. *)
Fixpoint engine_snapshots (s : Snapshot) (groups : list (list LogRecord))
  : list SnapshotDict :=
  match groups with
  | [] => []
  | g :: groups' =>
      let '(d, s') := upload_prep (add_record_seq s g) in
      d :: engine_snapshots s' groups'
  end.

(** The running fingerprint after more records. *)
Definition chain (h : string) (records : list string) : string :=
  fold_left (fun h r => hash_fun (h +:+ r)) records h.

Definition job_at (j : LogValidatorJob) (remaining : list SnapshotDict) (h : string)
    (counter : Z) (finished : bool) : LogValidatorJob :=
  {| job := job j; job_log := job_log j; remaining_snapshots := remaining;
     running := h; records_counter := counter; validation_finished := finished |}.

(** What [__handle_new_record] relies on when it reads
    [remaining_snapshots[0]]. *)
Definition job_ok (j : LogValidatorJob) : Prop :=
  validation_finished j = true \/ remaining_snapshots j <> [].

(** From [(A, j)] to [(A', j')] the job has posted nothing, or it was not
    finished and has posted its one verdict and finished. *)
Definition progress (A : LfbAgent) (j : LogValidatorJob)
    (A' : LfbAgent) (j' : LogValidatorJob) : Prop :=
  job_ok j' /\ job_log j' = job_log j
  /\ ((validation_finished j' = validation_finished j /\ verdicts A' = verdicts A)
      \/ (validation_finished j = false /\ validation_finished j' = true
          /\ exists ok, verdicts A' = verdicts A ++ [(log_id (job_log j), ok)])).

(** The queue of a request, replaced. *)
Definition with_content (r : ContentRequest) (q : list string) : ContentRequest :=
  {| request_id := request_id r; req_log := req_log r; begin_record := begin_record r;
     next_record_ind := next_record_ind r; end_record := end_record r;
     status := status r; content := q |}.

(** *** Records against snapshots *)

Lemma replay_app A j xs ys :
  replay A j (xs ++ ys)
  = match replay A j xs with
    | Ok (A', j') => replay A' j' ys
    | Raise e => Raise e
    end.
Proof.
  revert A j. induction xs as [|x xs IH]; intros A j; simpl; [done|].
  destruct (handle_new_record A j x) as [[A' j']|e]; [apply IH|done].
Qed.

Lemma replay_finished A j xs :
  validation_finished j = true -> replay A j xs = Ok (A, j).
Proof.
  intros Hf. induction xs as [|x xs IH]; simpl; [done|].
  unfold handle_new_record. by rewrite Hf.
Qed.

Lemma chain_snoc h xs x : chain h (xs ++ [x]) = hash_fun (chain h xs +:+ x).
Proof. unfold chain. by rewrite fold_left_app. Qed.

Lemma fold_hash_chain rs : fold_hash rs = chain (hash_fun "") (map data rs).
Proof.
  unfold fold_hash, chain. generalize (hash_fun "").
  induction rs as [|r rs IH]; intros h; simpl; [done|apply IH].
Qed.

(** Short of the last line of the next snapshot, records are only hashed
    and counted. *)
Lemma replay_within A j d rest xs :
  validation_finished j = false ->
  remaining_snapshots j = d :: rest ->
  records_counter j + len xs <= lastLine d ->
  replay A j xs
  = Ok (A, job_at j (d :: rest) (chain (running j) xs) (records_counter j + len xs) false).
Proof.
  revert j. induction xs as [|x xs IH]; intros j Hf Hr Hle.
  - simpl. unfold job_at, len. simpl. rewrite Z.add_0_r.
    destruct j. simpl in *. by subst.
  - assert (len (x :: xs) = 1 + len xs) as Hlen by (unfold len; simpl; lia).
    assert (0 <= len xs) as Hpos by (unfold len; lia).
    rewrite Hlen in Hle. cbn [replay]. unfold handle_new_record. rewrite Hf, Hr.
    cbv zeta.
    destruct (Z.ltb_spec (lastLine d) (records_counter j + 1)); [lia|].
    rewrite IH; [|done|done|simpl; lia].
    unfold job_at. simpl. rewrite Hlen. do 3 f_equal. lia.
Qed.

(** What the record that passes the last line of the next snapshot does. *)
Definition at_boundary (A : LfbAgent) (j : LogValidatorJob) (d : SnapshotDict)
    (rest : list SnapshotDict) (fp : string) (counter : Z) : LfbAgent * LogValidatorJob :=
  if negb (String.eqb fp (fingerprint d)) || bool_decide (length rest = 0%nat)
  then (with_backend A
          (post_log_status (backend A) (job_log j)
             (bool_decide (length rest = 0%nat) && String.eqb fp (fingerprint d))),
        job_at j rest (hash_fun "") counter true)
  else (A, job_at j rest (hash_fun "") counter false).

Lemma handle_boundary A j d rest x :
  validation_finished j = false ->
  remaining_snapshots j = d :: rest ->
  lastLine d < records_counter j + 1 ->
  handle_new_record A j x
  = Ok (at_boundary A j d rest (hash_fun (running j +:+ x)) (records_counter j + 1)).
Proof.
  intros Hf Hr Hlt. unfold handle_new_record, at_boundary. rewrite Hf, Hr.
  cbv zeta.
  destruct (Z.ltb_spec (lastLine d) (records_counter j + 1)); [|lia].
  destruct (negb _ || _); [|done].
  unfold finish_validation. done.
Qed.

Lemma replay_group A j d rest xs x :
  validation_finished j = false ->
  remaining_snapshots j = d :: rest ->
  lastLine d = records_counter j + len xs ->
  replay A j (xs ++ [x])
  = Ok (at_boundary A j d rest (chain (running j) (xs ++ [x]))
          (records_counter j + len xs + 1)).
Proof.
  intros Hf Hr Hl. rewrite replay_app, (replay_within A j d rest xs) by (done || lia).
  cbn [replay]. rewrite handle_boundary with (d := d) (rest := rest); [|done|done|simpl; lia].
  rewrite chain_snoc. unfold at_boundary. cbn [job_at running records_counter job_log job].
  by destruct (negb _ || _).
Qed.

(** *** Snapshots of the engine *)

Definition fresh_at (s : Snapshot) (n : Z) : Prop :=
  cum_hash s = hash_fun "" /\ line_count s = 0 /\ first_line s = n.

Lemma engine_snapshots_cons s n g gs :
  fresh_at s n ->
  engine_snapshots s (g :: gs)
  = {| firstLine := n; lastLine := n + len g - 1; logId := log_id (log s);
       fingerprint := fold_hash g |}
    :: engine_snapshots (reset (add_record_seq s g)) gs
  /\ fresh_at (reset (add_record_seq s g)) (n + len g)
  /\ log (reset (add_record_seq s g)) = log s.
Proof.
  intros (Hh & Hc & Hn).
  destruct (CollectorFacts.add_record_seq_keeps s g) as [Hf Hl].
  cbn [engine_snapshots upload_prep]. unfold to_dict, fresh_at, get_next_line, get_hash.
  cbn [reset cum_hash line_count first_line log]. unfold get_next_line.
  rewrite Hf, Hl, add_records_line_count, add_records_fresh, Hc, Hn by done.
  unfold len. split_and!; reflexivity || lia.
Qed.

Lemma length_engine_snapshots s gs : length (engine_snapshots s gs) = length gs.
Proof.
  revert s. induction gs as [|g gs IH]; intros s; [reflexivity|].
  cbn [engine_snapshots upload_prep length]. by rewrite IH.
Qed.

Lemma engine_snapshots_more s gs :
  gs <> [] -> bool_decide (length (engine_snapshots s gs) = 0%nat) = false.
Proof.
  intros Hne. apply bool_decide_eq_false_2. rewrite length_engine_snapshots.
  destruct gs; [by destruct Hne|]. cbn [length]. lia.
Qed.

(** Whole groups, with more to come, move the job to the next snapshot
    and post nothing. *)
Lemma replay_groups_more A j s pre post :
  validation_finished j = false -> running j = hash_fun "" ->
  fresh_at s (records_counter j) ->
  Forall (fun g => g <> []) pre -> post <> [] ->
  remaining_snapshots j = engine_snapshots s (pre ++ post) ->
  exists j1 s1,
    replay A j (map data (concat pre)) = Ok (A, j1)
    /\ validation_finished j1 = false /\ running j1 = hash_fun ""
    /\ fresh_at s1 (records_counter j1)
    /\ remaining_snapshots j1 = engine_snapshots s1 post
    /\ job_log j1 = job_log j.
Proof.
  intros Hf Hrun Hs Hpre Hpost. revert j s Hf Hrun Hs.
  induction Hpre as [|g pre Hg Hpre IH]; intros j s Hf Hrun Hs Hr.
  - exists j, s. by split_and!.
  - destruct (engine_snapshots_cons s (records_counter j) g (pre ++ post) Hs)
      as (Hcons & Hs' & _).
    cbn [app] in Hr. rewrite Hcons in Hr.
    destruct g as [|r0 g0] using rev_ind; [exfalso; apply Hg; reflexivity|]. clear IHg0.
    cbn [concat]. rewrite (map_app data (g0 ++ [r0])), replay_app, (map_app data g0).
    cbn [map]. rewrite (replay_group A j _ _ (map data g0) (data r0) Hf Hr).
    2:{ cbn [lastLine]. unfold len. rewrite length_map, length_app. simpl. lia. }
    unfold at_boundary. cbn [fingerprint].
    rewrite fold_hash_chain, map_app, Hrun. cbn [map]. rewrite String.eqb_refl.
    rewrite engine_snapshots_more by (destruct pre; [exact Hpost|discriminate]).
    cbn [negb orb].
    set (j1 := job_at j _ _ _ _).
    destruct (IH j1 (reset (add_record_seq s (g0 ++ [r0]))))
      as (j2 & s2 & IH1 & IH2 & IH3 & IH4 & IH5 & IH6);
      [reflexivity|reflexivity| |reflexivity|].
    { unfold j1. cbn [job_at records_counter].
      replace (records_counter j + len (map data g0) + 1)
        with (records_counter j + len (g0 ++ [r0])); [done|].
      unfold len. rewrite length_map, length_app. simpl. lia. }
    exists j2, s2. rewrite IH1. split_and!; assumption || reflexivity.
Qed.

(** A proper prefix of the records of the groups finishes nothing. *)
Lemma replay_prefix A j s gs n :
  validation_finished j = false -> running j = hash_fun "" ->
  fresh_at s (records_counter j) ->
  Forall (fun g => g <> []) gs ->
  remaining_snapshots j = engine_snapshots s gs ->
  (n < length (map data (concat gs)))%nat ->
  exists j1, replay A j (take n (map data (concat gs))) = Ok (A, j1)
             /\ validation_finished j1 = false /\ job_log j1 = job_log j.
Proof.
  intros Hf Hrun Hs Hgs. revert j s n Hf Hrun Hs.
  induction Hgs as [|g gs Hg Hgs IH]; intros j s n Hf Hrun Hs Hr Hn; [simpl in Hn; lia|].
  destruct (engine_snapshots_cons s (records_counter j) g gs Hs) as (Hcons & Hs' & _).
  rewrite Hcons in Hr. cbn [concat] in *. rewrite map_app in *.
  destruct (decide (n < length (map data g))%nat) as [Hlt|Hge].
  - rewrite take_app_le by lia.
    rewrite (replay_within A j _ _ _ Hf Hr).
    + eexists. by split_and!.
    + cbn [lastLine]. unfold len. rewrite length_take. rewrite length_map in *. lia.
  - rewrite take_app_ge by lia. rewrite replay_app.
    destruct g as [|r0 g0] using rev_ind; [exfalso; apply Hg; reflexivity|]. clear IHg0.
    rewrite map_app. cbn [map].
    rewrite (replay_group A j _ _ (map data g0) (data r0) Hf Hr).
    2:{ cbn [lastLine]. unfold len. rewrite length_map, length_app. simpl. lia. }
    unfold at_boundary. cbn [fingerprint].
    rewrite fold_hash_chain, map_app, Hrun. cbn [map]. rewrite String.eqb_refl.
    rewrite length_app in Hn.
    assert (gs <> []) as Hne by (intros ->; simpl in Hn; lia).
    rewrite engine_snapshots_more by exact Hne.
    cbn [negb orb].
    set (j1 := job_at j _ _ _ _).
    destruct (IH j1 (reset (add_record_seq s (g0 ++ [r0])))
                (n - length (map data g0 ++ [data r0]))%nat) as (j2 & IH1 & IH2 & IH3);
      [reflexivity|reflexivity| |reflexivity| |].
    { unfold j1. cbn [job_at records_counter].
      replace (records_counter j + len (map data g0) + 1)
        with (records_counter j + len (g0 ++ [r0])); [done|].
      unfold len. rewrite length_map, length_app. simpl. lia. }
    { repeat first [rewrite length_app in Hn | rewrite length_map in Hn].
      repeat first [rewrite length_app in Hge | rewrite length_map in Hge].
      repeat first [rewrite length_app | rewrite length_map].
      cbn [length] in *. lia. }
    exists j2. rewrite IH1. split_and!; assumption || reflexivity.
Qed.

Lemma init_with_snapshots A snapshots a l :
  snapshots <> [] ->
  LogValidatorJob_init A snapshots a l
  = (A, {| job := a; job_log := l; remaining_snapshots := snapshots;
           running := hash_fun ""; records_counter := 0;
           validation_finished := false |}).
Proof.
  intros Hne. unfold LogValidatorJob_init.
  rewrite bool_decide_eq_false_2; [reflexivity|].
  destruct snapshots; [by destruct Hne|discriminate].
Qed.

Lemma engine_snapshots_nonempty s gs : gs <> [] -> engine_snapshots s gs <> [].
Proof.
  intros Hne Heq. apply (f_equal length) in Heq.
  rewrite length_engine_snapshots in Heq. destruct gs; [by destruct Hne|discriminate].
Qed.

(** The records of an untouched log, handled in order: the verdict is true,
    posted at the last record and not before. *)
Lemma replay_honest (A : LfbAgent) (a : AgentContentRequest) (lg l : Log)
    (groups : list (list LogRecord)) :
  Forall (fun g => g <> []) groups ->
  let snapshots := engine_snapshots (Snapshot_init lg 0) groups in
  let records := map data (concat groups) in
  let start := LogValidatorJob_init A snapshots a l in
  (exists A' j', replay start.1 start.2 records = Ok (A', j')
     /\ validation_finished j' = true
     /\ verdicts A' = verdicts A ++ [(log_id l, true)])
  /\ (forall n, (n < length records)%nat ->
        exists A' j', replay start.1 start.2 (take n records) = Ok (A', j')
          /\ validation_finished j' = false /\ verdicts A' = verdicts A).
Proof.
  intros Hgs snapshots records start.
  destruct (decide (groups = [])) as [->|Hne].
  { split; [|intros n Hn; simpl in Hn; lia].
    unfold start, snapshots, records, LogValidatorJob_init, finish_validation.
    cbn [engine_snapshots concat map length validation_finished remaining_snapshots
         running job_log replay fst snd].
    rewrite bool_decide_eq_true_2 by reflexivity. cbn [fst snd replay].
    rewrite String.eqb_refl. cbn [andb].
    eexists _, _. split; [reflexivity|]. split; [reflexivity|]. apply verdicts_post. }
  assert (fresh_at (Snapshot_init lg 0) 0) as Hfresh by (split_and!; reflexivity).
  unfold start. rewrite init_with_snapshots by (by apply engine_snapshots_nonempty).
  cbn [fst snd].
  set (j0 := {| job := a; job_log := l; remaining_snapshots := snapshots;
                running := hash_fun ""; records_counter := 0;
                validation_finished := false |}).
  split.
  - destruct groups as [|g pre _] using rev_ind; [by destruct Hne|].
    apply Forall_app in Hgs as [Hpre Hg]. apply Forall_inv in Hg.
    destruct (replay_groups_more A j0 (Snapshot_init lg 0) pre [g])
      as (j1 & s1 & R1 & R2 & R3 & R4 & R5 & R6);
      [reflexivity|reflexivity|exact Hfresh|exact Hpre|discriminate|reflexivity|].
    unfold records. rewrite concat_app, map_app, replay_app, R1.
    cbn [concat]. rewrite app_nil_r.
    destruct (engine_snapshots_cons s1 (records_counter j1) g [] R4) as (Hcons & _ & _).
    rewrite Hcons in R5. cbn [engine_snapshots] in R5.
    destruct g as [|r0 g0 _] using rev_ind; [exfalso; apply Hg; reflexivity|].
    rewrite map_app. cbn [map].
    rewrite (replay_group A j1 _ _ (map data g0) (data r0) R2 R5).
    2:{ cbn [lastLine]. unfold len. rewrite length_map, length_app. simpl. lia. }
    unfold at_boundary. cbn [fingerprint length].
    rewrite fold_hash_chain, map_app, R3. cbn [map]. rewrite String.eqb_refl.
    rewrite bool_decide_eq_true_2 by reflexivity. cbn [negb orb andb].
    eexists _, _. split; [reflexivity|]. split; [reflexivity|].
    rewrite verdicts_post, R6. reflexivity.
  - intros n Hn.
    destruct (replay_prefix A j0 (Snapshot_init lg 0) groups n) as (j1 & R1 & R2 & R3);
      [reflexivity|reflexivity|exact Hfresh|exact Hgs|reflexivity|exact Hn|].
    exists A, j1. split_and!; assumption || reflexivity.
Qed.

(** Records that do not hash to the fingerprint of their snapshot: the
    verdict is false, posted at the last of them. *)
Lemma replay_tampered (A : LfbAgent) (a : AgentContentRequest) (lg l : Log)
    (pre : list (list LogRecord)) (g : list LogRecord) (post : list (list LogRecord))
    (received more : list string) :
  Forall (fun g => g <> []) pre ->
  g <> [] ->
  length received = length g ->
  chain (hash_fun "") received <> fold_hash g ->
  let snapshots := engine_snapshots (Snapshot_init lg 0) (pre ++ g :: post) in
  let start := LogValidatorJob_init A snapshots a l in
  exists A' j',
    replay start.1 start.2 (map data (concat pre) ++ received ++ more) = Ok (A', j')
    /\ validation_finished j' = true
    /\ verdicts A' = verdicts A ++ [(log_id l, false)].
Proof.
  intros Hpre Hg Hlen Hdiff snapshots start.
  assert (fresh_at (Snapshot_init lg 0) 0) as Hfresh by (split_and!; reflexivity).
  unfold start. rewrite init_with_snapshots.
  2:{ apply engine_snapshots_nonempty. destruct pre; discriminate. }
  cbn [fst snd].
  set (j0 := {| job := a; job_log := l; remaining_snapshots := snapshots;
                running := hash_fun ""; records_counter := 0;
                validation_finished := false |}).
  destruct (replay_groups_more A j0 (Snapshot_init lg 0) pre (g :: post))
    as (j1 & s1 & R1 & R2 & R3 & R4 & R5 & R6);
    [reflexivity|reflexivity|exact Hfresh|exact Hpre|discriminate|reflexivity|].
  rewrite replay_app, R1.
  destruct (engine_snapshots_cons s1 (records_counter j1) g post R4) as (Hcons & _ & _).
  rewrite Hcons in R5.
  destruct received as [|x xs _] using rev_ind.
  { destruct g; [exfalso; apply Hg; reflexivity|discriminate Hlen]. }
  rewrite replay_app.
  rewrite (replay_group A j1 _ _ xs x R2 R5).
  2:{ cbn [lastLine]. unfold len. rewrite <- Hlen, length_app. simpl. lia. }
  unfold at_boundary. cbn [fingerprint].
  rewrite R3. apply String.eqb_neq in Hdiff. rewrite Hdiff.
  cbn [negb orb]. rewrite andb_false_r.
  rewrite replay_finished by reflexivity.
  eexists _, _. split; [reflexivity|]. split; [reflexivity|].
  rewrite verdicts_post, R6. reflexivity.
Qed.

Definition demo_groups : list (list LogRecord) :=
  [[demo_record "x"; demo_record "y"]; [demo_record "z"]].

Definition demo_idle : AgentContentRequest := {| children := []; lead := None |}.

(** *** The loop of [do_work] *)

Lemma drain_spec fuel lead A j taken rest res :
  Forall (fun r => r <> "") taken ->
  replay A j taken = Ok res ->
  content lead = taken ++ rest ->
  rest = [] \/ (exists left, rest = "" :: left) ->
  (length taken < fuel)%nat ->
  drain fuel lead A j = (with_content lead (tail rest), Ok res).
Proof.
  intros Htaken. revert fuel lead A j.
  induction Htaken as [|x taken Hx Htaken IH]; intros fuel lead A j Hrep Hq Hrest Hfuel.
  - destruct fuel as [|fuel]; [simpl in Hfuel; lia|].
    cbn [replay] in Hrep. injection Hrep as <-.
    cbn [drain]. unfold pop_record. cbn [app] in Hq. rewrite Hq.
    destruct Hrest as [->|[left ->]]; cbn [tail].
    + f_equal. destruct lead. unfold with_content. simpl in *. by subst.
    + rewrite String.eqb_refl. reflexivity.
  - destruct fuel as [|fuel]; [simpl in Hfuel; lia|].
    cbn [replay] in Hrep.
    destruct (handle_new_record A j x) as [[A' j']|e] eqn:Hx'; [|discriminate Hrep].
    cbn [drain]. unfold pop_record. cbn [app] in Hq. rewrite Hq.
    apply String.eqb_neq in Hx. rewrite Hx, Hx'.
    set (lead' := mkRequest _ _ _ _ _ _ _).
    rewrite (IH fuel lead' A' j' Hrep eq_refl Hrest) by (simpl in Hfuel; lia).
    reflexivity.
Qed.

(** X10. The loop of [do_work] takes records from the queue of the lead
    until the queue is empty or the record taken is the empty string.  The
    records before the first empty one are handled in order; the empty
    record is taken off the queue and not handled; what follows it stays
    queued. *)
Theorem drain_stops_at_empty_record (lead : ContentRequest) (A : LfbAgent)
    (j : LogValidatorJob) (taken : list string) (res : LfbAgent * LogValidatorJob) :
  Forall (fun r => r <> "") taken ->
  replay A j taken = Ok res ->
  (content lead = taken ->
     drain (S (length (content lead))) lead A j = (with_content lead [], Ok res))
  /\ (forall left, content lead = taken ++ "" :: left ->
        drain (S (length (content lead))) lead A j = (with_content lead left, Ok res)).
Proof.
  intros Htaken Hrep. split.
  - intros Hq. apply (drain_spec _ lead A j taken [] res); try assumption.
    + by rewrite app_nil_r.
    + by left.
    + rewrite Hq. lia.
  - intros left Hq. apply (drain_spec _ lead A j taken ("" :: left) res); try assumption.
    + right. by exists left.
    + rewrite Hq, length_app. lia.
Qed.

Definition demo_lead (q : list string) : ContentRequest :=
  {| request_id := 0; req_log := demo_log; begin_record := 0; next_record_ind := 4;
     end_record := 3; status := CLOSED; content := q |}.

Definition demo_job : LogValidatorJob :=
  (LogValidatorJob_init (demo_agent (ProxyConnection_init [] false))
     (engine_snapshots (Snapshot_init demo_log 0) demo_groups) demo_idle demo_log).2.

Definition demo_after_x : LfbAgent * LogValidatorJob :=
  match replay (demo_agent (ProxyConnection_init [] false)) demo_job ["x"] with
  | Ok res => res
  | Raise _ => (demo_agent (ProxyConnection_init [] false), demo_job)
  end.

Lemma drain_stops_at_empty_record_witness :
  let A := demo_agent (ProxyConnection_init [] false) in
  (content (demo_lead ["x"; ""; "y"; "z"]) = ["x"] ->
     drain (S (length (content (demo_lead ["x"; ""; "y"; "z"]))))
       (demo_lead ["x"; ""; "y"; "z"]) A demo_job
     = (with_content (demo_lead ["x"; ""; "y"; "z"]) [], Ok demo_after_x))
  /\ (forall left, content (demo_lead ["x"; ""; "y"; "z"]) = ["x"] ++ "" :: left ->
        drain (S (length (content (demo_lead ["x"; ""; "y"; "z"]))))
          (demo_lead ["x"; ""; "y"; "z"]) A demo_job
        = (with_content (demo_lead ["x"; ""; "y"; "z"]) left, Ok demo_after_x)).
Proof.
  apply (drain_stops_at_empty_record (demo_lead ["x"; ""; "y"; "z"])
           (demo_agent (ProxyConnection_init [] false)) demo_job ["x"] demo_after_x).
  - repeat constructor; discriminate.
  - vm_compute. reflexivity.
Defined.

(** *** One verdict for each job *)

Lemma backend_drop_request A r : backend (drop_request A r) = backend A.
Proof.
  unfold drop_request. destruct (objects A !! r.1) as [con|]; [|reflexivity].
  destruct (store (content_requestor con) !! r.2); reflexivity.
Qed.

Lemma backend_select_lead A a ld : backend (select_lead A a ld).1 = backend A.
Proof.
  unfold select_lead. cbn [fst]. revert A.
  induction (children a) as [|r rs IH]; intros A; [reflexivity|].
  cbn [fold_left]. rewrite IH. destruct (decide (r = ld)); [reflexivity|].
  apply backend_drop_request.
Qed.

Lemma backend_try_resolve_lead A a i : backend (try_resolve_lead A a i).1 = backend A.
Proof.
  revert a. induction i as [|i IH]; intros a; [reflexivity|].
  cbn [try_resolve_lead]. destruct (children a !! i) as [r|]; [|reflexivity].
  destruct (status_of A r) as [[| | | |]|]; try apply IH; try reflexivity;
    apply backend_select_lead.
Qed.

Lemma backend_get_lead A a : backend (get_lead A a).1.1 = backend A.
Proof.
  unfold get_lead. destruct (lead a); [reflexivity|].
  pose proof (backend_try_resolve_lead A a (length (children a))) as Hb.
  destruct (try_resolve_lead A a (length (children a))) as [A' a']. exact Hb.
Qed.

Lemma verdicts_backend A B : backend A = backend B -> verdicts A = verdicts B.
Proof. unfold verdicts. by intros ->. Qed.

Lemma progress_stay A j A' j' :
  job_ok j -> verdicts A' = verdicts A -> job_log j' = job_log j ->
  validation_finished j' = validation_finished j ->
  remaining_snapshots j' = remaining_snapshots j ->
  progress A j A' j'.
Proof.
  intros Hok Hv Hl Hf Hr. split_and!; [|exact Hl|left; by split].
  unfold job_ok. rewrite Hf, Hr. exact Hok.
Qed.

Lemma progress_trans A j A1 j1 A2 j2 :
  progress A j A1 j1 -> progress A1 j1 A2 j2 -> progress A j A2 j2.
Proof.
  intros (_ & Hl1 & H1) (Hok & Hl2 & H2). split_and!; [exact Hok|congruence|].
  destruct H1 as [[Hf1 Hv1]|(Hf1 & Hf1' & ok & Hv1)],
           H2 as [[Hf2 Hv2]|(Hf2 & Hf2' & ok2 & Hv2)].
  - left. split; congruence.
  - right. split_and!; [congruence|exact Hf2'|]. exists ok2. congruence.
  - right. split_and!; [exact Hf1|congruence|]. exists ok. congruence.
  - congruence.
Qed.

Lemma handle_within A j d rest x :
  validation_finished j = false ->
  remaining_snapshots j = d :: rest ->
  records_counter j + 1 <= lastLine d ->
  handle_new_record A j x
  = Ok (A, job_at j (d :: rest) (hash_fun (running j +:+ x)) (records_counter j + 1) false).
Proof.
  intros Hf Hr Hle. unfold handle_new_record. rewrite Hf, Hr. cbv zeta.
  destruct (Z.ltb_spec (lastLine d) (records_counter j + 1)); [lia|].
  reflexivity.
Qed.

Lemma handle_new_record_progress A j x :
  job_ok j ->
  exists A' j', handle_new_record A j x = Ok (A', j') /\ progress A j A' j'.
Proof.
  intros Hok. destruct (validation_finished j) eqn:Hf.
  { exists A, j. split; [unfold handle_new_record; by rewrite Hf|].
    by apply progress_stay. }
  destruct Hok as [Hok|Hne]; [congruence|].
  destruct (remaining_snapshots j) as [|d rest] eqn:Hr; [by destruct Hne|].
  destruct (Z.ltb_spec (lastLine d) (records_counter j + 1)) as [Hlt|Hge].
  - rewrite (handle_boundary A j d rest x Hf Hr Hlt). unfold at_boundary.
    destruct (negb _ || bool_decide (length rest = 0%nat)) eqn:Hfin.
    + eexists _, _. split; [reflexivity|]. split_and!.
      * left. reflexivity.
      * reflexivity.
      * right. split_and!; [exact Hf|reflexivity|]. eexists. apply verdicts_post.
    + eexists _, _. split; [reflexivity|]. split_and!.
      * right. cbn [job_at remaining_snapshots].
        apply orb_false_iff in Hfin as [_ Hrest].
        apply bool_decide_eq_false_1 in Hrest. by destruct rest.
      * reflexivity.
      * left. split; [cbn [job_at validation_finished]; by rewrite Hf|reflexivity].
  - rewrite (handle_within A j d rest x Hf Hr Hge).
    eexists _, _. split; [reflexivity|]. split_and!.
    + right. discriminate.
    + reflexivity.
    + left. split; [cbn [job_at validation_finished]; by rewrite Hf|reflexivity].
Qed.

Lemma drain_progress fuel lead A j :
  job_ok j ->
  exists lead' A' j', drain fuel lead A j = (lead', Ok (A', j')) /\ progress A j A' j'.
Proof.
  revert lead A j. induction fuel as [|fuel IH]; intros lead A j Hok.
  { exists lead, A, j. split; [reflexivity|]. by apply progress_stay. }
  cbn [drain]. destruct (pop_record lead) as [[x|] lead'].
  - destruct (String.eqb x "").
    + exists lead', A, j. split; [reflexivity|]. by apply progress_stay.
    + destruct (handle_new_record_progress A j x Hok) as (A1 & j1 & H1 & P1).
      rewrite H1. destruct P1 as (Hok1 & P1).
      destruct (IH lead' A1 j1 Hok1) as (lead2 & A2 & j2 & H2 & P2).
      exists lead2, A2, j2. split; [exact H2|].
      eapply progress_trans; [|exact P2]. by split.
  - exists lead', A, j. split; [reflexivity|]. by apply progress_stay.
Qed.

Lemma job_ok_init A snapshots a l : job_ok (LogValidatorJob_init A snapshots a l).2.
Proof.
  unfold LogValidatorJob_init, finish_validation.
  destruct snapshots as [|d rest].
  - rewrite bool_decide_eq_true_2 by reflexivity. left. reflexivity.
  - rewrite bool_decide_eq_false_2 by discriminate. right. discriminate.
Qed.

(** X11. A pass of the worker over a job, [do_work] and then
    [work_in_progress], in whatever state the agent is.  For a job that is
    finished or still has a snapshot to check, as every job is when it is
    created and after each pass: [do_work] raises nothing (it never reads
    past the last snapshot), and each of the two calls either posts
    nothing, or finds the job unfinished, posts one verdict for its log and
    leaves it finished.  So a job posts at most one verdict. *)
Theorem worker_posts_at_most_once (A : LfbAgent) (j : LogValidatorJob) :
  job_ok j ->
  exists A1 j1,
    do_work A j = (A1, j1, None)
    /\ progress A j A1 j1
    /\ progress A1 j1 (work_in_progress A1 j1).1.1 (work_in_progress A1 j1).1.2.
Proof.
  intros Hok.
  assert (forall B k, job_ok k ->
            progress B k (work_in_progress B k).1.1 (work_in_progress B k).1.2) as Hwip.
  { intros B k Hk. unfold work_in_progress.
    destruct (is_dead (job k)).
    - unfold finish_validation. destruct (validation_finished k) eqn:Hf.
      + by apply progress_stay.
      + split_and!; [left; reflexivity|reflexivity|].
        right. split_and!; [exact Hf|reflexivity|]. eexists. apply verdicts_post.
    - pose proof (backend_get_lead B (job k)) as Hb.
      destruct (get_lead B (job k)) as [[B' a'] ld]. cbn [fst snd] in *.
      apply progress_stay; [exact Hk|by apply verdicts_backend|reflexivity..]. }
  unfold do_work.
  pose proof (backend_get_lead A (job j)) as Hb.
  destruct (get_lead A (job j)) as [[A1 a1] ld]. cbn [fst snd] in Hb.
  assert (progress A j A1 (with_job j a1)) as P0.
  { apply progress_stay; [exact Hok|by apply verdicts_backend|reflexivity..]. }
  destruct ld as [r|]; [|eexists _, _; split_and!; [reflexivity|exact P0|apply Hwip, P0]].
  destruct (deref A1 r) as [lead_request|];
    [|eexists _, _; split_and!; [reflexivity|exact P0|apply Hwip, P0]].
  destruct (drain_progress (S (length (content lead_request))) lead_request A1 (with_job j a1))
    as (lead' & A3 & j3 & Hd & P3); [apply P0|].
  rewrite Hd.
  assert (progress A j (with_backend (set_request A1 r lead') (backend A3)) j3) as P.
  { eapply progress_trans; [exact P0|].
    destruct P3 as (H1 & H2 & H3). split_and!; [exact H1|exact H2|].
    assert (verdicts (with_backend (set_request A1 r lead') (backend A3)) = verdicts A3)
      as -> by (by apply verdicts_backend).
    exact H3. }
  eexists _, _. split_and!; [reflexivity|exact P|apply Hwip, P].
Qed.

Lemma worker_posts_at_most_once_witness :
  let A := demo_agent (ProxyConnection_init [] false) in
  exists A1 j1,
    do_work A demo_job = (A1, j1, None)
    /\ progress A demo_job A1 j1
    /\ progress A1 j1 (work_in_progress A1 j1).1.1 (work_in_progress A1 j1).1.2.
Proof.
  apply (worker_posts_at_most_once (demo_agent (ProxyConnection_init [] false)) demo_job).
  apply job_ok_init.
Defined.

(** *** Records through [do_work] *)

(** What [__handle_new_record] does depends on the backend and on the job,
    not on its aggregate nor on the rest of the agent. *)
Lemma handle_new_record_frame A j x B a' :
  backend B = backend A ->
  handle_new_record B (with_job j a') x
  = match handle_new_record A j x with
    | Ok (A', j') => Ok (with_backend B (backend A'), with_job j' a')
    | Raise e => Raise e
    end.
Proof.
  intros Hb.
  assert (with_backend B (backend A) = B) as HB by (destruct B; simpl in *; by subst).
  unfold handle_new_record, finish_validation, with_job.
  cbn [validation_finished remaining_snapshots running records_counter job_log job].
  destruct (validation_finished j) eqn:Hf; [rewrite HB, Hf; reflexivity|].
  destruct (remaining_snapshots j) as [|next rest]; [reflexivity|].
  cbv zeta.
  destruct (lastLine next <? records_counter j + 1); [|rewrite HB; reflexivity].
  destruct (negb _ || _);
    cbn [validation_finished remaining_snapshots running records_counter job_log job
         with_backend backend];
    [rewrite Hb; reflexivity|rewrite HB; reflexivity].
Qed.

Lemma replay_frame A j xs B a' :
  backend B = backend A ->
  replay B (with_job j a') xs
  = match replay A j xs with
    | Ok (A', j') => Ok (with_backend B (backend A'), with_job j' a')
    | Raise e => Raise e
    end.
Proof.
  revert A j B. induction xs as [|x xs IH]; intros A j B Hb.
  - cbn [replay]. f_equal. destruct B; simpl in *; by subst.
  - cbn [replay]. rewrite (handle_new_record_frame A j x B a' Hb).
    destruct (handle_new_record A j x) as [[A1 j1]|e]; [|reflexivity].
    rewrite (IH A1 j1 (with_backend B (backend A1))) by reflexivity.
    destruct (replay A1 j1 xs) as [[A2 j2]|e]; reflexivity.
Qed.

(** [do_work] finds the lead and the queue of the lead, handles its records
    up to the first empty one and leaves the rest. *)
Lemma do_work_queue (A A1 : LfbAgent) (j : LogValidatorJob) (a1 : AgentContentRequest)
    (r : request_ref) (q : ContentRequest) (taken rest : list string)
    (res : LfbAgent * LogValidatorJob) :
  get_lead A (job j) = (A1, a1, Some r) ->
  deref A1 r = Some q ->
  content q = taken ++ rest ->
  Forall (fun x => x <> "") taken ->
  rest = [] \/ (exists left, rest = "" :: left) ->
  replay A j taken = Ok res ->
  exists A',
    do_work A j = (A', with_job res.2 a1, None) /\ backend A' = backend res.1.
Proof.
  intros Hlead Hq Hcontent Htaken Hrest Hrep.
  unfold do_work. rewrite Hlead, Hq.
  pose proof (backend_get_lead A (job j)) as Hb. rewrite Hlead in Hb. cbn [fst] in Hb.
  pose proof (replay_frame A j taken A1 a1 Hb) as Hframe. rewrite Hrep in Hframe.
  destruct res as [A3 j3].
  rewrite (drain_spec _ q A1 (with_job j a1) taken rest _ Htaken Hframe Hcontent Hrest)
    by (rewrite Hcontent, length_app; lia).
  eexists. split; reflexivity.
Qed.

Lemma get_lead_elected A a r : lead a = Some r -> get_lead A a = (A, a, Some r).
Proof. intros H. unfold get_lead. by rewrite H. Qed.

Lemma job_init A snapshots a l : job (LogValidatorJob_init A snapshots a l).2 = a.
Proof.
  unfold LogValidatorJob_init, finish_validation. cbn [validation_finished].
  by destruct (bool_decide (length snapshots = 0%nat)).
Qed.

Lemma nonempty_data (groups : list (list LogRecord)) :
  Forall (fun g => Forall (fun x => data x <> "") g) groups ->
  Forall (fun x => x <> "") (map data (concat groups)).
Proof.
  induction 1 as [|g groups Hg _ IH]; [constructor|].
  cbn [concat]. rewrite map_app. apply Forall_app. split; [|exact IH].
  clear IH. induction Hg; constructor; assumption.
Qed.

(** Any queue is a run of non-empty records, then nothing or an empty
    record and the rest. *)
Lemma split_at_empty (xs : list string) :
  exists taken rest,
    xs = taken ++ rest /\ Forall (fun x => x <> "") taken
    /\ (rest = [] \/ exists left, rest = "" :: left).
Proof.
  induction xs as [|x xs (taken & rest & -> & Ht & Hr)].
  - exists [], []. split_and!; [reflexivity|constructor|by left].
  - destruct (decide (x = "")) as [->|Hx].
    + exists [], ("" :: taken ++ rest). split_and!; [reflexivity|constructor|].
      right. by eexists.
    + exists (x :: taken), rest. split_and!; [reflexivity|by constructor|exact Hr].
Qed.

(** X8. A log that was not touched verifies, when none of its records is
    the empty string.  Take the snapshots the engine produced for a log
    from line 0, one for each non-empty group of records uploaded, and a
    new job for these snapshots.  When [do_work] finds a lead for the job
    and the lead has these records queued, in order, it raises nothing and
    finishes the job with the verdict true, posted once.  With only a
    proper prefix of the records queued, it leaves the job unfinished and
    posts nothing. *)
Theorem honest_log_is_verified (A A1 : LfbAgent) (a a1 : AgentContentRequest)
    (r : request_ref) (q : ContentRequest) (lg l : Log) (groups : list (list LogRecord)) :
  let snapshots := engine_snapshots (Snapshot_init lg 0) groups in
  let records := map data (concat groups) in
  let start := LogValidatorJob_init A snapshots a l in
  Forall (fun g => g <> []) groups ->
  Forall (fun g => Forall (fun x => data x <> "") g) groups ->
  get_lead start.1 (job start.2) = (A1, a1, Some r) ->
  deref A1 r = Some q ->
  (content q = records ->
     exists A' j', do_work start.1 start.2 = (A', j', None)
       /\ validation_finished j' = true
       /\ verdicts A' = verdicts A ++ [(log_id l, true)])
  /\ (forall n, (n < length records)%nat -> content q = take n records ->
        exists A' j', do_work start.1 start.2 = (A', j', None)
          /\ validation_finished j' = false /\ verdicts A' = verdicts A).
Proof.
  intros snapshots records start Hgs Hdata Hlead Hq.
  assert (Forall (fun x => x <> "") records) as Hrecords.
  { unfold records. by apply nonempty_data. }
  destruct (replay_honest A a lg l groups Hgs) as [(A2 & j2 & R1 & F1 & V1) Hprefix].
  fold snapshots in R1, Hprefix. fold records in R1, Hprefix. fold start in R1, Hprefix.
  split.
  - intros Hcontent.
    destruct (do_work_queue start.1 A1 start.2 a1 r q records [] (A2, j2) Hlead Hq)
      as (A' & E & Hb); [by rewrite app_nil_r|exact Hrecords|by left|exact R1|].
    exists A', (with_job j2 a1). split; [exact E|]. split; [exact F1|].
    rewrite <- V1. by apply verdicts_backend.
  - intros n Hn Hcontent.
    destruct (Hprefix n Hn) as (A3 & j3 & R2 & F2 & V2).
    destruct (do_work_queue start.1 A1 start.2 a1 r q (take n records) [] (A3, j3) Hlead Hq)
      as (A' & E & Hb); [by rewrite app_nil_r|by apply Forall_take|by left|exact R2|].
    exists A', (with_job j3 a1). split; [exact E|]. split; [exact F2|].
    rewrite <- V2. by apply verdicts_backend.
Qed.

(** X9. A log that was touched is refused.  [do_work] finds a lead for a
    new job, and the lead has queued the records of the first snapshots as
    they were uploaded, then, for the next snapshot, as many records as it
    covers that hash to something else than its fingerprint, none of all
    these the empty string, then anything.  It raises nothing and finishes
    the job with the verdict false, posted once, whatever the later
    snapshots hold and whatever is queued behind. *)
Theorem tampered_log_is_refused (A A1 : LfbAgent) (a a1 : AgentContentRequest)
    (r : request_ref) (q : ContentRequest) (lg l : Log)
    (pre : list (list LogRecord)) (g : list LogRecord) (post : list (list LogRecord))
    (received more : list string) :
  let snapshots := engine_snapshots (Snapshot_init lg 0) (pre ++ g :: post) in
  let start := LogValidatorJob_init A snapshots a l in
  Forall (fun g => g <> []) pre ->
  g <> [] ->
  length received = length g ->
  chain (hash_fun "") received <> fold_hash g ->
  Forall (fun g => Forall (fun x => data x <> "") g) pre ->
  Forall (fun x => x <> "") received ->
  get_lead start.1 (job start.2) = (A1, a1, Some r) ->
  deref A1 r = Some q ->
  content q = map data (concat pre) ++ received ++ more ->
  exists A' j',
    do_work start.1 start.2 = (A', j', None)
    /\ validation_finished j' = true
    /\ verdicts A' = verdicts A ++ [(log_id l, false)].
Proof.
  intros snapshots start Hpre Hg Hlen Hdiff Hdata Hreceived Hlead Hq Hcontent.
  destruct (split_at_empty more) as (taken & rest & -> & Htaken & Hrest).
  assert (Forall (fun x => x <> "") (map data (concat pre))) as Hrecords.
  { by apply nonempty_data. }
  destruct (replay_tampered A a lg l pre g post received taken Hpre Hg Hlen Hdiff)
    as (A2 & j2 & R1 & F1 & V1).
  fold snapshots in R1. fold start in R1.
  destruct (do_work_queue start.1 A1 start.2 a1 r q
              (map data (concat pre) ++ received ++ taken) rest (A2, j2) Hlead Hq)
    as (A' & E & Hb).
  - by rewrite Hcontent, <- !app_assoc.
  - repeat (apply Forall_app; split); assumption.
  - exact Hrest.
  - exact R1.
  - exists A', (with_job j2 a1). split; [exact E|]. split; [exact F1|].
    rewrite <- V1. by apply verdicts_backend.
Qed.

(** An agent whose first connection holds a request with [q] queued, and an
    aggregate whose lead is that request. *)
Definition demo_queued (q : list string) : LfbAgent :=
  demo_agent
    (with_requestor (ProxyConnection_init [] false)
       {| store := [demo_lead q]; requests := ∅; next_request_id := 1 |}).

Definition demo_led : AgentContentRequest :=
  {| children := []; lead := Some (0%nat, 0%nat) |}.

(** The aggregate before its lead is elected. *)
Definition demo_unled : AgentContentRequest :=
  {| children := [(0%nat, 0%nat)]; lead := None |}.

Lemma honest_log_is_verified_witness :
  let A := demo_queued ["x"; "y"; "z"] in
  let snapshots := engine_snapshots (Snapshot_init demo_log 0) demo_groups in
  let start := LogValidatorJob_init A snapshots demo_unled demo_log in
  exists A' j', do_work start.1 start.2 = (A', j', None)
    /\ validation_finished j' = true
    /\ verdicts A' = verdicts A ++ [(log_id demo_log, true)].
Proof.
  apply (honest_log_is_verified (demo_queued ["x"; "y"; "z"]) (demo_queued ["x"; "y"; "z"])
           demo_unled demo_led (0%nat, 0%nat) (demo_lead ["x"; "y"; "z"]) demo_log demo_log
           demo_groups).
  - repeat constructor; discriminate.
  - repeat constructor; discriminate.
  - reflexivity.
  - reflexivity.
  - reflexivity.
Defined.

Lemma tampered_log_is_refused_witness :
  let A := demo_queued ["x"; "y"; "Z"; ""; "w"] in
  let snapshots := engine_snapshots (Snapshot_init demo_log 0) demo_groups in
  let start := LogValidatorJob_init A snapshots demo_led demo_log in
  exists A' j', do_work start.1 start.2 = (A', j', None)
    /\ validation_finished j' = true
    /\ verdicts A' = verdicts A ++ [(log_id demo_log, false)].
Proof.
  apply (tampered_log_is_refused (demo_queued ["x"; "y"; "Z"; ""; "w"])
           (demo_queued ["x"; "y"; "Z"; ""; "w"]) demo_led demo_led
           (0%nat, 0%nat) (demo_lead ["x"; "y"; "Z"; ""; "w"]) demo_log demo_log
           [[demo_record "x"; demo_record "y"]] [demo_record "z"] [] ["Z"] [""; "w"]).
  - repeat constructor; discriminate.
  - discriminate.
  - reflexivity.
  - vm_compute. discriminate.
  - repeat constructor; discriminate.
  - repeat constructor; discriminate.
  - reflexivity.
  - reflexivity.
  - reflexivity.
Defined.

(** The same log with a blank line in it: the pass stops at the empty
    record, and the records behind it wait for the next pass. *)
Example demo_blank_line_stops :
  let A := demo_queued ["x"; ""; "z"] in
  let snapshots := engine_snapshots (Snapshot_init demo_log 0)
                     [[demo_record "x"; demo_record ""; demo_record "z"]] in
  let start := LogValidatorJob_init A snapshots demo_led demo_log in
  validation_finished (do_work start.1 start.2).1.2 = false
  /\ records_counter (do_work start.1 start.2).1.2 = 1
  /\ verdicts (do_work start.1 start.2).1.1 = []
  /\ (content <$> deref (do_work start.1 start.2).1.1 (0%nat, 0%nat)) = Some ["z"].
Proof. vm_compute. split_and!; reflexivity. Qed.

End ValidatorFacts.

(** ** A content request from the agent to a proxy and back

    agent/proxyconnection.py ([request_content], the deserializer) against
    proxy/filesystem/contentmanager.py. *)

Module ContentExchange.
Import LogModel Networking ContentRequests.
Local Open Scope Z_scope.



















(** A file whose second line ends in a no-break space, a space and a line
    separator before its newline. *)
Definition demo_file : list string :=
  ["a" +:+ PyStr.LF; "b" +:+ PyStr.NBSP +:+ " " +:+ PyStr.LSEP +:+ PyStr.LF;
   PyStr.EURO +:+ PyStr.LF; "d"].

Example demo_exchange_strips :
  ContentServer.sent
    (ContentServer.handle_log_content_request (ContentServer.demo_proxy demo_file)
       "/t/a.log" 7 1 5).1
  = [ LogContentStatusNetworkMessage 7 FOUND_AND_BEGIN_SEND;
      LogContentDataNetworkMessage 7 1 3 ["b"; PyStr.EURO; "d"];
      LogContentStatusNetworkMessage 7 END_SEND ].
Proof. vm_compute. reflexivity. Qed.


End ContentExchange.

(** ** More of agent/lfb_agent.py: asking every proxy *)

Module AgentFacts.
Import LogModel Backend Networking ContentRequests Agent.
Local Open Scope Z_scope.

(** The connection [c] of [A] once it has been asked for the content. *)
Definition asked (A : LfbAgent) (log : Log) (begin_record end_record : Z) (c : nat)
  : option ProxyConnection :=
  con ← objects A !! c;
  Some (send (with_requestor con
                (create_request (content_requestor con) log begin_record end_record).1)
             (GetLogContentNetworkMessage log (next_request_id (content_requestor con))
                begin_record end_record)).

(** The reference to the request made on connection [c]. *)
Definition new_ref (A : LfbAgent) (c : nat) : option request_ref :=
  con ← objects A !! c;
  Some (c, length (store (content_requestor con))).

(** The body of the loop of [request_log_content]. *)
Definition ask (log : Log) (begin_record end_record : Z)
  : LfbAgent * list request_ref -> nat -> LfbAgent * list request_ref :=
  fun '(A, requests) c =>
    match request_content A c log begin_record end_record with
    | (A', Some r) => (A', requests ++ [r])
    | (A', None) => (A', requests)
    end.

Lemma omap_same {X Y} (f g : X -> option Y) l :
  Forall (fun x => f x = g x) l -> omap f l = omap g l.
Proof.
  induction 1 as [|x l Hx _ IH]; [done|]. csimpl. by rewrite Hx, IH.
Qed.

Lemma ask_all log b e cs A rs :
  NoDup cs ->
  let res := fold_left (ask log b e) cs (A, rs) in
  res.2 = rs ++ omap (new_ref A) cs
  /\ connections res.1 = connections A
  /\ collector res.1 = collector A
  /\ backend res.1 = backend A
  /\ forall c, objects res.1 !! c
               = if decide (c ∈ cs) then asked A log b e c else objects A !! c.
Proof.
  revert A rs. induction cs as [|c cs IH]; intros A rs Hnd.
  { simpl. rewrite app_nil_r. split_and!; done. }
  apply NoDup_cons in Hnd as [Hc Hnd]. cbn [fold_left].
  destruct (objects A !! c) as [con|] eqn:Hcon.
  - assert (ask log b e (A, rs) c
            = (with_objects A
                 (<[c := send (with_requestor con (create_request (content_requestor con) log b e).1)
                           (GetLogContentNetworkMessage log
                              (next_request_id (content_requestor con)) b e)]> (objects A)),
               rs ++ [(c, length (store (content_requestor con)))])) as ->.
    { unfold ask, request_content. by rewrite Hcon. }
    set (A1 := with_objects A _).
    assert (forall x, x <> c -> objects A1 !! x = objects A !! x) as Hother.
    { intros x Hx. unfold A1. simpl. by rewrite list_lookup_insert_ne. }
    destruct (IH A1 (rs ++ [(c, length (store (content_requestor con)))]) Hnd)
      as (I1 & I2 & I3 & I4 & I5).
    split_and!; try done.
    + rewrite I1, <- app_assoc. f_equal. csimpl. unfold new_ref at 2. rewrite Hcon. csimpl.
      f_equal. apply omap_same. apply Forall_forall. intros x Hx.
      unfold new_ref. rewrite Hother; [done|]. by intros ->.
    + intros x. rewrite I5. destruct (decide (x = c)) as [->|Hx].
      * rewrite decide_False by done. rewrite decide_True by (by left).
        unfold asked. rewrite Hcon. simpl. unfold A1. simpl.
        apply list_lookup_insert_eq. by eapply lookup_lt_Some.
      * unfold asked. rewrite Hother by done.
        destruct (decide (x ∈ cs)) as [Hin|Hnin].
        -- rewrite decide_True by (by right). done.
        -- rewrite decide_False; [done|]. rewrite elem_of_cons. tauto.
  - assert (ask log b e (A, rs) c = (A, rs)) as ->.
    { unfold ask, request_content. by rewrite Hcon. }
    destruct (IH A rs Hnd) as (I1 & I2 & I3 & I4 & I5).
    split_and!; try done.
    + rewrite I1. csimpl. unfold new_ref at 2. by rewrite Hcon.
    + intros x. rewrite I5. destruct (decide (x = c)) as [->|Hx].
      * rewrite decide_False by done. rewrite decide_True by (by left).
        unfold asked. by rewrite Hcon.
      * destruct (decide (x ∈ cs)) as [Hin|Hnin].
        -- rewrite decide_True by (by right). done.
        -- rewrite decide_False; [done|]. rewrite elem_of_cons. tauto.
Qed.

(** X14. [request_log_content] asks every registered proxy once.  Each
    connection of the registry gets one new request, PENDING, and one
    GetLogContent message carrying the id of that request; a connection
    that is not registered (one that was lost) gets nothing.  The aggregate
    returned has no lead and lists the new requests in the order of the
    registry, so with an empty registry it is dead from the start.  The
    registry, the collector and the backend are untouched. *)
Theorem request_log_content_asks_everyone (A : LfbAgent) (log : Log) (b e : Z) :
  NoDup (connections A) ->
  let A' := (request_log_content A log b e).1 in
  let a := (request_log_content A log b e).2 in
  lead a = None
  /\ children a = omap (new_ref A) (connections A)
  /\ (forall c, objects A' !! c
                = if decide (c ∈ connections A) then asked A log b e c else objects A !! c)
  /\ Forall (fun r => status_of A' r = Some PENDING) (children a)
  /\ (connections A = [] -> is_dead a = true)
  /\ connections A' = connections A
  /\ collector A' = collector A
  /\ backend A' = backend A.
Proof.
  intros Hnd A' a.
  destruct (ask_all log b e (connections A) A [] Hnd) as (I1 & I2 & I3 & I4 & I5).
  assert (request_log_content A log b e
          = ((fold_left (ask log b e) (connections A) (A, [])).1,
             {| children := (fold_left (ask log b e) (connections A) (A, [])).2;
                lead := None |})) as Hdef.
  { unfold request_log_content.
    change (fold_left _ (connections A) (A, []))
      with (fold_left (ask log b e) (connections A) (A, [])).
    by destruct (fold_left (ask log b e) (connections A) (A, [])). }
  unfold A', a. rewrite Hdef. cbn [fst snd lead children].
  rewrite I1. cbn [app].
  split_and!; try done.
  - apply Forall_forall. intros r Hr.
    apply list_elem_of_omap in Hr as (c & Hc & Hr).
    unfold new_ref in Hr. destruct (objects A !! c) as [con|] eqn:Hcon; [|done].
    simpl in Hr. injection Hr as <-.
    unfold status_of, deref. cbn [fst snd]. rewrite I5, decide_True by done.
    unfold asked. rewrite Hcon. simpl.
    by rewrite list_lookup_middle.
  - intros ->. done.
Qed.

Lemma request_log_content_asks_everyone_witness :
  let A := demo_agent (ProxyConnection_init [] false) in
  let A' := (request_log_content A demo_log 0 4).1 in
  let a := (request_log_content A demo_log 0 4).2 in
  lead a = None
  /\ children a = omap (new_ref A) (connections A)
  /\ (forall c, objects A' !! c
                = if decide (c ∈ connections A) then asked A demo_log 0 4 c
                  else objects A !! c)
  /\ Forall (fun r => status_of A' r = Some PENDING) (children a)
  /\ (connections A = [] -> is_dead a = true)
  /\ connections A' = connections A
  /\ collector A' = collector A
  /\ backend A' = backend A.
Proof.
  apply (request_log_content_asks_everyone (demo_agent (ProxyConnection_init [] false))
           demo_log 0 4).
  vm_compute. repeat constructor; rewrite ?elem_of_cons, ?elem_of_nil; intuition lia.
Defined.

End AgentFacts.

(** ** lsocket.py: the buffering socket under a connection *)

Module BufferingSocket.
Import Networking.

(** What an exception of the socket module carries: no argument at all, as
    the [ConnectionError()] raised by [read], or an error number first. *)
Inductive error := NoArgs | Errno (n : Z).

Definition EAGAIN : Z := 11.
Definition EWOULDBLOCK : Z := 11.

(** [any(e.args) and (e.args[0] == EAGAIN or e.args[0] == EWOULDBLOCK)] *)
Definition would_block (e : error) : bool :=
  match e with
  | NoArgs => false
  | Errno n => negb (n =? 0)%Z && ((n =? EAGAIN)%Z || (n =? EWOULDBLOCK)%Z)
  end.

(** The operating system's end of a non-blocking socket: the bytes it has
    accepted for sending, in order, and what the next calls of [send] and
    [recv_into] meet.  A call that finds nothing planned would block. *)
Inductive send_event := Accepts (n : nat) | SendError (e : error).
Inductive recv_event := Delivers (data : bytes) | RecvError (e : error).

Record Sock := mkSock {
  wire : bytes;
  sends : list send_event;
  recvs : list recv_event;
}.

(** [sock.send(content)]: the count of bytes taken, or an exception. *)
Definition sock_send (k : Sock) (content : bytes) : Sock * (error + nat) :=
  match sends k with
  | [] => (k, inl (Errno EAGAIN))
  | SendError e :: rest =>
      ({| wire := wire k; sends := rest; recvs := recvs k |}, inl e)
  | Accepts n :: rest =>
      let taken := Nat.min n (length content) in
      ({| wire := wire k ++ take taken content; sends := rest; recvs := recvs k |},
       inr taken)
  end.

(** [sock.recv_into(view, nbytes)]: the bytes received, at most [nbytes] of
    them; none when the peer has shut down. *)
Definition sock_recv (k : Sock) (nbytes : nat) : Sock * (error + bytes) :=
  match recvs k with
  | [] => (k, inl (Errno EAGAIN))
  | RecvError e :: rest =>
      ({| wire := wire k; sends := sends k; recvs := rest |}, inl e)
  | Delivers data :: rest =>
      if (length data <=? nbytes)%nat
      then ({| wire := wire k; sends := sends k; recvs := rest |}, inr data)
      else ({| wire := wire k; sends := sends k;
               recvs := Delivers (drop nbytes data) :: rest |}, inr (take nbytes data))
  end.

Record BufferingSocket := mkSocket {
  sock : Sock;
  buffer_size : nat;
  buffer : bytes;
  temp_buffer : option bytes;
  position : nat;
  count_to_read : nat;
  send_queue : list bytes;
}.

Definition zeros (n : nat) : bytes := replicate n Byte.x00.

Definition BufferingSocket_init (k : Sock) (buffer_size : nat) : BufferingSocket :=
  {| sock := k; buffer_size := buffer_size; buffer := zeros buffer_size;
     temp_buffer := None; position := 0; count_to_read := 0; send_queue := [] |}.

Definition get_buffer (s : BufferingSocket) : bytes :=
  match temp_buffer s with
  | Some b => b
  | None => buffer s
  end.

Definition begin_read (s : BufferingSocket) (byte_count : nat) : BufferingSocket :=
  {| sock := sock s; buffer_size := buffer_size s; buffer := buffer s;
     temp_buffer := if (byte_count <=? buffer_size s)%nat then None
                    else Some (zeros byte_count);
     position := 0; count_to_read := byte_count; send_queue := send_queue s |}.

Definition with_sock (s : BufferingSocket) (k : Sock) : BufferingSocket :=
  {| sock := k; buffer_size := buffer_size s; buffer := buffer s;
     temp_buffer := temp_buffer s; position := position s;
     count_to_read := count_to_read s; send_queue := send_queue s |}.

Definition with_queue (s : BufferingSocket) (q : list bytes) : BufferingSocket :=
  {| sock := sock s; buffer_size := buffer_size s; buffer := buffer s;
     temp_buffer := temp_buffer s; position := position s;
     count_to_read := count_to_read s; send_queue := q |}.

(** Bytes written into a buffer from an offset on. *)
Definition write_at (b : bytes) (offset : nat) (data : bytes) : bytes :=
  take offset b ++ data ++ drop (offset + length data) b.

(** What [recv_into] leaves in the active buffer, and the new position. *)
Definition received (s : BufferingSocket) (k : Sock) (data : bytes) : BufferingSocket :=
  {| sock := k; buffer_size := buffer_size s;
     buffer := match temp_buffer s with
               | Some _ => buffer s
               | None => write_at (buffer s) (position s) data
               end;
     temp_buffer := match temp_buffer s with
                    | Some b => Some (write_at b (position s) data)
                    | None => None
                    end;
     position := position s + length data; count_to_read := count_to_read s;
     send_queue := send_queue s |}.

(** The result of a call: a value, an exception of the socket module, the
    ValueError of [recv_into] for a size it cannot serve, or no return at
    all. *)
Inductive outcome (A : Type) :=
| Returns (a : A) | Throws (e : error) | RaisesValueError | Spins.
Arguments Returns {A} a.
Arguments Throws {A} e.
Arguments RaisesValueError {A}.
Arguments Spins {A}.

(** The loop of [read].  Every turn that goes on has taken a byte or a
    planned event from the socket, except when nothing is planned any more
    and the call waits for the rest of a read it has begun: then it goes
    round for ever. *)
Fixpoint read_loop (fuel : nat) (s : BufferingSocket) (no_block : bool)
  : BufferingSocket * outcome bool :=
  match fuel with
  | O => (s, Spins)
  | S fuel' =>
      if (count_to_read s =? 0)%nat then (s, Returns true)
      else if (count_to_read s <? position s)%nat then (s, RaisesValueError)
      else
        let room := (length (get_buffer s) - position s)%nat in
        let wanted := (count_to_read s - position s)%nat in
        if (room <? wanted)%nat then (s, RaisesValueError)
        else
          let nbytes := if (wanted =? 0)%nat then room else wanted in
          match sock_recv (sock s) nbytes with
          | (k, inr data) =>
              if (length data =? 0)%nat then (with_sock s k, Throws NoArgs)
              else
                let s' := received s k data in
                if (position s' =? count_to_read s')%nat then (s', Returns true)
                else read_loop fuel' s' no_block
          | (k, inl e) =>
              if would_block e
              then if no_block || (position s =? 0)%nat then (with_sock s k, Returns false)
                   else read_loop fuel' (with_sock s k) no_block
              else (with_sock s k, Throws e)
          end
  end.

Definition read (s : BufferingSocket) (no_block : bool) : BufferingSocket * outcome bool :=
  read_loop (S (length (recvs (sock s)) + length (get_buffer s))) s no_block.

(** [BufferingSocket.send] *)
Definition send (s : BufferingSocket) (content : bytes) : BufferingSocket * (error + nat) :=
  match sock_send (sock s) content with
  | (k, inr n) => (with_sock s k, inr n)
  | (k, inl e) => if would_block e then (with_sock s k, inr 0%nat) else (with_sock s k, inl e)
  end.

(** [any(self.__send_queue)] *)
Definition any_nonempty (q : list bytes) : bool :=
  existsb (fun b => negb (length b =? 0)%nat) q.

(** The loop of [write]; every turn that goes on has taken an entry off
    the queue. *)
Fixpoint write_loop (fuel : nat) (s : BufferingSocket) : BufferingSocket * option error :=
  match fuel with
  | O => (s, None)
  | S fuel' =>
      if any_nonempty (send_queue s) then
        match send_queue s with
        | [] => (s, None)
        | to_send :: q =>
            match send (with_queue s q) to_send with
            | (s', inl e) => (s', Some e)
            | (s', inr sent) =>
                if (sent <? length to_send)%nat
                then (with_queue s' (drop sent to_send :: send_queue s'), None)
                else write_loop fuel' s'
            end
        end
      else (s, None)
  end.

Definition write (s : BufferingSocket) (content : bytes) : BufferingSocket * option error :=
  write_loop (S (S (length (send_queue s)))) (with_queue s (send_queue s ++ [content])).

(** [write], for each of a list of contents in turn, as long as nothing is
    raised. *)
Fixpoint writes (s : BufferingSocket) (contents : list bytes)
  : BufferingSocket * option error :=
  match contents with
  | [] => (s, None)
  | c :: contents' =>
      match write s c with
      | (s', None) => writes s' contents'
      | (s', Some e) => (s', Some e)
      end
  end.

(** *** Writing *)

(** What a call leaves alone: everything that has to do with reading. *)
Definition same_reading (s' s : BufferingSocket) : Prop :=
  recvs (sock s') = recvs (sock s) /\ buffer_size s' = buffer_size s
  /\ buffer s' = buffer s /\ temp_buffer s' = temp_buffer s
  /\ position s' = position s /\ count_to_read s' = count_to_read s.

Lemma write_loop_keeps fuel s s' :
  write_loop fuel s = (s', None) ->
  wire (sock s') ++ concat (send_queue s') = wire (sock s) ++ concat (send_queue s)
  /\ same_reading s' s.
Proof.
  revert s. induction fuel as [|fuel IH]; intros s Hw.
  { injection Hw as <-. by split. }
  cbn [write_loop] in Hw.
  destruct (any_nonempty (send_queue s)); [|injection Hw as <-; by split].
  destruct (send_queue s) as [|to_send q] eqn:Hq; [injection Hw as <-; rewrite Hq; by split|].
  unfold send, sock_send in Hw. cbn [with_queue sock] in Hw.
  assert (forall k, wire k = wire (sock s) -> recvs k = recvs (sock s) ->
            (if (0 <? length to_send)%nat
             then (with_queue (with_sock (with_queue s q) k)
                     (drop 0 to_send :: send_queue (with_sock (with_queue s q) k)), None)
             else write_loop fuel (with_sock (with_queue s q) k)) = (s', None) ->
            wire (sock s') ++ concat (send_queue s')
            = wire (sock s) ++ concat (to_send :: q) /\ same_reading s' s) as Hblocked.
  { intros k Hk Hr Hres. destruct (0 <? length to_send)%nat eqn:Hlen.
    - injection Hres as <-. simpl. rewrite Hk. by split.
    - apply Nat.ltb_ge in Hlen. assert (to_send = []) as -> by (apply nil_length_inv; lia).
      destruct (IH _ Hres) as [I1 I2]. simpl in I1. rewrite I1, Hk. split; [done|].
      destruct I2 as (?&?&?&?&?&?). simpl in *. split_and!; congruence. }
  destruct (sends (sock s)) as [|[n|e] rest].
  - cbn [would_block EAGAIN EWOULDBLOCK] in Hw. simpl in Hw. by apply (Hblocked (sock s)).
  - cbn [with_sock send_queue] in Hw.
    destruct (Nat.min n (length to_send) <? length to_send)%nat eqn:Hlen.
    + injection Hw as <-. simpl. split; [|by split_and!].
      rewrite <- app_assoc. f_equal. by rewrite app_assoc, take_drop.
    + apply Nat.ltb_ge in Hlen. destruct (IH _ Hw) as [I1 I2].
      simpl in I1. rewrite I1. split.
      * rewrite take_ge by lia. by rewrite <- app_assoc.
      * destruct I2 as (?&?&?&?&?&?). simpl in *. split_and!; congruence.
  - destruct (would_block e); [|done].
    by apply (Hblocked {| wire := wire (sock s); sends := rest; recvs := recvs (sock s) |}).
Qed.

Lemma write_keeps s content s' :
  write s content = (s', None) ->
  wire (sock s') ++ concat (send_queue s')
  = wire (sock s) ++ concat (send_queue s) ++ content
  /\ same_reading s' s.
Proof.
  intros Hw. apply write_loop_keeps in Hw as [H1 H2]. simpl in H1.
  rewrite H1, concat_app. simpl. by rewrite app_nil_r.
Qed.

(** X15. Nothing written is lost or overtaken.  Starting from a new
    buffering socket, after any sequence of [write] calls that raised
    nothing, and however little the operating system took at each attempt,
    the bytes it has taken followed by the bytes still queued are the
    contents written, in the order of the calls.  Writing leaves the
    reading side of the socket alone. *)
Theorem writes_keep_order (k : Sock) (size : nat) (contents : list bytes)
    (s' : BufferingSocket) :
  writes (BufferingSocket_init k size) contents = (s', None) ->
  wire (sock s') ++ concat (send_queue s') = wire k ++ concat contents
  /\ same_reading s' (BufferingSocket_init k size).
Proof.
  assert (forall s, writes s contents = (s', None) ->
            wire (sock s') ++ concat (send_queue s')
            = wire (sock s) ++ concat (send_queue s) ++ concat contents
            /\ same_reading s' s) as Hgen.
  { induction contents as [|c contents IH]; intros s Hw.
    - injection Hw as <-. simpl. rewrite app_nil_r. by split.
    - cbn [writes] in Hw. destruct (write s c) as [s1 [e|]] eqn:Hc; [done|].
      apply write_keeps in Hc as [C1 C2]. destruct (IH _ Hw) as [I1 I2].
      rewrite I1, app_assoc, C1. simpl. rewrite <- !app_assoc. split; [done|].
      destruct I2 as (?&?&?&?&?&?), C2 as (?&?&?&?&?&?). split_and!; congruence. }
  intros Hw. destruct (Hgen _ Hw) as [H1 H2]. by split.
Qed.

Definition demo_sock : Sock :=
  {| wire := []; sends := [Accepts 2; SendError (Errno EAGAIN); Accepts 100; Accepts 1];
     recvs := [RecvError (Errno EAGAIN); Delivers (map byte_of_Z [1; 2; 3]%Z);
               Delivers (map byte_of_Z [4; 5; 6; 7]%Z)] |}.

Definition demo_contents : list bytes :=
  [map byte_of_Z [10; 11; 12]%Z; map byte_of_Z [20; 21]%Z; map byte_of_Z [30; 31; 32]%Z].

Example demo_writes :
  let s' := (writes (BufferingSocket_init demo_sock 8) demo_contents).1 in
  wire (sock s') = map byte_of_Z [10; 11; 12; 20]%Z
  /\ send_queue s' = [map byte_of_Z [21]%Z; map byte_of_Z [30; 31; 32]%Z]
  /\ (writes (BufferingSocket_init demo_sock 8) demo_contents).2 = None.
Proof. vm_compute. done. Qed.

Lemma writes_keep_order_witness :
  let s' := (writes (BufferingSocket_init demo_sock 8) demo_contents).1 in
  wire (sock s') ++ concat (send_queue s') = wire demo_sock ++ concat demo_contents
  /\ same_reading s' (BufferingSocket_init demo_sock 8).
Proof.
  apply (writes_keep_order demo_sock 8 demo_contents
           (writes (BufferingSocket_init demo_sock 8) demo_contents).1).
  vm_compute. reflexivity.
Defined.

(** *** Reading *)

(** The bytes a list of planned events delivers. *)
Definition delivered (evs : list recv_event) : bytes :=
  concat (map (fun ev => match ev with Delivers d => d | RecvError _ => [] end) evs).

(** A read has begun and is not complete: the state in which
    [NetworkConnection.receive] calls [read]. *)
Definition ready (s : BufferingSocket) : Prop :=
  (count_to_read s <= length (get_buffer s))%nat
  /\ (position s <= count_to_read s)%nat
  /\ (position s = count_to_read s -> count_to_read s = 0%nat).

Definition same_writing (s' s : BufferingSocket) : Prop :=
  wire (sock s') = wire (sock s) /\ sends (sock s') = sends (sock s)
  /\ send_queue s' = send_queue s /\ buffer_size s' = buffer_size s.

(** From [s] to [s'] the bytes [got] were taken off the socket, in order,
    and put in the buffer behind those already there. *)
Definition gathered (s s' : BufferingSocket) (got : bytes) : Prop :=
  delivered (recvs (sock s)) = got ++ delivered (recvs (sock s'))
  /\ position s' = (position s + length got)%nat
  /\ take (position s') (get_buffer s') = take (position s) (get_buffer s) ++ got
  /\ count_to_read s' = count_to_read s
  /\ length (get_buffer s') = length (get_buffer s)
  /\ same_writing s' s.

Definition read_post (s : BufferingSocket) (no_block : bool) (s' : BufferingSocket)
    (out : outcome bool) : Prop :=
  match out with
  | Returns b =>
      exists got, gathered s s' got
                  /\ (position s' <= count_to_read s)%nat
                  /\ (b = true <-> position s' = count_to_read s)
  | Throws e => would_block e = false
  | RaisesValueError => False
  | Spins =>
      no_block = false /\ recvs (sock s') = []
      /\ (0 < position s' < count_to_read s)%nat
  end.

Lemma gathered_refl s : gathered s s [].
Proof.
  unfold gathered, same_writing. rewrite app_nil_r, Nat.add_0_r. by split_and!.
Qed.

Lemma gathered_trans s s1 s2 got1 got2 :
  gathered s s1 got1 -> gathered s1 s2 got2 -> gathered s s2 (got1 ++ got2).
Proof.
  intros (A1 & A2 & A3 & A4 & A5 & A6 & A7 & A8 & A9)
         (B1 & B2 & B3 & B4 & B5 & B6 & B7 & B8 & B9).
  unfold gathered, same_writing. rewrite length_app.
  split_and!; try congruence; try lia.
  - rewrite A1, B1. by rewrite app_assoc.
  - rewrite B3, A3. by rewrite app_assoc.
Qed.

Lemma read_post_after s s1 got1 nb s' out :
  gathered s s1 got1 -> read_post s1 nb s' out -> read_post s nb s' out.
Proof.
  intros Hg Hp. destruct out as [b|e| |]; try done.
  - destruct Hp as (got & Hgot & Hb). exists (got1 ++ got).
    split; [by eapply gathered_trans|].
    destruct Hg as (_ & _ & _ & <- & _). done.
  - unfold read_post in *. destruct Hg as (_ & _ & _ & <- & _). done.
Qed.

Lemma length_write_at b offset data :
  (offset + length data <= length b)%nat -> length (write_at b offset data) = length b.
Proof.
  intros Hle. unfold write_at. rewrite !length_app, length_take, length_drop. lia.
Qed.

Lemma take_write_at b offset data :
  (offset + length data <= length b)%nat ->
  take (offset + length data) (write_at b offset data) = take offset b ++ data.
Proof.
  intros Hle. unfold write_at. rewrite app_assoc.
  rewrite take_app_length'; [done|]. rewrite length_app, length_take. lia.
Qed.

Lemma get_buffer_received s k data :
  get_buffer (received s k data) = write_at (get_buffer s) (position s) data.
Proof. unfold get_buffer, received. simpl. by destruct (temp_buffer s). Qed.

(** Some bytes received into the buffer. *)
Lemma gathered_received s k data :
  (position s + length data <= length (get_buffer s))%nat ->
  delivered (recvs (sock s)) = data ++ delivered (recvs k) ->
  wire k = wire (sock s) -> sends k = sends (sock s) ->
  gathered s (received s k data) data.
Proof.
  intros Hle Hd Hw Hs. unfold gathered, same_writing.
  rewrite get_buffer_received. cbn [received position sock count_to_read send_queue buffer_size].
  split_and!; try done.
  - by apply take_write_at.
  - by apply length_write_at.
Qed.

(** An event other than a delivery taken off the plan, or none taken. *)
Lemma gathered_with_sock s k :
  delivered (recvs (sock s)) = delivered (recvs k) ->
  wire k = wire (sock s) -> sends k = sends (sock s) ->
  gathered s (with_sock s k) [].
Proof.
  intros Hd Hw Hs. unfold gathered, same_writing. simpl.
  rewrite app_nil_r, Nat.add_0_r. by split_and!.
Qed.

(** With nothing planned, a blocking read that has begun goes round for
    ever. *)
Lemma read_loop_waits fuel s :
  recvs (sock s) = [] -> ready s ->
  position s <> 0%nat -> count_to_read s <> 0%nat ->
  exists s', read_loop fuel s false = (s', Spins)
             /\ recvs (sock s') = [] /\ position s' = position s
             /\ count_to_read s' = count_to_read s.
Proof.
  revert s. induction fuel as [|fuel IH]; intros s Hr (Hbuf & Hle & Hfull) Hpos Hcount.
  { by exists s. }
  cbn [read_loop]. destruct (Nat.eqb_spec (count_to_read s) 0) as [|_]; [done|].
  destruct (Nat.ltb_spec (count_to_read s) (position s)); [lia|].
  destruct (Nat.ltb_spec (length (get_buffer s) - position s)
              (count_to_read s - position s)); [lia|].
  unfold sock_recv. rewrite Hr. cbn [would_block EAGAIN EWOULDBLOCK orb].
  change (negb (11 =? 0)%Z && ((11 =? 11)%Z || (11 =? 11)%Z)) with true. cbv iota.
  destruct (Nat.eqb_spec (position s) 0) as [|_]; [done|]. cbv iota.
  destruct (IH (with_sock s (sock s))) as (s' & E & E1 & E2 & E3); try done.
  by exists s'.
Qed.

Lemma read_loop_post fuel s nb s' out :
  ready s ->
  (length (recvs (sock s)) + (count_to_read s - position s) < fuel)%nat ->
  read_loop fuel s nb = (s', out) ->
  read_post s nb s' out.
Proof.
  revert s. induction fuel as [|fuel IH]; intros s Hready Hfuel Hrun; [lia|].
  pose proof Hready as (Hbuf & Hle & Hfull).
  cbn [read_loop] in Hrun.
  destruct (Nat.eqb_spec (count_to_read s) 0) as [H0|Hn0].
  { injection Hrun as <- <-. exists []. split; [apply gathered_refl|].
    split; [lia|]. split; [lia|done]. }
  destruct (Nat.ltb_spec (count_to_read s) (position s)); [lia|].
  destruct (Nat.ltb_spec (length (get_buffer s) - position s)
              (count_to_read s - position s)); [lia|].
  destruct (Nat.eqb_spec (count_to_read s - position s) 0) as [|_]; [lia|].
  set (wanted := (count_to_read s - position s)%nat) in *.
  (* what a would-block error leads to *)
  assert (forall k,
            delivered (recvs (sock s)) = delivered (recvs k) ->
            wire k = wire (sock s) -> sends k = sends (sock s) ->
            (recvs k = [] \/ length (recvs k) < length (recvs (sock s)))%nat ->
            (if nb || (position s =? 0)%nat then (with_sock s k, Returns false)
             else read_loop fuel (with_sock s k) nb) = (s', out) ->
            read_post s nb s' out) as Hblocked.
  { intros k Hd Hw Hs Hk Hres.
    pose proof (gathered_with_sock s k Hd Hw Hs) as Hg.
    destruct (nb || (position s =? 0)%nat) eqn:Hnb.
    - injection Hres as <- <-. exists []. split; [done|]. simpl.
      split; [lia|]. split; [done|lia].
    - apply orb_false_iff in Hnb as [-> Hpos]. apply Nat.eqb_neq in Hpos.
      destruct Hk as [Hk|Hk].
      + destruct (read_loop_waits fuel (with_sock s k)) as (s1 & E & E1 & E2 & E3);
          try done.
        rewrite E in Hres. injection Hres as <- <-. simpl in *.
        split_and!; try done; lia.
      + eapply read_post_after; [exact Hg|]. eapply IH; [done| |exact Hres].
        simpl. lia. }
  (* what a delivery leads to *)
  assert (forall k data,
            delivered (recvs (sock s)) = data ++ delivered (recvs k) ->
            wire k = wire (sock s) -> sends k = sends (sock s) ->
            (length data <= wanted)%nat ->
            (length (recvs k) <= length (recvs (sock s)))%nat ->
            (if (length data =? 0)%nat then (with_sock s k, Throws NoArgs)
             else if (position (received s k data) =? count_to_read (received s k data))%nat
                  then (received s k data, Returns true)
                  else read_loop fuel (received s k data) nb) = (s', out) ->
            read_post s nb s' out) as Hdata.
  { intros k data Hd Hw Hs Hlen Hk Hres.
    destruct (Nat.eqb_spec (length data) 0) as [|Hne]; [by injection Hres as <- <-|].
    assert (gathered s (received s k data) data) as Hg.
    { apply gathered_received; try done. unfold wanted in Hlen. lia. }
    cbn [received position count_to_read] in Hres.
    destruct (Nat.eqb_spec (position s + length data) (count_to_read s)) as [Hfin|Hmore].
    - injection Hres as <- <-. exists data. split; [done|]. simpl. split; [lia|done].
    - eapply read_post_after; [exact Hg|]. eapply IH; [| |exact Hres].
      + destruct Hg as (_ & G2 & _ & G4 & G5 & _).
        unfold ready. rewrite G2, G4, G5. unfold wanted in Hlen. split_and!; lia.
      + simpl. unfold wanted in Hlen. lia. }
  unfold sock_recv in Hrun.
  destruct (recvs (sock s)) as [|[data|e] rest] eqn:Hr.
  - change (would_block (Errno EAGAIN)) with true in Hrun. cbv iota in Hrun.
    apply (Hblocked (sock s)); [by rewrite Hr|done|done|by left|exact Hrun].
  - destruct (Nat.leb_spec (length data) wanted) as [Hfit|Hbig].
    + apply (Hdata {| wire := wire (sock s); sends := sends (sock s); recvs := rest |} data);
        [done|done|done|exact Hfit|simpl; lia|exact Hrun].
    + apply (Hdata {| wire := wire (sock s); sends := sends (sock s);
                      recvs := Delivers (drop wanted data) :: rest |} (take wanted data));
        [|done|done| |simpl; lia|exact Hrun].
      * unfold delivered. simpl. by rewrite app_assoc, take_drop.
      * rewrite length_take. lia.
  - destruct (would_block e) eqn:He; [|by injection Hrun as <- <-].
    apply (Hblocked {| wire := wire (sock s); sends := sends (sock s); recvs := rest |});
      [done|done|done|right; simpl; lia|exact Hrun].
Qed.

(** X16. [read], called on a read that has begun, in every case.  When it
    returns, the bytes it took off the socket are the next bytes the socket
    delivered, in order, none lost and none beyond the count asked for;
    they lie in the buffer right behind those of earlier calls; and it
    returns True exactly when the count is reached.  It raises only what the
    socket raised, other than would-block errors, or ConnectionError when
    the peer has shut down; [recv_into] is never asked for a size it
    refuses.  It fails to return in one case only: called to block, with
    part of the bytes read, when nothing more ever arrives.  The writing
    side is left alone. *)
Theorem read_gathers_in_order (s s' : BufferingSocket) (no_block : bool)
    (out : outcome bool) :
  ready s ->
  read s no_block = (s', out) ->
  read_post s no_block s' out.
Proof.
  intros Hready Hrun. eapply read_loop_post; [exact Hready| |exact Hrun].
  destruct Hready as (Hbuf & Hle & _). lia.
Qed.

Lemma ready_begin_read s n :
  length (buffer s) = buffer_size s -> n <> 0%nat -> ready (begin_read s n).
Proof.
  intros Hlen Hn. unfold ready, begin_read, get_buffer. simpl.
  destruct (Nat.leb_spec n (buffer_size s)); simpl.
  - split_and!; lia.
  - unfold zeros. rewrite length_replicate. split_and!; lia.
Qed.

Definition demo_reading : BufferingSocket :=
  begin_read
    (BufferingSocket_init
       {| wire := []; sends := [];
          recvs := [Delivers (map byte_of_Z [1; 2; 3]%Z); RecvError (Errno EAGAIN);
                    Delivers (map byte_of_Z [4; 5; 6; 7]%Z)] |} 8) 5.

Example demo_reads :
  let first := read demo_reading true in
  let second := read first.1 true in
  first.2 = Returns false /\ position first.1 = 3%nat
  /\ second.2 = Returns true
  /\ take 5 (get_buffer second.1) = map byte_of_Z [1; 2; 3; 4; 5]%Z
  /\ recvs (sock second.1) = [Delivers (map byte_of_Z [6; 7]%Z)].
Proof. vm_compute. done. Qed.

Lemma read_gathers_in_order_witness :
  read_post demo_reading true (read demo_reading true).1 (read demo_reading true).2.
Proof.
  apply (read_gathers_in_order demo_reading (read demo_reading true).1 true
           (read demo_reading true).2).
  - apply ready_begin_read; [reflexivity|discriminate].
  - apply surjective_pairing.
Defined.

End BufferingSocket.

(** ** proxy/filesystem/logfilewatcher.py: from a file to records

    A Python string is held as its UTF-8 bytes, as everywhere in this
    development; the functions of [str] used by the watcher are written
    out on these bytes. *)

Module LogFileWatcher.
Import PyStr.
Local Open Scope Z_scope.

(** The length in bytes of the line boundary a text begins with, 0 when it
    begins with none.  The boundaries of [str.splitlines]: LF, CR, CR LF,
    VT, FF, FS, GS, RS, and NEL (C2 85), LINE SEPARATOR (E2 80 A8) and
    PARAGRAPH SEPARATOR (E2 80 A9). *)
Definition boundary_len (s : list ascii) : nat :=
  match s with
  | [] => 0
  | c :: s' =>
      let n := code c in
      if (n =? 13)%N then
        match s' with
        | c2 :: _ => if (code c2 =? 10)%N then 2 else 1
        | [] => 1
        end
      else if ((n =? 10) || (n =? 11) || (n =? 12) || (n =? 28) || (n =? 29) || (n =? 30))%N
      then 1
      else if (n =? 194)%N then
        match s' with
        | c2 :: _ => if (code c2 =? 133)%N then 2 else 0
        | [] => 0
        end
      else if (n =? 226)%N then
        match s' with
        | c2 :: c3 :: _ =>
            if ((code c2 =? 128) && ((code c3 =? 168) || (code c3 =? 169)))%N then 3 else 0
        | _ => 0
        end
      else 0
  end%nat.

(** [str.splitlines(True)]: [cur] holds the line in progress, reversed,
    and [pending] the bytes still to come of the boundary being read. *)
Fixpoint splitlines_from (cur : list ascii) (pending : nat) (s : list ascii)
  : list string :=
  match s with
  | [] =>
      match cur with
      | [] => []
      | _ => [string_of_list_ascii (rev cur)]
      end
  | c :: s' =>
      match (match pending with O => boundary_len (c :: s') | S _ => pending end) with
      | O => splitlines_from (c :: cur) 0 s'
      | 1%nat => string_of_list_ascii (rev (c :: cur)) :: splitlines_from [] 0 s'
      | S (S n) => splitlines_from (c :: cur) (S n) s'
      end
  end.

Definition splitlines (data : string) : list string :=
  splitlines_from [] 0 (list_ascii_of_string data).

(** [line.endswith(os.linesep)], on Linux *)
Fixpoint ends_nl (s : list ascii) : bool :=
  match s with
  | [] => false
  | [c] => (code c =? 10)%N
  | _ :: s' => ends_nl s'
  end.

Definition ends_with_linesep (line : string) : bool := ends_nl (list_ascii_of_string line).

(** The calls a watcher makes on its [FileRecordCollector]. *)
Inductive CollectorCall :=
| RequestInitialize (filename : string)
| OnRecordAdded (filename : string) (timestamp file_pos : Z) (contents : string)
| OnFileDisappeared (filename : string) (timestamp file_pos : Z).

(** Well-formed UTF-8 (the Unicode Standard, table 3-7), which is what the
    strict decoder accepts: [need] bytes of the character being read are
    still to come, the next of them within [lo .. hi].  Bytes that end
    inside a character are not well formed. *)
Fixpoint utf8_from (need : nat) (lo hi : N) (s : list ascii) : bool :=
  match s with
  | [] => match need with O => true | S _ => false end
  | c :: s' =>
      let n := code c in
      match need with
      | O =>
          if (n <=? 127)%N then utf8_from 0 128 191 s'
          else if ((194 <=? n) && (n <=? 223))%N then utf8_from 1 128 191 s'
          else if (n =? 224)%N then utf8_from 2 160 191 s'
          else if (n =? 237)%N then utf8_from 2 128 159 s'
          else if ((225 <=? n) && (n <=? 239))%N then utf8_from 2 128 191 s'
          else if (n =? 240)%N then utf8_from 3 144 191 s'
          else if ((241 <=? n) && (n <=? 243))%N then utf8_from 3 128 191 s'
          else if (n =? 244)%N then utf8_from 3 128 143 s'
          else false
      | S need' => ((lo <=? n) && (n <=? hi))%N && utf8_from need' 128 191 s'
      end
  end.

Definition utf8_valid (s : list ascii) : bool := utf8_from 0 128 191 s.


(** The universal newlines of a stream opened with [open(filename, 'r')]:
    CR LF and CR are read as LF. *)
Fixpoint universal_newlines (s : list ascii) : list ascii :=
  match s with
  | [] => []
  | c :: s' =>
      if (code c =? 13)%N then
        ascii_of_nat 10 ::
        match s' with
        | c2 :: s'' => if (code c2 =? 10)%N then universal_newlines s''
                       else universal_newlines s'
        | [] => []
        end
      else c :: universal_newlines s'
  end.

Definition text_of (bytes : string) : string :=
  string_of_list_ascii (universal_newlines (list_ascii_of_string bytes)).

(** [self.__file_stream.read()], given the bytes of the file that were not
    read yet.  The stream is a text stream whose encoding is UTF-8: the
    bytes are taken off the file and decoded as a whole, which raises
    UnicodeDecodeError unless they are well formed. *)
Definition read (bytes : string) : result string :=
  if utf8_valid (list_ascii_of_string bytes) then Ok (text_of bytes)
  else Raise UnicodeDecodeError.

(** [LogFileWatcher].  [file_stream] holds the bytes of the file that the
    stream has not read yet. *)
Record LogFileWatcher := mkWatcher {
  filename : string;
  file_stream : string;
  prev_line : string;
  initialized : bool;
  to_skip : Z;
}.

(** [setup], on a file that holds the bytes [text]. *)
Definition setup (filename : string) (text : string) : LogFileWatcher * list CollectorCall :=
  ({| filename := filename; file_stream := text; prev_line := ""; initialized := false;
      to_skip := 0 |},
   [RequestInitialize filename]).

(** Bytes written to the watched file, behind those it holds. *)
Definition written (w : LogFileWatcher) (text : string) : LogFileWatcher :=
  {| filename := filename w; file_stream := file_stream w +:+ text;
     prev_line := prev_line w; initialized := initialized w; to_skip := to_skip w |}.

(** The loop [for line in lines] of [read_records]: the new [prev_line]
    and [to_skip], the calls made, and the exception raised, if any. *)
Fixpoint scan_lines (filename : string) (timestamp : Z) (lines : list string)
    (prev : string) (skip : Z) (file_pos : Z)
  : string * Z * list CollectorCall * option exn :=
  match lines with
  | [] => (prev, skip, [], None)
  | line :: lines' =>
      if negb (ends_with_linesep line) then
        if negb (String.eqb prev "")
        then (prev, skip, [], Some (ValueError "__prev_line not empty"))
        else scan_lines filename timestamp lines' line skip file_pos
      else
        let '(skip', calls) :=
          if 0 <? skip then (skip - 1, [])
          else (skip, [OnRecordAdded filename timestamp file_pos (rstrip line)]) in
        let '(prev', skip'', calls', e) :=
          scan_lines filename timestamp lines' prev skip' (file_pos + py_len line) in
        (prev', skip'', calls ++ calls', e)
  end.

(** The lines [read_records] goes through: those of the text read,
    [data], the first one behind what was left of the previous read. *)
Definition pending_lines (w : LogFileWatcher) (data : string) : list string :=
  let lines := splitlines data in
  if negb (String.eqb (prev_line w) "")
  then match lines with
       | first :: others => (prev_line w +:+ first) :: others
       | [] => []
       end
  else lines.

(** [read_records]; [timestamp] is what [datetime.now()] and [tell] what
    [self.__file_stream.tell()] return. *)
Definition read_records (w : LogFileWatcher) (timestamp tell : Z)
  : LogFileWatcher * list CollectorCall * option exn :=
  let file_pos := tell - py_len (prev_line w) in
  let w0 := {| filename := filename w; file_stream := ""; prev_line := prev_line w;
               initialized := initialized w; to_skip := to_skip w |} in
  match read (file_stream w) with
  | Raise e => (w0, [], Some e)
  | Ok data =>
      if String.eqb data "" then (w0, [], None)
      else
        let lines := pending_lines w data in
        let '(prev', skip', calls, e) :=
          scan_lines (filename w) timestamp lines "" (to_skip w) file_pos in
        ({| filename := filename w; file_stream := ""; prev_line := prev';
            initialized := initialized w; to_skip := skip' |}, calls, e)
  end.

Definition initialize (w : LogFileWatcher) (start_line : Z) (timestamp tell : Z)
  : LogFileWatcher * list CollectorCall * option exn :=
  let w1 := {| filename := filename w; file_stream := file_stream w;
               prev_line := prev_line w; initialized := initialized w;
               to_skip := start_line |} in
  match read_records w1 timestamp tell with
  | (w2, calls, None) =>
      ({| filename := filename w2; file_stream := file_stream w2;
          prev_line := prev_line w2; initialized := true; to_skip := to_skip w2 |},
       calls, None)
  | (w2, calls, Some e) => (w2, calls, Some e)
  end.


Example demo_splitlines :
  splitlines ("ab" +:+ LF +:+ "cd" +:+ CR +:+ LF +:+ LF +:+ "e" +:+ VT +:+ "f" +:+ NEL
              +:+ EURO +:+ LSEP +:+ "g")
  = ["ab" +:+ LF; "cd" +:+ CR +:+ LF; LF; "e" +:+ VT; "f" +:+ NEL; EURO +:+ LSEP; "g"]
  /\ splitlines "" = []
  /\ splitlines ("a" +:+ LF) = ["a" +:+ LF]
  /\ py_len (EURO +:+ "a" +:+ NBSP) = 3.
Proof. vm_compute. done. Qed.

(** *** Text whose only line boundary is the newline *)




(** A line: its text and the newline that ends it. *)
Definition nl (b : string) : string := b +:+ LF.













Lemma splitlines_from_some cur pending s :
  cur <> [] \/ s <> [] -> splitlines_from cur pending s <> [].
Proof.
  revert cur pending. induction s as [|c s IH]; intros cur pending Hne.
  - simpl. destruct cur; [by destruct Hne|done].
  - cbn [splitlines_from].
    destruct (match pending with O => _ | S _ => _ end) as [|[|n]]; [|done|];
      apply IH; by left.
Qed.

(** A text that is not empty has a first line: [lines[0]] is there. *)
Lemma splitlines_nonempty data : data <> "" -> splitlines data <> [].
Proof.
  intros Hne. apply splitlines_from_some. right. by destruct data.
Qed.








(** *** The records of a read *)







(** *** What [read] returns *)












Definition demo_watcher : LogFileWatcher :=
  (setup "/t/a.log" (nl "one  " +:+ nl "" +:+ nl ("tw" +:+ EURO) +:+ "thr")).1.

Example demo_initialize :
  initialize demo_watcher 1 17 0
  = ({| filename := "/t/a.log"; file_stream := ""; prev_line := "thr"; initialized := true;
        to_skip := 0 |},
     [ OnRecordAdded "/t/a.log" 17 6 ""; OnRecordAdded "/t/a.log" 17 7 ("tw" +:+ EURO) ],
     None).
Proof. vm_compute. reflexivity. Qed.


(** *** When a read fails *)

(** The lines that do not end in a newline. *)
Definition unterminated (lines : list string) : list string :=
  List.filter (fun l => negb (ends_with_linesep l)) lines.

Lemma scan_raises f ts lines prev skip pos :
  Forall (fun l => l <> "") lines ->
  (scan_lines f ts lines prev skip pos).2
  = if ((if String.eqb prev "" then 2 else 1) <=? length (unterminated lines))%nat
    then Some (ValueError "__prev_line not empty") else None.
Proof.
  intros Hne. revert prev skip pos.
  induction Hne as [|line lines Hline _ IH]; intros prev skip pos.
  { simpl. by destruct (String.eqb prev ""). }
  cbn [scan_lines unterminated List.filter].
  destruct (ends_with_linesep line); cbn [negb].
  - destruct (0 <? skip).
    + specialize (IH prev (skip - 1) (pos + py_len line)).
      destruct (scan_lines f ts lines prev (skip - 1) (pos + py_len line)) as [[[? ?] ?] ?].
      exact IH.
    + specialize (IH prev skip (pos + py_len line)).
      destruct (scan_lines f ts lines prev skip (pos + py_len line)) as [[[? ?] ?] ?].
      exact IH.
  - destruct (String.eqb prev "") eqn:E; cbn [negb length].
    + rewrite IH. apply String.eqb_neq in Hline. rewrite Hline.
      fold (unterminated lines).
      destruct (Nat.leb_spec 1 (length (unterminated lines))),
               (Nat.leb_spec 2 (S (length (unterminated lines)))); done || lia.
    + reflexivity.
Qed.

Lemma splitlines_from_nonempty cur pending s :
  Forall (fun l => l <> "") (splitlines_from cur pending s).
Proof.
  assert (forall c l, string_of_list_ascii (rev (c :: l)) <> "") as Hrev.
  { intros c l. simpl. by destruct (rev l). }
  revert cur pending. induction s as [|c s IH]; intros cur pending.
  - simpl. destruct cur as [|x cur]; [constructor|].
    constructor; [apply Hrev|constructor].
  - cbn [splitlines_from].
    destruct (match pending with O => _ | S _ => _ end) as [|[|n]]; try apply IH.
    constructor; [apply Hrev|apply IH].
Qed.

Lemma pending_lines_nonempty w data : Forall (fun l => l <> "") (pending_lines w data).
Proof.
  unfold pending_lines.
  pose proof (splitlines_from_nonempty [] 0 (list_ascii_of_string data)) as H.
  fold (splitlines data) in H.
  destruct (negb _); [|done].
  destruct (splitlines data) as [|first others]; [done|].
  apply Forall_cons in H as [Hf Ho]. constructor; [|done].
  destruct (prev_line w); [done|discriminate].
Qed.

(** X18. When [read_records] fails.  It raises UnicodeDecodeError exactly
    when the bytes it reads are not well-formed UTF-8, as when they end
    inside a character, and then hands over nothing.  Otherwise it raises
    ValueError exactly when the text read, put behind what the previous
    read left, holds two lines that do not end in a newline, and else it
    raises nothing.  (One such line can only be the last; a second needs a
    line boundary other than the newline, a form feed say, inside the
    text.) *)
Theorem read_records_raises (w : LogFileWatcher) (ts tell : Z) :
  (read_records w ts tell).2
  = (if negb (utf8_valid (list_ascii_of_string (file_stream w)))
     then Some UnicodeDecodeError
     else if (2 <=? length (unterminated (pending_lines w (text_of (file_stream w)))))%nat
          then Some (ValueError "__prev_line not empty") else None)
  /\ (utf8_valid (list_ascii_of_string (file_stream w)) = false ->
      (read_records w ts tell).1.2 = []).
Proof.
  unfold read_records, read.
  destruct (utf8_valid (list_ascii_of_string (file_stream w))); cbn [negb];
    [|split; reflexivity].
  split; [|discriminate].
  destruct (String.eqb (text_of (file_stream w)) "") eqn:Hempty.
  - apply String.eqb_eq in Hempty. rewrite Hempty. unfold pending_lines.
    change (splitlines "") with (@nil string). by destruct (negb _).
  - pose proof (scan_raises (filename w) ts (pending_lines w (text_of (file_stream w))) ""
                  (to_skip w) (tell - py_len (prev_line w))
                  (pending_lines_nonempty w _)) as H.
    destruct (scan_lines _ _ _ _ _ _) as [[[? ?] ?] ?]. exact H.
Qed.

Example demo_form_feed :
  let w := written (initialize demo_watcher 1 17 0).1.1
             ("ee" +:+ LF +:+ "page" +:+ String (ascii_of_nat 12) "" +:+ "next") in
  pending_lines w (text_of (file_stream w))
  = ["three" +:+ LF; "page" +:+ String (ascii_of_nat 12) ""; "next"]
  /\ read_records w 18 0
     = ({| filename := "/t/a.log"; file_stream := "";
           prev_line := "page" +:+ String (ascii_of_nat 12) ""; initialized := true;
           to_skip := 0 |},
        [OnRecordAdded "/t/a.log" 18 (-3) "three"],
        Some (ValueError "__prev_line not empty")).
Proof. vm_compute. done. Qed.

(** Bytes that end inside a character: the read raises, and the bytes are
    gone from the file.  CR LF is read as one newline. *)
Example demo_cut_character :
  let w := written (initialize demo_watcher 1 17 0).1.1
             ("ee" +:+ LF +:+ "tw" +:+ String (ascii_of_nat 226) (String (ascii_of_nat 130) "")) in
  read_records w 18 0
  = ({| filename := "/t/a.log"; file_stream := ""; prev_line := "thr"; initialized := true;
        to_skip := 0 |}, [], Some UnicodeDecodeError)
  /\ read ("a" +:+ CR +:+ LF +:+ "b" +:+ CR +:+ EURO) = Ok ("a" +:+ LF +:+ "b" +:+ LF +:+ EURO)
  /\ read (String (ascii_of_nat 192) (String (ascii_of_nat 128) "")) = Raise UnicodeDecodeError
  /\ read (String (ascii_of_nat 237) (String (ascii_of_nat 160) (String (ascii_of_nat 128) "")))
     = Raise UnicodeDecodeError.
Proof. vm_compute. done. Qed.

(** *** A line that arrives in two pieces *)




End LogFileWatcher.

(** ** The start of a watch: proxy/filesystem/fileproxy.py and the agent *)

Module WatchStart.
Import LogModel Backend Networking.
Local Open Scope Z_scope.










End WatchStart.
